(** * midi_recorder: the capture/session engine of [midi_recorder.py]

    A shallow embedding of class [MidiRecorder]: the object's attributes
    are the fields of a record, every method is a function from recorder
    to recorder, and the effects the methods have on the outside world
    (files saved, CPU governor commands, clock reads) are recorded in
    three extra fields of the same record.

    Modelling decisions:
    - [time.perf_counter()] and [time.time()] return Python floats,
      IEEE 754 binary64 numbers.  A time stamp is carried as the
      rational it denotes ([Q]).  The subtraction, the division and
      the two multiplications of [write_message] round their exact
      result to the nearest binary64 number ([round64]); [int(x)]
      truncates toward zero ([int_of_float]).  Overflow to infinity is not modelled: it
      needs magnitudes of [2^1024], which no clock returns.  Where the
      code compares the difference of two clock readings with the
      thresholds 1.0 and 5.0, the model compares the exact difference.
    - The two clocks are oracles: [time_time k] and [perf_counter k] are
      the values the k-th clock read of the process returns; [reads]
      counts the reads made so far.
    - [message_queue] is the list of entries in the queue when a method
      is called; the producer thread is the separate action
      [midi_callback].
    - The attributes [midi_port], [running] and [logger] are read by no
      method modelled here and are left out. *)

From Stdlib Require Import ZArith QArith Qround Qabs Qpower List Ascii String Bool
  Lia Lqa.
From Stdlib Require SpecFloat.
Import ListNotations.

Open Scope Z_scope.

(** ** Configuration *)

Definition SESSION_TIMEOUT : Q := 5.
Definition DEFAULT_TEMPO : Z := 500000.
Definition TICKS_PER_BEAT : Z := 480.
Definition LOW_BLACK_NOTE : Z := 22.
Definition HIGH_BLACK_NOTE : Z := 106.
Definition SHORTCUT_TIMEOUT : Q := 1.

(** ** Data model *)

(** The [type] attribute of a mido message. *)
Inductive MsgType :=
| note_on | note_off | control_change | clock | active_sensing | other.

Definition MsgType_eqb (a b : MsgType) : bool :=
  match a, b with
  | note_on, note_on | note_off, note_off
  | control_change, control_change | clock, clock
  | active_sensing, active_sensing | other, other => true
  | _, _ => false
  end.

(** A mido [Message].  [note] and [velocity] are read for note messages
    only; [time] is the delta the recorder overwrites on its copy. *)
Record Message := mkMessage {
  type : MsgType;
  note : Z;
  velocity : Z;
  time : Z
}.

(** [msg.copy()] followed by [msg_copy.time = t]. *)
Definition with_time (t : Z) (m : Message) : Message :=
  {| type := type m; note := note m; velocity := velocity m; time := t |}.

(** An entry of a [MidiTrack]: the tempo meta message or a message. *)
Inductive TrackEntry :=
| set_tempo (tempo : Z) (t : Z)
| midi (m : Message).

Definition MidiTrack := list TrackEntry.

(** A [MidiFile] object.  Its single track is the very list object held
    in [current_track]; the alias is modelled by keeping the list in
    [current_track] only and reading it from there when the file is
    saved. *)
Record MidiFile := mkMidiFile { ticks_per_beat : Z }.

(** One of the dicts [low_note_state] / [high_note_state]. *)
Record ShortcutState := mkShortcut {
  count : Z;
  buffer : list (Message * Q);
  last_time : Q
}.

Definition empty_shortcut : ShortcutState :=
  {| count := 0; buffer := []; last_time := 0 |}.

(** A file written by [current_file.save(file_path)]: the suffix put
    before the extension, the resolution and the track at that moment.
    The directory and the time-of-day stem come from [datetime.now()] and
    are not modelled. *)
Record SavedFile := mkSaved {
  name_suffix : string;
  saved_ticks_per_beat : Z;
  saved_track : MidiTrack
}.

(** The command echoed into the CPU governor by [os.system]. *)
Inductive Governor := powersave | ondemand.

Record MidiRecorder := mkRecorder {
  recording : bool;
  last_activity : option Q;
  current_file : option MidiFile;
  current_track : option MidiTrack;
  session_start_time : option Q;
  first_message_time : option Q;
  last_message_time : option Q;
  in_low_power : bool;
  message_queue : list (Message * Q);
  low_note_state : ShortcutState;
  high_note_state : ShortcutState;
  (* the outside world *)
  saved_files : list SavedFile;
  governor_log : list Governor;
  reads : nat
}.

(** [MidiRecorder.__init__] *)
Definition init : MidiRecorder :=
  {| recording := false; last_activity := None; current_file := None;
     current_track := None; session_start_time := None;
     first_message_time := None; last_message_time := None;
     in_low_power := false; message_queue := [];
     low_note_state := empty_shortcut; high_note_state := empty_shortcut;
     saved_files := []; governor_log := []; reads := 0 |}.

(** Attribute assignment, one function per attribute. *)
Definition set_recording (v : bool) (r : MidiRecorder) : MidiRecorder :=
  mkRecorder v (last_activity r) (current_file r) (current_track r)
    (session_start_time r) (first_message_time r) (last_message_time r)
    (in_low_power r) (message_queue r) (low_note_state r)
    (high_note_state r) (saved_files r) (governor_log r) (reads r).

Definition set_last_activity (v : option Q) (r : MidiRecorder) : MidiRecorder :=
  mkRecorder (recording r) v (current_file r) (current_track r)
    (session_start_time r) (first_message_time r) (last_message_time r)
    (in_low_power r) (message_queue r) (low_note_state r)
    (high_note_state r) (saved_files r) (governor_log r) (reads r).

Definition set_current_file (v : option MidiFile) (r : MidiRecorder) : MidiRecorder :=
  mkRecorder (recording r) (last_activity r) v (current_track r)
    (session_start_time r) (first_message_time r) (last_message_time r)
    (in_low_power r) (message_queue r) (low_note_state r)
    (high_note_state r) (saved_files r) (governor_log r) (reads r).

Definition set_current_track (v : option MidiTrack) (r : MidiRecorder) : MidiRecorder :=
  mkRecorder (recording r) (last_activity r) (current_file r) v
    (session_start_time r) (first_message_time r) (last_message_time r)
    (in_low_power r) (message_queue r) (low_note_state r)
    (high_note_state r) (saved_files r) (governor_log r) (reads r).

Definition set_session_start_time (v : option Q) (r : MidiRecorder) : MidiRecorder :=
  mkRecorder (recording r) (last_activity r) (current_file r) (current_track r)
    v (first_message_time r) (last_message_time r)
    (in_low_power r) (message_queue r) (low_note_state r)
    (high_note_state r) (saved_files r) (governor_log r) (reads r).

Definition set_first_message_time (v : option Q) (r : MidiRecorder) : MidiRecorder :=
  mkRecorder (recording r) (last_activity r) (current_file r) (current_track r)
    (session_start_time r) v (last_message_time r)
    (in_low_power r) (message_queue r) (low_note_state r)
    (high_note_state r) (saved_files r) (governor_log r) (reads r).

Definition set_last_message_time (v : option Q) (r : MidiRecorder) : MidiRecorder :=
  mkRecorder (recording r) (last_activity r) (current_file r) (current_track r)
    (session_start_time r) (first_message_time r) v
    (in_low_power r) (message_queue r) (low_note_state r)
    (high_note_state r) (saved_files r) (governor_log r) (reads r).

Definition set_in_low_power (v : bool) (r : MidiRecorder) : MidiRecorder :=
  mkRecorder (recording r) (last_activity r) (current_file r) (current_track r)
    (session_start_time r) (first_message_time r) (last_message_time r)
    v (message_queue r) (low_note_state r)
    (high_note_state r) (saved_files r) (governor_log r) (reads r).

Definition set_message_queue (v : list (Message * Q)) (r : MidiRecorder) : MidiRecorder :=
  mkRecorder (recording r) (last_activity r) (current_file r) (current_track r)
    (session_start_time r) (first_message_time r) (last_message_time r)
    (in_low_power r) v (low_note_state r)
    (high_note_state r) (saved_files r) (governor_log r) (reads r).

Definition set_low_note_state (v : ShortcutState) (r : MidiRecorder) : MidiRecorder :=
  mkRecorder (recording r) (last_activity r) (current_file r) (current_track r)
    (session_start_time r) (first_message_time r) (last_message_time r)
    (in_low_power r) (message_queue r) v
    (high_note_state r) (saved_files r) (governor_log r) (reads r).

Definition set_high_note_state (v : ShortcutState) (r : MidiRecorder) : MidiRecorder :=
  mkRecorder (recording r) (last_activity r) (current_file r) (current_track r)
    (session_start_time r) (first_message_time r) (last_message_time r)
    (in_low_power r) (message_queue r) (low_note_state r)
    v (saved_files r) (governor_log r) (reads r).

Definition set_saved_files (v : list SavedFile) (r : MidiRecorder) : MidiRecorder :=
  mkRecorder (recording r) (last_activity r) (current_file r) (current_track r)
    (session_start_time r) (first_message_time r) (last_message_time r)
    (in_low_power r) (message_queue r) (low_note_state r)
    (high_note_state r) v (governor_log r) (reads r).

Definition set_governor_log (v : list Governor) (r : MidiRecorder) : MidiRecorder :=
  mkRecorder (recording r) (last_activity r) (current_file r) (current_track r)
    (session_start_time r) (first_message_time r) (last_message_time r)
    (in_low_power r) (message_queue r) (low_note_state r)
    (high_note_state r) (saved_files r) v (reads r).

Definition set_reads (v : nat) (r : MidiRecorder) : MidiRecorder :=
  mkRecorder (recording r) (last_activity r) (current_file r) (current_track r)
    (session_start_time r) (first_message_time r) (last_message_time r)
    (in_low_power r) (message_queue r) (low_note_state r)
    (high_note_state r) (saved_files r) (governor_log r) v.

(** ** Arithmetic on time stamps *)

(** [a > b] on floats. *)
Definition Qgtb (a b : Q) : bool := negb (Qle_bool a b).

(** [int(x)]: truncation toward zero. *)
Definition int_of_float (x : Q) : Z := Z.quot (Qnum x) (Z.pos (Qden x)).

(** Truth value of an optional float: [None] and [0.0] are false. *)
Definition truthy (o : option Q) : bool :=
  match o with
  | None => false
  | Some t => negb (Qeq_bool t 0)
  end.

(** ** Binary64 arithmetic

    The result of [a - b], [a * b] or [a / b] on Python floats is the
    exact result rounded to the nearest binary64 number, ties to the even
    mantissa.  [round64] is that rounding on [Q]: 53 bits of precision
    and gradual underflow, the smallest unit in the last place being
    [2^-1074].  The exponent is not bounded above. *)

Definition pow2 (e : Z) : Q := (2 ^ e)%Q.

(** The exponent [k] with [2^k <= x < 2^(k+1)], for [x > 0]. *)
Definition ilog2 (x : Q) : Z :=
  let k := Z.log2 (Qnum x) - Z.log2 (Z.pos (Qden x)) in
  if Qle_bool (pow2 k) x then k else k - 1.

(** The nearest integer, a tie going to the even one. *)
Definition rne (y : Q) : Z :=
  let f := Qfloor y in
  match (y - inject_Z f ?= 1 # 2)%Q with
  | Lt => f
  | Gt => f + 1
  | Eq => if Z.even f then f else f + 1
  end.

(** The exponent of the unit in the last place of the binary64 numbers
    around [x > 0]. *)
Definition ulp_exponent (x : Q) : Z := Z.max (ilog2 x - 52) (-1074).

Definition round_pos (x : Q) : Q :=
  let e := ulp_exponent x in
  (inject_Z (rne (x / pow2 e)) * pow2 e)%Q.

Definition round64 (x : Q) : Q :=
  let x := Qred x in
  match Qnum x with
  | 0 => 0%Q
  | Z.pos _ => round_pos x
  | Z.neg _ => (- round_pos (- x))%Q
  end.

(** Lines 213-220 of [write_message]: the tick delta of a message stamped
    [msg_timestamp] when the previous write was at [last].  Without a
    previous write [delta_seconds] is the integer 0, and the product is
    the float 0.0. *)
Definition beats_per_second : Q :=
  round64 (inject_Z 1000000 / inject_Z DEFAULT_TEMPO).

Definition delta_ticks (last : option Q) (msg_timestamp : Q) : Z :=
  let delta_seconds :=
    match last with
    | None => 0%Q
    | Some t => round64 (msg_timestamp - t)
    end in
  let ticks :=
    int_of_float
      (round64 (round64 (delta_seconds * inject_Z TICKS_PER_BEAT)
                * beats_per_second)) in
  Z.max 0 ticks.

(** ** The reserved notes

    [handle_shortcuts] loops over the two triples
    [(LOW_BLACK_NOTE, self.low_note_state, '')] and
    [(HIGH_BLACK_NOTE, self.high_note_state, '-bookmark')].  The dict in a
    triple is the object the attribute refers to, so a mutation through
    the loop variable is a mutation of the attribute: the triple is
    modelled by a selector. *)
Inductive Which := Low | High.

Definition note_of (w : Which) : Z :=
  match w with Low => LOW_BLACK_NOTE | High => HIGH_BLACK_NOTE end.

Definition suffix_of (w : Which) : string :=
  match w with Low => EmptyString | High => "-bookmark"%string end.

Definition get_state (w : Which) (r : MidiRecorder) : ShortcutState :=
  match w with Low => low_note_state r | High => high_note_state r end.

Definition set_state (w : Which) (s : ShortcutState) (r : MidiRecorder) : MidiRecorder :=
  match w with Low => set_low_note_state s r | High => set_high_note_state s r end.

Definition other_note (w : Which) : Which :=
  match w with Low => High | High => Low end.

(** ** Methods that read no clock *)

(** [write_message] *)
Definition write_message (msg : Message) (msg_timestamp : Q) (r : MidiRecorder)
  : MidiRecorder :=
  match current_track r with
  | Some tr =>
      let d := delta_ticks (last_message_time r) msg_timestamp in
      let r := set_current_track (Some (tr ++ [midi (with_time d msg)])) r in
      set_last_message_time (Some msg_timestamp) r
  | None => r
  end.

(** The [for m, ts in state['buffer']] loop of [flush_buffer]. *)
Definition write_all (evs : list (Message * Q)) (r : MidiRecorder) : MidiRecorder :=
  fold_left (fun acc ev => write_message (fst ev) (snd ev) acc) evs r.

(** [flush_buffer] *)
Definition flush_buffer (w : Which) (r : MidiRecorder) : MidiRecorder :=
  let r := write_all (buffer (get_state w r)) r in
  set_state w empty_shortcut r.

(** [flush_shortcut_buffers] *)
Definition flush_shortcut_buffers (r : MidiRecorder) : MidiRecorder :=
  flush_buffer High (flush_buffer Low r).

(** [enter_low_power_mode] *)
Definition enter_low_power_mode (r : MidiRecorder) : MidiRecorder :=
  if negb (in_low_power r) then
    let r := set_in_low_power true r in
    set_governor_log (governor_log r ++ [powersave]) r
  else r.

(** [exit_low_power_mode] *)
Definition exit_low_power_mode (r : MidiRecorder) : MidiRecorder :=
  if in_low_power r then
    let r := set_in_low_power false r in
    set_governor_log (governor_log r ++ [ondemand]) r
  else r.

(** [stop_recording], with the call to [process_message_queue] of its
    [skip_queue=False] branch taken as a parameter: [handle_shortcuts]
    calls it with [skip_queue=True] only, and [process_message_queue] is
    defined from [handle_shortcuts].  [stop_recording] below closes the
    loop.

    [len(self.current_track)] is evaluated only when [current_file] is
    set; both attributes are assigned together ([file_track_aligned]
    below), so the track is a list then. *)
Definition stop_recording_body (process_message_queue : MidiRecorder -> MidiRecorder)
    (suffix : string) (skip_queue skip_buffer : bool) (r : MidiRecorder)
  : MidiRecorder :=
  if negb (recording r) then r
  else
    let r := set_recording false r in
    let r := if skip_queue then set_message_queue [] r
             else process_message_queue r in
    let r := if negb skip_buffer then flush_shortcut_buffers r
             else set_high_note_state empty_shortcut
                    (set_low_note_state empty_shortcut r) in
    let r :=
      match current_file r, current_track r with
      | Some f, Some tr =>
          if (1 <? List.length tr)%nat then
            set_saved_files
              (saved_files r ++ [mkSaved suffix (ticks_per_beat f) tr]) r
          else r
      | _, _ => r
      end in
    set_current_track None (set_current_file None r).

(** The body of the [for note, state, suffix in ...] loop of
    [handle_shortcuts] under [if msg.note == note]; every path through
    it returns. *)
Definition shortcut_body (w : Which) (msg : Message) (msg_timestamp : Q)
    (r : MidiRecorder) : bool * MidiRecorder :=
  let r :=
    if MsgType_eqb (type msg) note_on
       && (0 <? count (get_state w r))
       && Qgtb (msg_timestamp - last_time (get_state w r)) SHORTCUT_TIMEOUT
    then flush_buffer w r else r in
  let st := get_state w r in
  let st := mkShortcut (count st) (buffer st ++ [(msg, msg_timestamp)])
              (last_time st) in
  if MsgType_eqb (type msg) note_on then
    let st := mkShortcut (count st + 1) (buffer st) msg_timestamp in
    let r := set_state w st r in
    if 3 <=? count st then
      let r := set_message_queue [] r in
      (true, stop_recording_body (fun r => r) (suffix_of w) true true r)
    else (true, r)
  else (true, set_state w st r).

(** The loop itself; [None] when it ends without [return]. *)
Fixpoint shortcut_loop (triples : list Which) (msg : Message) (msg_timestamp : Q)
    (r : MidiRecorder) : option (bool * MidiRecorder) :=
  match triples with
  | [] => None
  | w :: triples' =>
      if note msg =? note_of w then Some (shortcut_body w msg msg_timestamp r)
      else shortcut_loop triples' msg msg_timestamp r
  end.

(** The two [if ...['count'] > 0: self.flush_buffer(...)] statements that
    end both branches of [handle_shortcuts]. *)
Definition flush_counted (w : Which) (r : MidiRecorder) : MidiRecorder :=
  if 0 <? count (get_state w r) then flush_buffer w r else r.

(** [handle_shortcuts] *)
Definition handle_shortcuts (msg : Message) (msg_timestamp : Q) (r : MidiRecorder)
  : bool * MidiRecorder :=
  if MsgType_eqb (type msg) note_on || MsgType_eqb (type msg) note_off then
    match shortcut_loop [Low; High] msg msg_timestamp r with
    | Some res => res
    | None => (false, flush_counted High (flush_counted Low r))
    end
  else (false, flush_counted High (flush_counted Low r)).

(** ** The input port

    Port names are byte strings; [str.lower()] is modelled on the ASCII
    letters, the only ones that can make the three letters looked for.
    An opened port object is represented by the name it was opened
    under, [mido.get_input_names()] by its result ([None] when it
    raises) and [mido.open_input] by the set of names it opens without
    raising. *)

(** [c.lower()] for one character. *)
Definition lower_char (c : ascii) : ascii :=
  let n := nat_of_ascii c in
  if ((65 <=? n) && (n <=? 90))%nat then ascii_of_nat (n + 32) else c.

(** [s.lower()] *)
Fixpoint lower (s : string) : string :=
  match s with
  | EmptyString => EmptyString
  | String c s' => String (lower_char c) (lower s')
  end.

(** [pat in s] *)
Fixpoint contains (pat s : string) : bool :=
  String.prefix pat s
  || match s with
     | EmptyString => false
     | String _ s' => contains pat s'
     end.

(** ['pia' in port.lower()] *)
Definition has_pia (port : string) : bool := contains "pia" (lower port).

(** Truth value of an optional string: [None] and [''] are false. *)
Definition truthy_name (o : option string) : bool :=
  match o with
  | None | Some EmptyString => false
  | Some _ => true
  end.

(** [find_midi_port]: the name of the port it returns opened, [None]
    when it returns [None]. *)
Definition find_midi_port (get_input_names : option (list string))
    (open_input : string -> bool) : option string :=
  match get_input_names with
  | None => None
  | Some ports =>
      match ports with
      | [] => None
      | first :: _ =>
          let port_name := find has_pia ports in
          let port_name :=
            if negb (truthy_name port_name) then first
            else match port_name with Some p => p | None => first end in
          if open_input port_name then Some port_name else None
      end
  end.

(** The attributes [port_monitor_thread] works on, and the ports it has
    closed and opened so far. *)
Record PortMonitor := mkMonitor {
  midi_port : option string;
  current_port_name : option string;
  closed_ports : list string;
  opened_ports : list string
}.

(** [midi_port] after [__init__], [current_port_name] after the first
    statement of [port_monitor_thread]. *)
Definition monitor_init : PortMonitor :=
  {| midi_port := None; current_port_name := None;
     closed_ports := []; opened_ports := [] |}.

(** [self.current_port_name not in ports] *)
Definition not_listed (name : option string) (ports : list string) : bool :=
  match name with
  | None => true
  | Some n => negb (existsb (String.eqb n) ports)
  end.

(** One pass of the [while self.running] loop of [port_monitor_thread]:
    the seconds slept at its end and the attributes after it.  An
    exception inside the [try] leaves the attributes as they are at
    that point and sleeps 2 seconds; an exception of [close()] is
    swallowed. *)
Definition port_monitor_pass (get_input_names : option (list string))
    (open_input : string -> bool) (st : PortMonitor) : Q * PortMonitor :=
  match get_input_names with
  | None => (2%Q, st)
  | Some ports =>
      if match midi_port st with None => true | Some _ => false end
         || not_listed (current_port_name st) ports
      then
        let st :=
          match midi_port st with
          | Some h =>
              mkMonitor None (current_port_name st)
                (closed_ports st ++ [h]) (opened_ports st)
          | None => st
          end in
        let port_name := find has_pia ports in
        if truthy_name port_name then
          match port_name with
          | Some p =>
              if open_input p then
                (1%Q, mkMonitor (Some p) (Some p) (closed_ports st)
                        (opened_ports st ++ [p]))
              else (2%Q, st)
          | None => (1%Q, st)
          end
        else
          (1%Q, mkMonitor (midi_port st) None (closed_ports st) (opened_ports st))
      else (1%Q, st)
  end.

(** Passes of the monitor, one for each state of the outside world. *)
Definition monitor_run (world : list (option (list string) * (string -> bool)))
    (st : PortMonitor) : PortMonitor :=
  fold_left (fun acc w => snd (port_monitor_pass (fst w) (snd w) acc)) world st.

(** ** The path of a saved file

    A [pathlib.Path] is the list of its parts, the file name last.
    [datetime.now()] is a record of the calendar fields the code
    formats; the directories [mkdir] creates are not modelled. *)

Definition Path := list string.

(** [BASE_DIR] *)
Definition BASE_DIR : Path :=
  ["/"; "home"; "chris"; "midi_recordings"]%string.

Record DateTime := mkDateTime {
  year : Z;
  month : Z;
  day : Z;
  hour : Z;
  minute : Z;
  second : Z
}.

(** The character of a decimal digit. *)
Definition digit (d : Z) : ascii := ascii_of_nat (48 + Z.to_nat d).

(** A field [strftime] pads with zeros to two digits ([%m], [%d], [%H],
    [%M], [%S]) and the four digits of [%Y]. *)
Definition pad2 (n : Z) : string :=
  String (digit (n / 10)) (String (digit (n mod 10)) EmptyString).

Definition pad4 (n : Z) : string :=
  String (digit (n / 1000))
    (String (digit (n / 100 mod 10))
       (String (digit (n / 10 mod 10))
          (String (digit (n mod 10)) EmptyString))).

(** [%B]: the process never calls [setlocale], so the names are those of
    the C locale. *)
Definition month_name (m : Z) : string :=
  match m with
  | 1 => "January" | 2 => "February" | 3 => "March" | 4 => "April"
  | 5 => "May" | 6 => "June" | 7 => "July" | 8 => "August"
  | 9 => "September" | 10 => "October" | 11 => "November"
  | 12 => "December" | _ => EmptyString
  end%string.

(** [create_session_path], given [datetime.now()]. *)
Definition create_session_path (now : DateTime) : Path :=
  let year_s := pad4 (year now) in
  let month_s := (pad2 (month now) ++ "-" ++ month_name (month now))%string in
  let day_s := pad2 (day now) in
  let dir_path := BASE_DIR ++ [year_s; month_s; day_s] in
  let session_name :=
    ("session_" ++ pad2 (hour now) ++ pad2 (minute now) ++ pad2 (second now)
     ++ ".mid")%string in
  dir_path ++ [session_name].

(** [name.rfind('.')] *)
Fixpoint rfind_dot (s : string) : option nat :=
  match s with
  | EmptyString => None
  | String c s' =>
      match rfind_dot s' with
      | Some i => Some (S i)
      | None => if Ascii.eqb c "." then Some O else None
      end
  end.

(** [Path.suffix] and [Path.stem] of a file name: the name is split at
    its last dot unless that dot is the first or the last character. *)
Definition name_suffix_of (name : string) : string :=
  match rfind_dot name with
  | Some i =>
      if ((0 <? i) && (i <? String.length name - 1))%nat
      then substring i (String.length name - i) name
      else EmptyString
  | None => EmptyString
  end.

Definition name_stem_of (name : string) : string :=
  match rfind_dot name with
  | Some i =>
      if ((0 <? i) && (i <? String.length name - 1))%nat
      then substring 0 i name
      else name
  | None => name
  end.

(** [Path.with_name] *)
Definition with_name (name : string) (p : Path) : Path :=
  removelast p ++ [name].

(** Lines 173-175 of [stop_recording]: the path the file is saved
    under. *)
Definition save_path (now : DateTime) (suffix : string) : Path :=
  let file_path := create_session_path now in
  match suffix with
  | EmptyString => file_path
  | _ =>
      let name := last file_path EmptyString in
      with_name (name_stem_of name ++ suffix ++ name_suffix_of name)%string
        file_path
  end.

(** ** Methods that read a clock *)

Section Clocks.

Variable time_time : nat -> Q.
Variable perf_counter : nat -> Q.

(** One read of a clock. *)
Definition read_clock (clk : nat -> Q) (r : MidiRecorder) : Q * MidiRecorder :=
  (clk (reads r), set_reads (S (reads r)) r).

(** [midi_callback] *)
Definition midi_callback (msg : Message) (r : MidiRecorder) : MidiRecorder :=
  let (timestamp, r) := read_clock perf_counter r in
  set_message_queue (message_queue r ++ [(msg, timestamp)]) r.

(** [start_recording] *)
Definition start_recording (r : MidiRecorder) : MidiRecorder :=
  if recording r then r
  else
    let (t, r) := read_clock perf_counter r in
    let r := set_session_start_time (Some t) r in
    let (t, r) := read_clock time_time r in
    let r := set_last_activity (Some t) r in
    let r := set_first_message_time None r in
    let r := set_last_message_time None r in
    let r := set_current_file (Some (mkMidiFile TICKS_PER_BEAT)) r in
    let r := set_current_track (Some [set_tempo DEFAULT_TEMPO 0]) r in
    let r := set_recording true r in
    set_in_low_power false r.

(** [process_midi_message] *)
Definition process_midi_message (msg : Message) (msg_timestamp : Q)
    (r : MidiRecorder) : MidiRecorder :=
  if MsgType_eqb (type msg) clock || MsgType_eqb (type msg) active_sensing then r
  else
    let (t, r) := read_clock time_time r in
    let r := set_last_activity (Some t) r in
    let r := if negb (recording r)
             then set_first_message_time (Some msg_timestamp) (start_recording r)
             else r in
    let r := if in_low_power r then exit_low_power_mode r else r in
    let (handled, r) := handle_shortcuts msg msg_timestamp r in
    if negb handled then write_message msg msg_timestamp r else r.

(** The [while not self.message_queue.empty()] loop of
    [process_message_queue].  A pass takes one entry off the queue and
    the processing of an entry adds none, so [fuel] equal to the length
    of the queue is enough ([process_queue_loop_fuel]). *)
Fixpoint process_queue_loop (fuel : nat) (messages_processed : Z)
    (r : MidiRecorder) : Z * MidiRecorder :=
  match fuel with
  | O => (messages_processed, r)
  | S fuel' =>
      match message_queue r with
      | [] => (messages_processed, r)
      | (msg, timestamp) :: rest =>
          let r := set_message_queue rest r in
          let r := process_midi_message msg timestamp r in
          process_queue_loop fuel' (messages_processed + 1) r
      end
  end.

(** [process_message_queue] *)
Definition process_message_queue (r : MidiRecorder) : Z * MidiRecorder :=
  process_queue_loop (List.length (message_queue r)) 0 r.

(** [stop_recording] *)
Definition stop_recording (suffix : string) (skip_queue skip_buffer : bool)
    (r : MidiRecorder) : MidiRecorder :=
  stop_recording_body (fun r => snd (process_message_queue r))
    suffix skip_queue skip_buffer r.

(** [check_session_timeout] *)
Definition check_session_timeout (r : MidiRecorder) : MidiRecorder :=
  if recording r && truthy (last_activity r) then
    match last_activity r with
    | Some a =>
        let (now, r) := read_clock time_time r in
        if Qgtb (now - a) SESSION_TIMEOUT then
          enter_low_power_mode (stop_recording EmptyString false false r)
        else r
    | None => r
    end
  else r.

(** [signal_handler], up to [sys.exit]. *)
Definition signal_handler (r : MidiRecorder) : MidiRecorder :=
  stop_recording EmptyString false false r.

(** One pass of the [while self.running] loop of [run]; the local
    [last_queue_check] is passed in and returned.  The [time.sleep] at
    the end of the pass shows only in later clock reads. *)
Definition run_iteration (last_queue_check : Q) (r : MidiRecorder)
  : Q * MidiRecorder :=
  let (current_time, r) := read_clock perf_counter r in
  let r := snd (process_message_queue r) in
  if Qgtb (current_time - last_queue_check) 1 then
    (current_time, check_session_timeout r)
  else (last_queue_check, r).

(** ** The process

    What can happen to a recorder: the input thread delivers a message,
    [run] reads the clock before its loop, the loop makes a pass, or a
    signal arrives.  A message can also be delivered between the two
    statements of a pass, after the queue was drained and before the
    timeout check; [TimeoutCheck] is the check of such a pass. *)
Inductive Action :=
| Callback (msg : Message)
| StartLoop
| Iteration
| TimeoutCheck
| Signal.

Definition exec (s : Q * MidiRecorder) (a : Action) : Q * MidiRecorder :=
  match a with
  | Callback msg => (fst s, midi_callback msg (snd s))
  | StartLoop => read_clock perf_counter (snd s)
  | Iteration => run_iteration (fst s) (snd s)
  | TimeoutCheck => (fst s, check_session_timeout (snd s))
  | Signal => (fst s, signal_handler (snd s))
  end.

Definition run (acts : list Action) : Q * MidiRecorder :=
  fold_left exec acts (0%Q, init).

(** Messages handed to [process_midi_message] one after the other. *)
Definition process_all (evs : list (Message * Q)) (r : MidiRecorder) : MidiRecorder :=
  fold_left (fun acc ev => process_midi_message (fst ev) (snd ev) acc) evs r.

(** The statements of [process_midi_message] between its first [return]
    and the call of [handle_shortcuts]. *)
Definition prepare (msg_timestamp : Q) (r : MidiRecorder) : MidiRecorder :=
  let (t, r) := read_clock time_time r in
  let r := set_last_activity (Some t) r in
  let r := if negb (recording r)
           then set_first_message_time (Some msg_timestamp) (start_recording r)
           else r in
  if in_low_power r then exit_low_power_mode r else r.

(** ** Vocabulary of the statements *)

(** The entries [write_message] appends for the events [evs], written one
    after the other, when the previous write was at [last]. *)
Fixpoint stamp (last : option Q) (evs : list (Message * Q)) : list TrackEntry :=
  match evs with
  | [] => []
  | (m, ts) :: rest => midi (with_time (delta_ticks last ts) m) :: stamp (Some ts) rest
  end.

(** The value of [last_message_time] after those writes. *)
Fixpoint last_stamp (last : option Q) (evs : list (Message * Q)) : option Q :=
  match evs with
  | [] => last
  | (_, ts) :: rest => last_stamp (Some ts) rest
  end.

(** The [time] attribute of a track entry. *)
Definition entry_time (e : TrackEntry) : Z :=
  match e with
  | set_tempo _ t => t
  | midi m => time m
  end.

(** Sum of the deltas of a list of entries. *)
Definition total_ticks (es : list TrackEntry) : Z :=
  fold_right (fun e acc => entry_time e + acc) 0 es.

(** Ticks converted back to seconds at the fixed tempo: the inverse of
    the scaling [TICKS_PER_BEAT * beats_per_second] of [write_message]. *)
Definition seconds_of_ticks (d : Z) : Q :=
  inject_Z d / (inject_Z TICKS_PER_BEAT * beats_per_second).

(** [msg.type in ['clock', 'active_sensing']] *)
Definition ignored (m : Message) : bool :=
  MsgType_eqb (type m) clock || MsgType_eqb (type m) active_sensing.

(** [msg.type in ['note_on', 'note_off']] *)
Definition is_note (m : Message) : bool :=
  MsgType_eqb (type m) note_on || MsgType_eqb (type m) note_off.

(** A note message on the reserved note [w]. *)
Definition on_reserved (w : Which) (m : Message) : bool :=
  is_note m && (note m =? note_of w).

(** A message the shortcut loop does not return on. *)
Definition unrelated (m : Message) : bool :=
  negb (on_reserved Low m) && negb (on_reserved High m).

(** The track, file and previous time stamp the next accepted message
    meets: those of the running session, or those [start_recording]
    sets up when no session runs. *)
Definition session_track (r : MidiRecorder) : option MidiTrack :=
  if recording r then current_track r else Some [set_tempo DEFAULT_TEMPO 0].

Definition session_file (r : MidiRecorder) : option MidiFile :=
  if recording r then current_file r else Some (mkMidiFile TICKS_PER_BEAT).

Definition session_last (r : MidiRecorder) : option Q :=
  if recording r then last_message_time r else None.

(** A well-formed track: the tempo entry, then messages with
    non-negative deltas, the first of which is 0. *)
Definition track_ok (tr : MidiTrack) : Prop :=
  exists rest,
    tr = set_tempo DEFAULT_TEMPO 0 :: rest
    /\ Forall (fun e => 0 <= entry_time e) rest
    /\ match rest with
       | [] => True
       | e :: _ => entry_time e = 0
       end.

(** A tap that is the first of its buffer or comes within the timeout
    of the previous one. *)
Definition in_time (ts : Q) (s : ShortcutState) : Prop :=
  count s <= 0 \/ (ts - last_time s <= SHORTCUT_TIMEOUT)%Q.

(** A running session as one reserved note sees it: the file and track
    of the session, the previous time stamp, the files saved so far, the
    state of the note [w] and the state of the other reserved note. *)
Definition opened (w : Which) (f : MidiFile) (tr : MidiTrack) (last : option Q)
    (sv : list SavedFile) (s o : ShortcutState) (r : MidiRecorder) : Prop :=
  recording r = true
  /\ current_file r = Some f
  /\ current_track r = Some tr
  /\ last_message_time r = last
  /\ saved_files r = sv
  /\ get_state w r = s
  /\ get_state (other_note w) r = o.

(** The same for the session the next accepted message meets. *)
Definition pending (w : Which) (f : MidiFile) (tr : MidiTrack) (last : option Q)
    (sv : list SavedFile) (s o : ShortcutState) (r : MidiRecorder) : Prop :=
  session_file r = Some f
  /\ session_track r = Some tr
  /\ session_last r = last
  /\ saved_files r = sv
  /\ get_state w r = s
  /\ get_state (other_note w) r = o.

(** [msg] is a [note_on] on the reserved note [w]. *)
Definition is_tap (w : Which) (m : Message) : Prop :=
  type m = note_on /\ note m = note_of w.

(** [msg] is a [note_off] on the reserved note [w]. *)
Definition is_release (w : Which) (m : Message) : Prop :=
  type m = note_off /\ note m = note_of w.

(** The events a closing [if state['count'] > 0: self.flush_buffer(state)]
    of [handle_shortcuts] writes for the reserved note [w]. *)
Definition counted_buffer (w : Which) (r : MidiRecorder) : list (Message * Q) :=
  if 0 <? count (get_state w r) then buffer (get_state w r) else [].

(** The state of [w] after that statement. *)
Definition counted_state (w : Which) (r : MidiRecorder) : ShortcutState :=
  if 0 <? count (get_state w r) then empty_shortcut else get_state w r.

(** The callbacks of a run deliver [clock] and [active_sensing]
    messages only. *)
Definition only_ignored (acts : list Action) : Prop :=
  Forall (fun a => match a with
                   | Callback m => ignored m = true
                   | _ => True
                   end) acts.

(** A recorder that has never left the idle state. *)
Definition never_started (r : MidiRecorder) : Prop :=
  recording r = false
  /\ last_activity r = None
  /\ current_file r = None
  /\ current_track r = None
  /\ in_low_power r = false
  /\ saved_files r = []
  /\ governor_log r = []
  /\ low_note_state r = empty_shortcut
  /\ high_note_state r = empty_shortcut
  /\ Forall (fun e => ignored (fst e) = true) (message_queue r).

(** The invariant of the tracks: the track of the session and the track
    of every file saved are well formed, and a track that holds the
    tempo entry only has no previous time stamp. *)
Definition committed_ok (r : MidiRecorder) : Prop :=
  (forall tr,
      current_track r = Some tr ->
      track_ok tr /\ (List.length tr = 1%nat -> last_message_time r = None))
  /\ Forall (fun sf => track_ok (saved_track sf)) (saved_files r).

(** [current_file] and [current_track] are set together. *)
Definition aligned (r : MidiRecorder) : Prop :=
  current_file r = None <-> current_track r = None.

(** Time stamps [t0 < t1 < ... < tn]. *)
Fixpoint increasing (ts : list Q) : Prop :=
  match ts with
  | a :: (b :: _) as rest => (a < b)%Q /\ increasing rest
  | _ => True
  end.

(** [msg] with another velocity. *)
Definition with_velocity (v : Z) (m : Message) : Message :=
  mkMessage (type m) (note m) v (time m).

(** A shortcut state and a recorder with the velocities of the buffered
    messages blanked. *)
Definition forget_velocity (s : ShortcutState) : ShortcutState :=
  mkShortcut (count s)
    (map (fun e => (with_velocity 0 (fst e), snd e)) (buffer s))
    (last_time s).

Definition velocity_blind (r : MidiRecorder) : MidiRecorder :=
  set_high_note_state (forget_velocity (high_note_state r))
    (set_low_note_state (forget_velocity (low_note_state r)) r).



(** Sample inputs: a clock that advances ten seconds with every read,
    and note messages. *)
Definition sample_clock (k : nat) : Q := inject_Z (1700000000 + 10 * Z.of_nat k).

Definition sample_on (n : Z) : Message := mkMessage note_on n 64 0.

Definition sample_off (n : Z) : Message := mkMessage note_off n 0 0.

(** A recorder that holds a track is not in low-power mode. *)
Definition awake (r : MidiRecorder) : Prop :=
  current_track r <> None -> in_low_power r = false.

(** [msg] is a [note_on] on one of the two reserved notes. *)
Definition is_tap_msg (m : Message) : bool :=
  MsgType_eqb (type m) note_on
  && ((note m =? LOW_BLACK_NOTE) || (note m =? HIGH_BLACK_NOTE)).

(** Messages delivered by the input thread one after the other. *)
Definition deliver (msgs : list Message) (r : MidiRecorder) : MidiRecorder :=
  fold_left (fun acc m => midi_callback m acc) msgs r.

(** The messages with the readings of [perf_counter] from read [k] on. *)
Fixpoint stamped_from (k : nat) (msgs : list Message) : list (Message * Q) :=
  match msgs with
  | [] => []
  | m :: rest => (m, perf_counter k) :: stamped_from (S k) rest
  end.

(** The low-power flag and the commands sent to the governor. *)
Definition power_state (r : MidiRecorder) : bool * list Governor :=
  (in_low_power r, governor_log r).

(** A shortcut state in step with its buffer: the buffer holds note
    messages of the reserved note [w] only, and the count is the number
    of [note_on] among them, at most 2. *)
Definition buffer_ok (w : Which) (s : ShortcutState) : Prop :=
  Forall (fun e => on_reserved w (fst e) = true) (buffer s)
  /\ count s =
     Z.of_nat (List.length
                 (filter (fun e => MsgType_eqb (type (fst e)) note_on) (buffer s)))
  /\ count s <= 2.

Definition buffers_ok (r : MidiRecorder) : Prop :=
  forall w, buffer_ok w (get_state w r).

(** A recorder with what it keeps of its clock reads blanked: the
    activity time stamp, the start time of the session and the read
    counter. *)
Definition clock_free (r : MidiRecorder) : MidiRecorder :=
  set_reads 0 (set_session_start_time None (set_last_activity None r)).

(** What the monitor keeps true: an open port is the one named by
    [current_port_name], and every port opened had the three letters in
    its name. *)
Definition monitor_ok (st : PortMonitor) : Prop :=
  (forall p, midi_port st = Some p ->
             current_port_name st = Some p /\ has_pia p = true)
  /\ Forall (fun p => has_pia p = true) (opened_ports st).

(** The calendar fields [datetime.now()] can hold, for years of four
    digits. *)
Definition valid_time (now : DateTime) : Prop :=
  1000 <= year now <= 9999
  /\ 1 <= month now <= 12
  /\ 1 <= day now <= 31
  /\ 0 <= hour now <= 23
  /\ 0 <= minute now <= 59
  /\ 0 <= second now <= 59.

(** A string without a dot. *)
Fixpoint no_dot (s : string) : bool :=
  match s with
  | EmptyString => true
  | String c s' => negb (Ascii.eqb c ".") && no_dot s'
  end.

(** The file name of a session stopped at [now] with suffix [sfx]. *)
Definition session_file_name (now : DateTime) (sfx : string) : string :=
  ("session_" ++ pad2 (hour now) ++ pad2 (minute now) ++ pad2 (second now)
   ++ sfx ++ ".mid")%string.

(** The directory of the sessions of the day of [now]. *)
Definition session_dir (now : DateTime) : Path :=
  BASE_DIR ++ [pad4 (year now);
               (pad2 (month now) ++ "-" ++ month_name (month now))%string;
               pad2 (day now)].

(** Every command sent to the governor so far was powersave. *)
Definition powersave_only (r : MidiRecorder) : Prop :=
  Forall (fun g => g = powersave) (governor_log r).

(** A recorder out of low-power mode that never sent ondemand. *)
Definition quiet (r : MidiRecorder) : Prop :=
  in_low_power r = false /\ powersave_only r.

(** A recorder that is not in low-power mode while [recording] is true
    and that never sent ondemand. *)
Definition governed (r : MidiRecorder) : Prop :=
  (recording r = true -> in_low_power r = false) /\ powersave_only r.

(** A run in which no message is delivered between the drain of the
    queue and the timeout check of a pass. *)
Definition checks_in_pass (acts : list Action) : Prop :=
  Forall (fun a => a <> TimeoutCheck) acts.

(** Every binary64 number is a multiple of [2^-1074]. *)
Definition on_grid (x : Q) : Prop :=
  exists k : Z, (x == inject_Z k * pow2 (-1074))%Q.

(** A binary64 number: rounding leaves it as it is. *)
Definition is_double (x : Q) : Prop := (round64 x == x)%Q.

(** The bound on the relative error of one rounding, and a bound on
    that of the three roundings of [write_message] together. *)
Definition unit_roundoff : Q := pow2 (-53).

Definition rounding_slack : Q := pow2 (-51).

(** The exact product of [write_message]: the ticks in the interval
    from [prev] to [cur] as a rational. *)
Definition exact_ticks (prev cur : Q) : Q :=
  ((cur - prev) * inject_Z TICKS_PER_BEAT
   * (inject_Z 1000000 / inject_Z DEFAULT_TEMPO))%Q.

(** The same product computed by the reference implementation of
    binary64 of the Standard Library, on floats given by an integer
    mantissa and an exponent. *)
Definition binary64 (m e : Z) : SpecFloat.spec_float :=
  SpecFloat.binary_normalize 53 1024 m e false.

Definition SF2Q (f : SpecFloat.spec_float) : Q :=
  match f with
  | SpecFloat.S754_finite s m e =>
      (inject_Z (if s then Z.neg m else Z.pos m) * pow2 e)%Q
  | _ => 0%Q
  end.

Definition reference_product (prev cur : SpecFloat.spec_float) : Q :=
  SF2Q (SpecFloat.SFmul 53 1024
          (SpecFloat.SFmul 53 1024 (SpecFloat.SFsub 53 1024 cur prev)
             (binary64 TICKS_PER_BEAT 0))
          (SpecFloat.SFdiv 53 1024 (binary64 1000000 0)
             (binary64 DEFAULT_TEMPO 0))).

Definition model_product (prev cur : SpecFloat.spec_float) : Q :=
  round64 (round64 (round64 (SF2Q cur - SF2Q prev) * inject_Z TICKS_PER_BEAT)
           * beats_per_second).

(** Pairs of time stamps, as mantissa and exponent: 8.0 and
    9.080208333333333; 64.00000000000001 and 192.01250000000002; 0.1 and
    1.1; a pair in the wrong order; subnormal numbers; an interval whose
    product by 480 lies halfway between two floats; 1.0 and the float
    nearest to 4/3. *)
Definition sample_stamps : list ((Z * Z) * (Z * Z)) :=
  [((8, 0), (5111702858305809, -49));
   ((4503599627370497, -46), (6755839245706855, -45));
   ((7205759403792794, -56), (4953959590107546, -52));
   ((5111702858305809, -49), (8, 0));
   ((1, -1074), (3, -1074));
   ((3, -1074), (4503599627370497, -1074));
   ((0, 0), (4803839602528536, -52));
   ((1, 0), (6004799503160661, -52))].

(** An idle recorder in low-power mode that holds the governor log
    [gl] and the saved files [sv], with nothing but [clock] and
    [active_sensing] messages queued. *)
Definition idle_low_power (gl : list Governor) (sv : list SavedFile)
    (r : MidiRecorder) : Prop :=
  recording r = false
  /\ in_low_power r = true
  /\ governor_log r = gl
  /\ saved_files r = sv
  /\ Forall (fun e => ignored (fst e) = true) (message_queue r).

(** ** Arithmetic *)

Lemma Qgtb_true (a b : Q) : Qgtb a b = true <-> (b < a)%Q.
Proof.
  unfold Qgtb. rewrite negb_true_iff. split; intro H.
  - apply Qnot_le_lt. intro Hle. apply Qle_bool_iff in Hle. congruence.
  - destruct (Qle_bool a b) eqn:E; [|reflexivity].
    apply Qle_bool_iff in E. exfalso. exact (Qlt_not_le _ _ H E).
Qed.

Lemma Qgtb_false (a b : Q) : Qgtb a b = false <-> (a <= b)%Q.
Proof.
  unfold Qgtb. rewrite negb_false_iff. apply Qle_bool_iff.
Qed.

Lemma int_of_float_nonneg (x : Q) :
  (0 <= x)%Q -> int_of_float x = Qfloor x.
Proof.
  destruct x as [n d]. unfold Qle, int_of_float, Qfloor. simpl. intro H.
  apply Z.quot_div_nonneg; lia.
Qed.

Lemma int_of_float_neg (x : Q) :
  (x < 0)%Q -> int_of_float x <= 0 /\ Qfloor x < 0.
Proof.
  destruct x as [n d]. unfold Qlt, int_of_float, Qfloor. simpl. intro H.
  split.
  - apply Z.quot_le_upper_bound; lia.
  - apply Z.div_lt_upper_bound; lia.
Qed.

Lemma clamp_int_of_float (x : Q) :
  Z.max 0 (int_of_float x) = Z.max 0 (Qfloor x).
Proof.
  destruct (Qlt_le_dec x 0) as [H | H].
  - destruct (int_of_float_neg x H). lia.
  - now rewrite int_of_float_nonneg.
Qed.

(** ** Rounding to binary64 *)

Lemma pow2_pos (e : Z) : (0 < pow2 e)%Q.
Proof. apply Qpower_0_lt. reflexivity. Qed.

Lemma pow2_add (a b : Z) : (pow2 (a + b) == pow2 a * pow2 b)%Q.
Proof. apply Qpower_plus. discriminate. Qed.

Lemma pow2_Z (c : Z) : 0 <= c -> (pow2 c == inject_Z (2 ^ c))%Q.
Proof. intro H. unfold pow2. now rewrite (Zpower_Qpower 2 c H). Qed.

Lemma pow2_le (a b : Z) : a <= b -> (pow2 a <= pow2 b)%Q.
Proof. intro H. apply Qpower_le_compat_l; [exact H | discriminate]. Qed.

Lemma pow2_lt (a b : Z) : a < b -> (pow2 a < pow2 b)%Q.
Proof. intro H. apply Qpower_lt_compat_l; [exact H | reflexivity]. Qed.

Lemma pow2_lt_inv (a b : Z) : (pow2 a < pow2 b)%Q -> a < b.
Proof. intro H. apply (Qpower_lt_compat_l_inv 2); [exact H | reflexivity]. Qed.

Lemma pow2_split (a b : Z) : (pow2 a == pow2 (a - b) * pow2 b)%Q.
Proof. rewrite <- pow2_add. now replace (a - b + b) with a by lia. Qed.


Lemma Q_as_fraction (x : Q) :
  (x * inject_Z (Z.pos (Qden x)) == inject_Z (Qnum x))%Q.
Proof.
  destruct x as [n d]. unfold Qeq, Qmult, inject_Z. simpl. lia.
Qed.

Lemma ilog2_spec (x : Q) :
  (0 < x)%Q -> (pow2 (ilog2 x) <= x)%Q /\ (x < pow2 (ilog2 x + 1))%Q.
Proof.
  intro Hx.
  assert (Hn : 0 < Qnum x).
  { destruct x as [n d]. unfold Qlt in Hx. simpl in *. lia. }
  pose proof (Z.log2_spec (Qnum x) Hn) as [A1 A2].
  pose proof (Z.log2_spec (Z.pos (Qden x)) (Pos2Z.is_pos _)) as [B1 B2].
  pose proof (Z.log2_nonneg (Qnum x)) as Ha.
  pose proof (Z.log2_nonneg (Z.pos (Qden x))) as Hb.
  unfold Z.succ in *.
  set (a := Z.log2 (Qnum x)) in *. set (b := Z.log2 (Z.pos (Qden x))) in *.
  pose proof (Q_as_fraction x) as F.
  rewrite Zle_Qle in A1, B1. rewrite Zlt_Qlt in A2, B2.
  rewrite <- pow2_Z in A1, A2, B1, B2 by lia.
  pose proof (pow2_pos b) as Pb. pose proof (pow2_pos (a - b)) as Pk.
  pose proof (pow2_pos (a - b - 1)) as Pk'.
  pose proof (pow2_split a b) as S1.
  pose proof (pow2_split (a + 1) b) as S2.
  pose proof (pow2_split a (b + 1)) as S3.
  assert (HD : (0 < inject_Z (Z.pos (Qden x)))%Q) by reflexivity.
  unfold ilog2. fold a b.
  destruct (Qle_bool (pow2 (a - b)) x) eqn:E.
  - apply Qle_bool_iff in E. split; [exact E|].
    replace (a - b + 1) with (a + 1 - b) by lia.
    pose proof (pow2_pos (a + 1 - b)) as Pk1.
    revert F A2 B1 S2 Pb Pk1 HD Hx.
    generalize (inject_Z (Z.pos (Qden x))) (inject_Z (Qnum x))
               (pow2 (a + 1)) (pow2 b) (pow2 (a + 1 - b)).
    intros D N A' B K F A2 B1 S2 Pb Pk1 HD Hx.
    apply Qnot_le_lt. intro C. nra.
  - assert (E' : (x < pow2 (a - b))%Q).
    { apply Qnot_le_lt. intro C. apply Qle_bool_iff in C. congruence. }
    split.
    + replace (a - b - 1) with (a - (b + 1)) in * by lia.
      pose proof (pow2_pos (a - (b + 1))) as Pk2.
      revert F A1 B2 S3 Pk2 HD Hx.
      generalize (inject_Z (Z.pos (Qden x))) (inject_Z (Qnum x))
                 (pow2 a) (pow2 (b + 1)) (pow2 (a - (b + 1))).
      intros D N A' B K F A1 B2 S3 Pk2 HD Hx.
      apply Qnot_lt_le. intro C. nra.
    + now replace (a - b - 1 + 1) with (a - b) by lia.
Qed.

Lemma ilog2_bounds (x : Q) (k : Z) :
  (0 < x)%Q -> (pow2 k <= x)%Q -> k <= ilog2 x.
Proof.
  intros Hx Hk. destruct (ilog2_spec x Hx) as [_ U].
  pose proof (pow2_lt_inv k (ilog2 x + 1) (Qle_lt_trans _ _ _ Hk U)). lia.
Qed.

Lemma ilog2_below (x : Q) (k : Z) :
  (0 < x)%Q -> (x < pow2 k)%Q -> ilog2 x < k.
Proof.
  intros Hx Hk. destruct (ilog2_spec x Hx) as [L _].
  exact (pow2_lt_inv _ _ (Qle_lt_trans _ _ _ L Hk)).
Qed.

Lemma ilog2_mono (x y : Q) :
  (0 < x)%Q -> (x <= y)%Q -> ilog2 x <= ilog2 y.
Proof.
  intros Hx Hxy. destruct (ilog2_spec x Hx) as [L _].
  apply ilog2_bounds; [exact (Qlt_le_trans _ _ _ Hx Hxy)|].
  exact (Qle_trans _ _ _ L Hxy).
Qed.

(** [rne] is within a half of its argument, fixes the integers and is
    monotone. *)
Lemma rne_comp (y y' : Q) : (y == y')%Q -> rne y = rne y'.
Proof.
  intro H. unfold rne. rewrite (Qfloor_comp _ _ H).
  assert (E : (y - inject_Z (Qfloor y') ?= 1 # 2)%Q
              = (y' - inject_Z (Qfloor y') ?= 1 # 2)%Q).
  { apply Qcompare_comp; [now rewrite H | reflexivity]. }
  now rewrite E.
Qed.

Lemma rne_cases (y : Q) :
  (rne y = Qfloor y /\ (y - inject_Z (Qfloor y) <= 1 # 2)%Q)
  \/ (rne y = Qfloor y + 1 /\ (1 # 2 <= y - inject_Z (Qfloor y))%Q).
Proof.
  unfold rne. destruct (Qcompare_spec (y - inject_Z (Qfloor y)) (1 # 2)) as [E|E|E].
  - destruct (Z.even (Qfloor y)); [left | right]; (split; [reflexivity|]);
      rewrite E; apply Qle_refl.
  - left. split; [reflexivity | now apply Qlt_le_weak].
  - right. split; [reflexivity | now apply Qlt_le_weak].
Qed.

Lemma rne_bounds (y : Q) :
  (inject_Z (rne y) - (1 # 2) <= y)%Q /\ (y <= inject_Z (rne y) + (1 # 2))%Q.
Proof.
  pose proof (Qfloor_le y) as L. pose proof (Qlt_floor y) as U.
  rewrite inject_Z_plus in U. change (inject_Z 1) with 1%Q in U.
  destruct (rne_cases y) as [[-> H] | [-> H]].
  - split; lra.
  - rewrite inject_Z_plus. change (inject_Z 1) with 1%Q. split; lra.
Qed.

Lemma rne_inject (k : Z) : rne (inject_Z k) = k.
Proof.
  unfold rne. rewrite Qfloor_Z.
  assert (E : (inject_Z k - inject_Z k ?= 1 # 2)%Q = Lt).
  { apply (proj1 (Qlt_alt _ _)). generalize (inject_Z k). intro q. lra. }
  now rewrite E.
Qed.

Lemma rne_mono (y y' : Q) : (y <= y')%Q -> rne y <= rne y'.
Proof.
  intro H. pose proof (Qfloor_resp_le _ _ H) as Hf.
  destruct (Z.eq_dec (Qfloor y) (Qfloor y')) as [E | N].
  - unfold rne. rewrite E.
    destruct (Qcompare_spec (y - inject_Z (Qfloor y')) (1 # 2)) as [A|A|A];
      destruct (Qcompare_spec (y' - inject_Z (Qfloor y')) (1 # 2)) as [B|B|B];
      try destruct (Z.even (Qfloor y')); try lia; exfalso; lra.
  - assert (Hlt : Qfloor y + 1 <= Qfloor y') by lia.
    destruct (rne_cases y) as [[-> _] | [-> _]];
      destruct (rne_cases y') as [[-> _] | [-> _]]; lia.
Qed.

(** Rounding a positive number: the error is at most half a unit in
    the last place, and none on a subnormal multiple of [2^-1074]. *)
Lemma ulp_exponent_ge (x : Q) : -1074 <= ulp_exponent x.
Proof. unfold ulp_exponent. lia. Qed.

Lemma round_pos_error (x : Q) :
  let e := ulp_exponent x in
  (x - pow2 e * (1 # 2) <= round_pos x)%Q
  /\ (round_pos x <= x + pow2 e * (1 # 2))%Q.
Proof.
  intro e. unfold round_pos. fold e.
  pose proof (pow2_pos e) as P.
  destruct (rne_bounds (x / pow2 e)) as [L U].
  assert (Hq : (x == x / pow2 e * pow2 e)%Q).
  { field. intro C. rewrite C in P. discriminate P. }
  revert L U Hq. generalize (inject_Z (rne (x / pow2 e))) (x / pow2 e)%Q.
  revert P. generalize (pow2 e). intros p P m q L U Hq.
  split; nra.
Qed.

Lemma round_pos_grid (x : Q) : on_grid (round_pos x).
Proof.
  unfold round_pos. set (e := ulp_exponent x).
  pose proof (ulp_exponent_ge x) as He. fold e in He.
  exists (rne (x / pow2 e) * 2 ^ (e + 1074)).
  generalize (rne (x / pow2 e)). intro m.
  rewrite inject_Z_mult, <- pow2_Z by lia.
  rewrite (pow2_split e (-1074)).
  replace (e - -1074) with (e + 1074) by lia. ring.
Qed.

Lemma round_pos_exact (x : Q) :
  (0 < x)%Q -> on_grid x -> ilog2 x - 52 <= -1074 -> (round_pos x == x)%Q.
Proof.
  intros Hx [k Hk] He. unfold round_pos, ulp_exponent.
  rewrite Z.max_r by exact He.
  pose proof (pow2_pos (-1074)) as P.
  assert (Hq : (x / pow2 (-1074) == inject_Z k)%Q).
  { rewrite Hk. field. intro C. rewrite C in P. discriminate P. }
  rewrite (rne_comp _ _ Hq), rne_inject. now rewrite Hk.
Qed.

Lemma round_pos_relative (x : Q) :
  (0 < x)%Q -> on_grid x ->
  (x * (1 - unit_roundoff) <= round_pos x)%Q
  /\ (round_pos x <= x * (1 + unit_roundoff))%Q.
Proof.
  intros Hx Hg.
  assert (Hu : (0 < unit_roundoff)%Q) by apply pow2_pos.
  destruct (Z_le_gt_dec (ilog2 x - 52) (-1074)) as [He | He].
  - rewrite (round_pos_exact x Hx Hg He). split; nra.
  - destruct (round_pos_error x) as [L U]. unfold ulp_exponent in L, U.
    rewrite Z.max_l in L, U by lia.
    destruct (ilog2_spec x Hx) as [B _].
    assert (S : (pow2 (ilog2 x - 52) * (1 # 2)
                 == pow2 (ilog2 x) * unit_roundoff)%Q).
    { unfold unit_roundoff.
      replace (ilog2 x - 52) with (ilog2 x + -52) by lia.
      rewrite pow2_add.
      assert (E : (pow2 (-52) * (1 # 2) == pow2 (-53))%Q) by reflexivity.
      rewrite <- E. ring. }
    rewrite S in L, U.
    revert L U B Hu. generalize (round_pos x) (pow2 (ilog2 x)) unit_roundoff.
    intros r b u L U B Hu. split; nra.
Qed.

Lemma round_pos_nonneg (x : Q) : (0 < x)%Q -> (0 <= round_pos x)%Q.
Proof.
  intro Hx. unfold round_pos. set (e := ulp_exponent x).
  pose proof (pow2_pos e) as P.
  assert (Hq : (0 <= x / pow2 e)%Q).
  { apply Qle_shift_div_l; [exact P | lra]. }
  pose proof (rne_mono _ _ Hq) as Hm.
  change (rne 0%Q) with (rne (inject_Z 0)) in Hm. rewrite rne_inject in Hm.
  rewrite Zle_Qle in Hm. change (inject_Z 0) with 0%Q in Hm.
  revert Hm. generalize (inject_Z (rne (x / pow2 e))). intros m Hm. nra.
Qed.

Lemma round_pos_le_pow2 (x : Q) (c : Z) :
  (x <= pow2 c)%Q -> ulp_exponent x <= c -> (round_pos x <= pow2 c)%Q.
Proof.
  intros Hx He. unfold round_pos. set (e := ulp_exponent x) in *.
  pose proof (pow2_pos e) as P.
  assert (Hq : (x / pow2 e <= inject_Z (2 ^ (c - e)))%Q).
  { rewrite <- pow2_Z by lia. apply Qle_shift_div_r; [exact P|].
    now rewrite <- pow2_split. }
  pose proof (rne_mono _ _ Hq) as Hm. rewrite rne_inject in Hm.
  rewrite Zle_Qle in Hm. rewrite <- pow2_Z in Hm by lia.
  pose proof (pow2_split c e) as S.
  revert Hm S. generalize (inject_Z (rne (x / pow2 e))) (pow2 (c - e)) (pow2 c).
  revert P. generalize (pow2 e). intros p P m k b Hm S. nra.
Qed.

Lemma round_pos_ge_pow2 (x : Q) (c : Z) :
  (pow2 c <= x)%Q -> ulp_exponent x <= c -> (pow2 c <= round_pos x)%Q.
Proof.
  intros Hx He. unfold round_pos. set (e := ulp_exponent x) in *.
  pose proof (pow2_pos e) as P.
  assert (Hq : (inject_Z (2 ^ (c - e)) <= x / pow2 e)%Q).
  { rewrite <- pow2_Z by lia. apply Qle_shift_div_l; [exact P|].
    now rewrite <- pow2_split. }
  pose proof (rne_mono _ _ Hq) as Hm. rewrite rne_inject in Hm.
  rewrite Zle_Qle in Hm. rewrite <- pow2_Z in Hm by lia.
  pose proof (pow2_split c e) as S.
  revert Hm S. generalize (inject_Z (rne (x / pow2 e))) (pow2 (c - e)) (pow2 c).
  revert P. generalize (pow2 e). intros p P m k b Hm S. nra.
Qed.

Lemma round_pos_mono (x y : Q) :
  (0 < x)%Q -> (x <= y)%Q -> (round_pos x <= round_pos y)%Q.
Proof.
  intros Hx Hxy.
  assert (Hy : (0 < y)%Q) by exact (Qlt_le_trans _ _ _ Hx Hxy).
  pose proof (ilog2_mono x y Hx Hxy) as Hk.
  destruct (Z.eq_dec (ulp_exponent x) (ulp_exponent y)) as [E | N].
  - unfold round_pos. rewrite E. set (e := ulp_exponent y).
    pose proof (pow2_pos e) as P.
    assert (Hq : (x / pow2 e <= y / pow2 e)%Q).
    { apply Qle_shift_div_l; [exact P|].
      assert (F : (x / pow2 e * pow2 e == x)%Q).
      { field. intro C. rewrite C in P. discriminate P. }
      now rewrite F. }
    pose proof (rne_mono _ _ Hq) as Hm. rewrite Zle_Qle in Hm.
    revert Hm. generalize (inject_Z (rne (x / pow2 e)))
                          (inject_Z (rne (y / pow2 e))).
    revert P. generalize (pow2 e). intros p P m m' Hm. nra.
  - destruct (ilog2_spec x Hx) as [_ Ux]. destruct (ilog2_spec y Hy) as [Ly _].
    unfold ulp_exponent in N.
    assert (Hlt : ilog2 x + 1 <= ilog2 y) by lia.
    apply (Qle_trans _ (pow2 (ilog2 y))).
    + apply round_pos_le_pow2.
      * apply Qlt_le_weak. apply (Qlt_le_trans _ _ _ Ux). now apply pow2_le.
      * unfold ulp_exponent. lia.
    + apply round_pos_ge_pow2; [exact Ly|]. unfold ulp_exponent. lia.
Qed.

(** [round64]: monotone, sign preserving, onto multiples of
    [2^-1074], with relative error at most [2^-53] on such a multiple. *)
Lemma round64_comp (x y : Q) : (x == y)%Q -> round64 x = round64 y.
Proof. intro H. unfold round64. now rewrite (Qred_complete _ _ H). Qed.

Lemma Qnum_sign (x : Q) :
  match Qnum x with
  | 0 => (x == 0)%Q
  | Z.pos _ => (0 < x)%Q
  | Z.neg _ => (x < 0)%Q
  end.
Proof.
  destruct x as [[|p|p] d]; unfold Qeq, Qlt; simpl; lia.
Qed.

Lemma round64_cases (x : Q) :
  ((x == 0)%Q /\ round64 x = 0%Q)
  \/ ((0 < x)%Q /\ exists x', (x' == x)%Q /\ round64 x = round_pos x')
  \/ ((x < 0)%Q /\ exists x', (x' == - x)%Q /\ round64 x = (- round_pos x')%Q).
Proof.
  unfold round64. pose proof (Qred_correct x) as R.
  pose proof (Qnum_sign (Qred x)) as S.
  destruct (Qnum (Qred x)).
  - left. split; [now rewrite <- R | reflexivity].
  - right. left. split; [now rewrite <- R|]. now exists (Qred x).
  - right. right. split; [now rewrite <- R|].
    exists (- Qred x)%Q. split; [now rewrite R | reflexivity].
Qed.

Lemma round64_0 : round64 0 = 0%Q.
Proof. reflexivity. Qed.

Lemma round64_nonneg (x : Q) : (0 <= x)%Q -> (0 <= round64 x)%Q.
Proof.
  intro H. destruct (round64_cases x) as [[_ ->] | [[Hx (x' & E & ->)] | [Hx _]]].
  - apply Qle_refl.
  - apply round_pos_nonneg. now rewrite E.
  - exfalso. lra.
Qed.

Lemma round64_nonpos (x : Q) : (x <= 0)%Q -> (round64 x <= 0)%Q.
Proof.
  intro H. destruct (round64_cases x) as [[_ ->] | [[Hx _] | [Hx (x' & E & ->)]]].
  - apply Qle_refl.
  - exfalso. lra.
  - assert (P : (0 < x')%Q) by (rewrite E; lra).
    pose proof (round_pos_nonneg x' P). lra.
Qed.

Lemma round64_mono (x y : Q) : (x <= y)%Q -> (round64 x <= round64 y)%Q.
Proof.
  intro H.
  destruct (Qlt_le_dec x 0) as [Hx | Hx]; destruct (Qlt_le_dec y 0) as [Hy | Hy].
  - destruct (round64_cases x) as [[C _] | [[C _] | [_ (x' & Ex & ->)]]];
      [exfalso; lra | exfalso; lra |].
    destruct (round64_cases y) as [[C _] | [[C _] | [_ (y' & Ey & ->)]]];
      [exfalso; lra | exfalso; lra |].
    assert (M : (round_pos y' <= round_pos x')%Q).
    { apply round_pos_mono; rewrite Ey; [|rewrite Ex]; lra. }
    lra.
  - pose proof (round64_nonpos x (Qlt_le_weak _ _ Hx)).
    pose proof (round64_nonneg y Hy). lra.
  - exfalso. lra.
  - destruct (round64_cases x) as [[_ ->] | [[Px (x' & Ex & ->)] | [C _]]];
      [now apply round64_nonneg | | exfalso; lra].
    destruct (round64_cases y) as [[C _] | [[_ (y' & Ey & ->)] | [C _]]];
      [exfalso; lra | | exfalso; lra].
    apply round_pos_mono; rewrite Ex; [|rewrite Ey]; lra.
Qed.

Lemma on_grid_comp (x y : Q) : (x == y)%Q -> on_grid x -> on_grid y.
Proof. intros E [k Hk]. exists k. now rewrite <- E. Qed.

Lemma on_grid_opp (x : Q) : on_grid x -> on_grid (- x).
Proof.
  intros [k Hk]. exists (- k). rewrite Hk, inject_Z_opp. ring.
Qed.

Lemma on_grid_minus (x y : Q) : on_grid x -> on_grid y -> on_grid (x - y).
Proof.
  intros [k Hk] [j Hj]. exists (k - j).
  rewrite Hk, Hj. unfold Z.sub. rewrite inject_Z_plus, inject_Z_opp. ring.
Qed.

Lemma on_grid_scale (x : Q) (n : Z) : on_grid x -> on_grid (x * inject_Z n).
Proof.
  intros [k Hk]. exists (k * n). rewrite Hk, inject_Z_mult. ring.
Qed.

Lemma round64_grid (x : Q) : on_grid (round64 x).
Proof.
  destruct (round64_cases x) as [[_ ->] | [[_ (x' & _ & ->)] | [_ (x' & _ & ->)]]].
  - exists 0. reflexivity.
  - apply round_pos_grid.
  - apply on_grid_opp, round_pos_grid.
Qed.

Lemma round64_relative (x : Q) :
  on_grid x -> (0 <= x)%Q ->
  (x * (1 - unit_roundoff) <= round64 x)%Q
  /\ (round64 x <= x * (1 + unit_roundoff))%Q.
Proof.
  intros Hg Hx.
  destruct (round64_cases x) as [[E ->] | [[Px (x' & E & ->)] | [C _]]].
  - rewrite E. split; apply Qle_lteq; right; ring.
  - rewrite <- E. apply round_pos_relative; [now rewrite E|].
    apply (on_grid_comp x); [now symmetry | exact Hg].
  - exfalso. lra.
Qed.

Lemma is_double_grid (x : Q) : is_double x -> on_grid x.
Proof. intro H. apply (on_grid_comp (round64 x)); [exact H | apply round64_grid]. Qed.

(** ** The tick delta *)

Lemma beats_per_second_value : (beats_per_second == 2)%Q.
Proof. vm_compute. reflexivity. Qed.

Lemma beats_per_second_pos : (0 <= beats_per_second)%Q.
Proof. rewrite beats_per_second_value. discriminate. Qed.

Lemma delta_ticks_nonneg (last : option Q) (ts : Q) : 0 <= delta_ticks last ts.
Proof. unfold delta_ticks. lia. Qed.

Lemma delta_ticks_None (ts : Q) : delta_ticks None ts = 0.
Proof. vm_compute. reflexivity. Qed.

Lemma delta_ticks_floor (prev cur : Q) :
  delta_ticks (Some prev) cur =
  Z.max 0 (Qfloor (round64 (round64 (round64 (cur - prev)
                                     * inject_Z TICKS_PER_BEAT)
                            * beats_per_second))).
Proof. unfold delta_ticks. apply clamp_int_of_float. Qed.

(** The two rounded multiplications are monotone. *)
Lemma scaled_mono (d d' : Q) :
  (d <= d')%Q ->
  (round64 (round64 (d * inject_Z TICKS_PER_BEAT) * beats_per_second)
   <= round64 (round64 (d' * inject_Z TICKS_PER_BEAT) * beats_per_second))%Q.
Proof.
  intro H. apply round64_mono.
  apply Qmult_le_compat_r; [|exact beats_per_second_pos].
  apply round64_mono. apply Qmult_le_compat_r; [exact H | discriminate].
Qed.

Lemma scaled_zero :
  round64 (round64 (0 * inject_Z TICKS_PER_BEAT) * beats_per_second) = 0%Q.
Proof. vm_compute. reflexivity. Qed.

Lemma delta_ticks_mono (a b cur : Q) :
  (a <= b)%Q -> delta_ticks (Some b) cur <= delta_ticks (Some a) cur.
Proof.
  intro Hab. rewrite !delta_ticks_floor.
  apply Z.max_le_compat_l, Qfloor_resp_le, scaled_mono, round64_mono. lra.
Qed.

Lemma delta_ticks_earlier (prev cur : Q) :
  (cur <= prev)%Q -> delta_ticks (Some prev) cur = 0.
Proof.
  intro H. rewrite delta_ticks_floor.
  assert (Hd : (round64 (cur - prev) <= 0)%Q) by (apply round64_nonpos; lra).
  pose proof (scaled_mono _ _ Hd) as Hs. rewrite scaled_zero in Hs.
  apply Qfloor_resp_le in Hs. change (Qfloor 0) with 0 in Hs. lia.
Qed.

(** The three roundings together: the rounded product is within the
    relative distance [2^-51] of the exact one. *)
Lemma scaled_relative (x : Q) :
  on_grid x -> (0 <= x)%Q ->
  let product :=
    round64 (round64 (round64 x * inject_Z TICKS_PER_BEAT) * beats_per_second) in
  (0 <= product)%Q
  /\ (x * 960 * (1 - rounding_slack) <= product)%Q
  /\ (product <= x * 960 * (1 + rounding_slack))%Q.
Proof.
  intros Hg Hx product. subst product.
  destruct (round64_relative x Hg Hx) as [L1 U1].
  pose proof (round64_nonneg x Hx) as N1.
  pose proof (round64_grid x) as G1.
  set (d := round64 x) in *.
  assert (N1' : (0 <= d * inject_Z TICKS_PER_BEAT)%Q).
  { apply Qmult_le_0_compat; [exact N1 | discriminate]. }
  destruct (round64_relative _ (on_grid_scale d TICKS_PER_BEAT G1) N1')
    as [L2 U2].
  pose proof (round64_nonneg _ N1') as N2.
  pose proof (round64_grid (d * inject_Z TICKS_PER_BEAT)) as G2.
  set (p := round64 (d * inject_Z TICKS_PER_BEAT)) in *.
  assert (E : (p * beats_per_second == p * inject_Z 2)%Q)
    by now rewrite beats_per_second_value.
  rewrite (round64_comp _ _ E).
  assert (N2' : (0 <= p * inject_Z 2)%Q).
  { apply Qmult_le_0_compat; [exact N2 | discriminate]. }
  destruct (round64_relative _ (on_grid_scale p 2 G2) N2') as [L3 U3].
  pose proof (round64_nonneg _ N2') as N3.
  assert (Hu : (unit_roundoff == 1 # 9007199254740992)%Q) by reflexivity.
  assert (Hs : (rounding_slack == 1 # 2251799813685248)%Q) by reflexivity.
  rewrite Hu in L1, U1, L2, U2, L3, U3. rewrite Hs.
  change (inject_Z TICKS_PER_BEAT) with 480%Q in *.
  change (inject_Z 2) with 2%Q in *.
  revert L3 U3 N3. generalize (round64 (p * 2)). intros t L3 U3 N3.
  split; [exact N3|]. split; lra.
Qed.

(** One delta against the exact number of ticks in the interval. *)
Lemma delta_ticks_bounds (prev cur : Q) :
  is_double prev -> is_double cur -> (prev <= cur)%Q ->
  (inject_Z (delta_ticks (Some prev) cur)
   <= (cur - prev) * 960 * (1 + rounding_slack))%Q
  /\ ((cur - prev) * 960 * (1 - rounding_slack)
      < inject_Z (delta_ticks (Some prev) cur) + 1)%Q.
Proof.
  intros Hp Hc H. rewrite delta_ticks_floor.
  assert (Hg : on_grid (cur - prev))
    by (apply on_grid_minus; now apply is_double_grid).
  assert (Hx : (0 <= cur - prev)%Q) by lra.
  destruct (scaled_relative (cur - prev) Hg Hx) as (N & L & U).
  cbv zeta in N, L, U.
  set (t := round64 (round64 (round64 (cur - prev) * inject_Z TICKS_PER_BEAT)
                     * beats_per_second)) in *.
  assert (Hf : 0 <= Qfloor t).
  { change 0 with (Qfloor 0). now apply Qfloor_resp_le. }
  rewrite Z.max_r by exact Hf.
  pose proof (Qfloor_le t) as H1. pose proof (Qlt_floor t) as H2.
  rewrite inject_Z_plus in H2. change (inject_Z 1) with 1%Q in H2.
  revert H1 H2. generalize (inject_Z (Qfloor t)). intros f H1 H2.
  split; lra.
Qed.

Lemma exact_ticks_value (prev cur : Q) :
  (exact_ticks prev cur == (cur - prev) * 960)%Q.
Proof.
  unfold exact_ticks. change (inject_Z TICKS_PER_BEAT) with 480%Q.
  change (inject_Z 1000000 / inject_Z DEFAULT_TEMPO)%Q with (1000000 / 500000)%Q.
  field.
Qed.

(** Below [2^50] ticks the delta is the exact floor or next to it. *)
Lemma delta_ticks_near_floor (prev cur : Q) :
  is_double prev -> is_double cur -> (prev <= cur)%Q ->
  (exact_ticks prev cur < pow2 50)%Q ->
  Qfloor (exact_ticks prev cur) - 1 <= delta_ticks (Some prev) cur
  <= Qfloor (exact_ticks prev cur) + 1.
Proof.
  intros Hp Hc H Hb. destruct (delta_ticks_bounds prev cur Hp Hc H) as [U L].
  rewrite exact_ticks_value in Hb.
  rewrite (Qfloor_comp _ _ (exact_ticks_value prev cur)).
  pose proof (Qfloor_le ((cur - prev) * 960)) as F1.
  pose proof (Qlt_floor ((cur - prev) * 960)) as F2.
  rewrite inject_Z_plus in F2. change (inject_Z 1) with 1%Q in F2.
  assert (Hs : (rounding_slack == 1 # 2251799813685248)%Q) by reflexivity.
  assert (Hb' : (pow2 50 == 1125899906842624)%Q) by reflexivity.
  rewrite Hs in U, L. rewrite Hb' in Hb.
  assert (A : (inject_Z (delta_ticks (Some prev) cur)
               < inject_Z (Qfloor ((cur - prev) * 960) + 2))%Q).
  { rewrite inject_Z_plus. change (inject_Z 2) with 2%Q.
    revert U L F1 F2 Hb.
    generalize (inject_Z (delta_ticks (Some prev) cur))
               (inject_Z (Qfloor ((cur - prev) * 960))) ((cur - prev) * 960)%Q.
    intros d f x U L F1 F2 Hb. lra. }
  assert (B : (inject_Z (Qfloor ((cur - prev) * 960))
               < inject_Z (delta_ticks (Some prev) cur + 2))%Q).
  { rewrite inject_Z_plus. change (inject_Z 2) with 2%Q.
    revert U L F1 F2 Hb.
    generalize (inject_Z (delta_ticks (Some prev) cur))
               (inject_Z (Qfloor ((cur - prev) * 960))) ((cur - prev) * 960)%Q.
    intros d f x U L F1 F2 Hb. lra. }
  rewrite <- Zlt_Qlt in A, B. lia.
Qed.

(** On the sample time stamps the rounded product is the one the
    reference implementation of binary64 computes. *)
Lemma round64_agrees_with_reference :
  forallb (fun s => Qeq_bool
                      (model_product (binary64 (fst (fst s)) (snd (fst s)))
                                     (binary64 (fst (snd s)) (snd (snd s))))
                      (reference_product (binary64 (fst (fst s)) (snd (fst s)))
                                         (binary64 (fst (snd s)) (snd (snd s)))))
    sample_stamps = true.
Proof. vm_compute. reflexivity. Qed.

Lemma write_message_Some (m : Message) (ts : Q) (r : MidiRecorder) (tr : MidiTrack) :
  current_track r = Some tr ->
  write_message m ts r =
  set_last_message_time (Some ts)
    (set_current_track
       (Some (tr ++ [midi (with_time (delta_ticks (last_message_time r) ts) m)])) r).
Proof. intro H. unfold write_message. now rewrite H. Qed.

Lemma write_message_None (m : Message) (ts : Q) (r : MidiRecorder) :
  current_track r = None -> write_message m ts r = r.
Proof. intro H. unfold write_message. now rewrite H. Qed.

(** C2 (amended).  The tick delta [write_message] stamps on a message
    depends on the previous time stamp and the current one only.  It is
    0 when there is no previous time stamp.  Otherwise it is the floor,
    clamped below at 0, of the product
    [(cur - prev) * ticks_per_beat * (1000000 / tempo)] as binary64
    arithmetic computes it, every operation rounded to the nearest
    float; hence 0 when [cur] is not later than [prev].  For floats
    [prev <= cur] less than [2^50] ticks apart that is the floor of the
    exact product or one of its two neighbours. *)
Theorem tick_conversion :
  (forall cur, delta_ticks None cur = 0)
  /\ (forall prev cur,
         delta_ticks (Some prev) cur =
         Z.max 0 (Qfloor
                    (round64
                       (round64 (round64 (cur - prev) * inject_Z TICKS_PER_BEAT)
                        * round64 (inject_Z 1000000 / inject_Z DEFAULT_TEMPO)))))
  /\ (forall prev cur, (cur <= prev)%Q -> delta_ticks (Some prev) cur = 0)
  /\ (forall prev cur,
         is_double prev -> is_double cur -> (prev <= cur)%Q ->
         (exact_ticks prev cur < pow2 50)%Q ->
         Qfloor (exact_ticks prev cur) - 1 <= delta_ticks (Some prev) cur
         <= Qfloor (exact_ticks prev cur) + 1)
  /\ (forall r m ts tr,
         current_track r = Some tr ->
         current_track (write_message m ts r) =
         Some (tr ++ [midi (with_time (delta_ticks (last_message_time r) ts) m)])).
Proof.
  split; [exact delta_ticks_None|].
  split; [exact delta_ticks_floor|].
  split; [exact delta_ticks_earlier|].
  split; [exact delta_ticks_near_floor|].
  intros r m ts tr H. now rewrite (write_message_Some m ts r tr H).
Qed.

(** ** Writing and flushing *)

Lemma write_all_None (evs : list (Message * Q)) (r : MidiRecorder) :
  current_track r = None -> write_all evs r = r.
Proof.
  induction evs as [|[m ts] evs IH]; intro H; [reflexivity|].
  unfold write_all in *. simpl. rewrite (write_message_None m ts r H). now apply IH.
Qed.

Lemma write_all_Some (evs : list (Message * Q)) :
  forall (r : MidiRecorder) (tr : MidiTrack),
  current_track r = Some tr ->
  write_all evs r =
  set_last_message_time (last_stamp (last_message_time r) evs)
    (set_current_track (Some (tr ++ stamp (last_message_time r) evs)) r).
Proof.
  induction evs as [|[m ts] evs IH]; intros r tr H.
  - destruct r; simpl in *. rewrite app_nil_r. now subst.
  - unfold write_all in *. simpl fold_left.
    rewrite (write_message_Some m ts r tr H).
    erewrite IH by reflexivity.
    destruct r; simpl. now rewrite <- app_assoc.
Qed.

Lemma stamp_app (evs1 evs2 : list (Message * Q)) :
  forall last,
  stamp last (evs1 ++ evs2) = stamp last evs1 ++ stamp (last_stamp last evs1) evs2.
Proof.
  induction evs1 as [|[m ts] evs1 IH]; intro last; simpl; [reflexivity|].
  now rewrite IH.
Qed.

Lemma last_stamp_app (evs1 evs2 : list (Message * Q)) :
  forall last,
  last_stamp last (evs1 ++ evs2) = last_stamp (last_stamp last evs1) evs2.
Proof.
  induction evs1 as [|[m ts] evs1 IH]; intro last; simpl; [reflexivity|].
  now rewrite IH.
Qed.

Lemma get_set_state (w : Which) (s : ShortcutState) (r : MidiRecorder) :
  get_state w (set_state w s r) = s.
Proof. now destruct w. Qed.

Lemma get_set_other (w : Which) (s : ShortcutState) (r : MidiRecorder) :
  get_state (other_note w) (set_state w s r) = get_state (other_note w) r.
Proof. now destruct w. Qed.

(** What [flush_buffer] does to a recorder that holds a track. *)
Lemma flush_buffer_Some (w : Which) (r : MidiRecorder) (tr : MidiTrack) :
  current_track r = Some tr ->
  flush_buffer w r =
  set_state w empty_shortcut
    (set_last_message_time
       (last_stamp (last_message_time r) (buffer (get_state w r)))
       (set_current_track
          (Some (tr ++ stamp (last_message_time r) (buffer (get_state w r)))) r)).
Proof.
  intro H. unfold flush_buffer. now rewrite (write_all_Some _ r tr H).
Qed.

Lemma flush_buffer_None (w : Which) (r : MidiRecorder) :
  current_track r = None -> flush_buffer w r = set_state w empty_shortcut r.
Proof.
  intro H. unfold flush_buffer. now rewrite (write_all_None _ r H).
Qed.

(** ** The shortcut detector, case by case *)

Lemma handle_shortcuts_reserved (w : Which) (m : Message) (ts : Q) (r : MidiRecorder) :
  on_reserved w m = true ->
  handle_shortcuts m ts r = shortcut_body w m ts r.
Proof.
  unfold on_reserved, is_note, handle_shortcuts. intro H.
  apply andb_true_iff in H. destruct H as [Hn Hw]. rewrite Hn.
  apply Z.eqb_eq in Hw. simpl. rewrite Hw. now destruct w.
Qed.

Lemma handle_shortcuts_unrelated (m : Message) (ts : Q) (r : MidiRecorder) :
  unrelated m = true ->
  handle_shortcuts m ts r = (false, flush_counted High (flush_counted Low r)).
Proof.
  unfold unrelated, on_reserved, is_note, handle_shortcuts. intro H.
  destruct (MsgType_eqb (type m) note_on || MsgType_eqb (type m) note_off);
    [|reflexivity].
  simpl in *.
  destruct (note m =? LOW_BLACK_NOTE); [discriminate|].
  destruct (note m =? HIGH_BLACK_NOTE); [discriminate|]. reflexivity.
Qed.

Lemma shortcut_body_off (w : Which) (m : Message) (ts : Q) (r : MidiRecorder) :
  type m = note_off ->
  shortcut_body w m ts r =
  (true,
   set_state w
     (mkShortcut (count (get_state w r))
        (buffer (get_state w r) ++ [(m, ts)]) (last_time (get_state w r))) r).
Proof. intro H. unfold shortcut_body. now rewrite H. Qed.

Lemma in_time_no_flush (ts : Q) (s : ShortcutState) :
  in_time ts s ->
  (0 <? count s) && Qgtb (ts - last_time s) SHORTCUT_TIMEOUT = false.
Proof.
  intros [H | H].
  - apply Z.ltb_ge in H. now rewrite H.
  - apply Qgtb_false in H. rewrite H. apply andb_false_r.
Qed.

Lemma shortcut_body_on (w : Which) (m : Message) (ts : Q) (r : MidiRecorder) :
  type m = note_on ->
  in_time ts (get_state w r) ->
  shortcut_body w m ts r =
  let r' :=
    set_state w
      (mkShortcut (count (get_state w r) + 1)
         (buffer (get_state w r) ++ [(m, ts)]) ts) r in
  if 3 <=? count (get_state w r) + 1 then
    (true,
     stop_recording_body (fun r => r) (suffix_of w) true true
       (set_message_queue [] r'))
  else (true, r').
Proof.
  intros H Hin. unfold shortcut_body. rewrite H. simpl MsgType_eqb.
  rewrite andb_true_l, (in_time_no_flush _ _ Hin). reflexivity.
Qed.

Lemma shortcut_body_stale (w : Which) (m : Message) (ts : Q) (r : MidiRecorder) :
  type m = note_on ->
  0 < count (get_state w r) ->
  (SHORTCUT_TIMEOUT < ts - last_time (get_state w r))%Q ->
  shortcut_body w m ts r =
  (true, set_state w (mkShortcut 1 [(m, ts)] ts) (flush_buffer w r)).
Proof.
  intros H Hc Ht. unfold shortcut_body. rewrite H. simpl MsgType_eqb.
  apply Z.ltb_lt in Hc. apply Qgtb_true in Ht. rewrite Hc, Ht. simpl andb.
  cbv iota.
  assert (E : get_state w (flush_buffer w r) = empty_shortcut).
  { unfold flush_buffer. apply get_set_state. }
  rewrite E. reflexivity.
Qed.

(** The stop of a running session that skips queue and buffers. *)
Lemma stop_skip (g : MidiRecorder -> MidiRecorder) (sfx : string)
    (r : MidiRecorder) (f : MidiFile) (tr : MidiTrack) :
  recording r = true ->
  current_file r = Some f ->
  current_track r = Some tr ->
  let q := stop_recording_body g sfx true true r in
  recording q = false
  /\ message_queue q = []
  /\ low_note_state q = empty_shortcut
  /\ high_note_state q = empty_shortcut
  /\ current_file q = None
  /\ current_track q = None
  /\ last_message_time q = last_message_time r
  /\ saved_files q =
     saved_files r ++
     (if (1 <? List.length tr)%nat
      then [mkSaved sfx (ticks_per_beat f) tr] else []).
Proof.
  intros Hr Hf Ht. unfold stop_recording_body. rewrite Hr. simpl.
  rewrite Hf, Ht.
  destruct (1 <? List.length tr)%nat; simpl; repeat split; auto.
  now rewrite app_nil_r.
Qed.

(** ** One message *)

Lemma process_midi_message_ignored (m : Message) (ts : Q) (r : MidiRecorder) :
  ignored m = true -> process_midi_message m ts r = r.
Proof.
  unfold ignored, process_midi_message. now intros ->.
Qed.

Lemma process_midi_message_prepare (m : Message) (ts : Q) (r : MidiRecorder) :
  ignored m = false ->
  process_midi_message m ts r =
  (if negb (fst (handle_shortcuts m ts (prepare ts r)))
   then write_message m ts (snd (handle_shortcuts m ts (prepare ts r)))
   else snd (handle_shortcuts m ts (prepare ts r))).
Proof.
  unfold ignored, process_midi_message, prepare.
  intros ->. simpl.
  now destruct (handle_shortcuts _ _ _).
Qed.

Lemma prepare_facts (ts : Q) (r : MidiRecorder) :
  recording (prepare ts r) = true
  /\ in_low_power (prepare ts r) = false
  /\ current_file (prepare ts r) = session_file r
  /\ current_track (prepare ts r) = session_track r
  /\ last_message_time (prepare ts r) = session_last r
  /\ low_note_state (prepare ts r) = low_note_state r
  /\ high_note_state (prepare ts r) = high_note_state r
  /\ saved_files (prepare ts r) = saved_files r
  /\ message_queue (prepare ts r) = message_queue r.
Proof.
  unfold prepare, session_file, session_track, session_last,
    start_recording, exit_low_power_mode.
  destruct r as [rec la cf ct sst fmt lmt lp q lo hi sv gl rd].
  destruct rec, lp; simpl; repeat split.
Qed.

Lemma prepare_get_state (w : Which) (ts : Q) (r : MidiRecorder) :
  get_state w (prepare ts r) = get_state w r.
Proof.
  destruct (prepare_facts ts r) as (_ & _ & _ & _ & _ & Hl & Hh & _).
  now destruct w.
Qed.

Lemma opened_pending w f tr last sv s o r :
  opened w f tr last sv s o r -> pending w f tr last sv s o r.
Proof.
  unfold opened, pending, session_file, session_track, session_last.
  intros (-> & H). tauto.
Qed.

Lemma pending_prepare w f tr last sv s o r ts :
  pending w f tr last sv s o r ->
  opened w f tr last sv s o (prepare ts r)
  /\ message_queue (prepare ts r) = message_queue r.
Proof.
  unfold opened, pending. intros (Hf & Ht & Hl & Hs & Hw & Ho).
  destruct (prepare_facts ts r) as (Hr & _ & Hf' & Ht' & Hl' & _ & _ & Hs' & Hq).
  rewrite !prepare_get_state. repeat split; congruence.
Qed.

Lemma opened_set_state w f tr last sv s s' o r :
  opened w f tr last sv s o r ->
  opened w f tr last sv s' o (set_state w s' r).
Proof.
  unfold opened. intros (Hr & Hf & Ht & Hl & Hs & Hw & Ho).
  rewrite get_set_state, get_set_other.
  destruct w; simpl; repeat split; assumption.
Qed.

Lemma tap_not_ignored w m : is_tap w m -> ignored m = false.
Proof. intros [H _]. unfold ignored. now rewrite H. Qed.

Lemma release_not_ignored w m : is_release w m -> ignored m = false.
Proof. intros [H _]. unfold ignored. now rewrite H. Qed.

Lemma tap_on_reserved w m : is_tap w m -> on_reserved w m = true.
Proof.
  intros [H1 H2]. unfold on_reserved, is_note. rewrite H1, H2.
  simpl. apply Z.eqb_refl.
Qed.

Lemma release_on_reserved w m : is_release w m -> on_reserved w m = true.
Proof.
  intros [H1 H2]. unfold on_reserved, is_note. rewrite H1, H2.
  simpl. apply Z.eqb_refl.
Qed.

(** A [note_off] on a reserved note is put in the buffer. *)
Lemma release_step w f tr last sv s o r m ts :
  pending w f tr last sv s o r ->
  is_release w m ->
  opened w f tr last sv
    (mkShortcut (count s) (buffer s ++ [(m, ts)]) (last_time s)) o
    (process_midi_message m ts r).
Proof.
  intros Hp Hm.
  rewrite (process_midi_message_prepare m ts r (release_not_ignored w m Hm)).
  rewrite (handle_shortcuts_reserved w m ts _ (release_on_reserved w m Hm)).
  rewrite (shortcut_body_off w m ts _ (proj1 Hm)). simpl.
  destruct (pending_prepare w f tr last sv s o r ts Hp) as [Ho _].
  pose proof Ho as (_ & _ & _ & _ & _ & Hw & _). rewrite Hw.
  now apply opened_set_state with (s := s).
Qed.

(** A tap in time that is not yet the third is put in the buffer and
    counted. *)
Lemma tap_step w f tr last sv s o r m ts :
  pending w f tr last sv s o r ->
  is_tap w m ->
  in_time ts s ->
  count s + 1 < 3 ->
  opened w f tr last sv
    (mkShortcut (count s + 1) (buffer s ++ [(m, ts)]) ts) o
    (process_midi_message m ts r).
Proof.
  intros Hp Hm Hin Hc.
  rewrite (process_midi_message_prepare m ts r (tap_not_ignored w m Hm)).
  rewrite (handle_shortcuts_reserved w m ts _ (tap_on_reserved w m Hm)).
  destruct (pending_prepare w f tr last sv s o r ts Hp) as [Ho _].
  pose proof Ho as (_ & _ & _ & _ & _ & Hw & _).
  rewrite (shortcut_body_on w m ts _ (proj1 Hm)) by now rewrite Hw.
  rewrite Hw. cbv zeta.
  apply Z.leb_gt in Hc. rewrite Hc. simpl.
  now apply opened_set_state with (s := s).
Qed.

(** The third tap in time stops the session; the file, when one is
    saved, holds the track as it was. *)
Lemma trigger_step w f tr last sv s o r m ts :
  pending w f tr last sv s o r ->
  is_tap w m ->
  in_time ts s ->
  3 <= count s + 1 ->
  let r' := process_midi_message m ts r in
  recording r' = false
  /\ message_queue r' = []
  /\ low_note_state r' = empty_shortcut
  /\ high_note_state r' = empty_shortcut
  /\ current_file r' = None
  /\ current_track r' = None
  /\ saved_files r' =
     sv ++ (if (1 <? List.length tr)%nat
            then [mkSaved (suffix_of w) (ticks_per_beat f) tr] else []).
Proof.
  intros Hp Hm Hin Hc r'. subst r'.
  rewrite (process_midi_message_prepare m ts r (tap_not_ignored w m Hm)).
  rewrite (handle_shortcuts_reserved w m ts _ (tap_on_reserved w m Hm)).
  destruct (pending_prepare w f tr last sv s o r ts Hp) as [Ho _].
  pose proof Ho as (_ & _ & _ & _ & _ & Hw & _).
  rewrite (shortcut_body_on w m ts _ (proj1 Hm)) by now rewrite Hw.
  rewrite Hw. cbv zeta.
  apply Z.leb_le in Hc. rewrite Hc. simpl fst. simpl snd. simpl negb. cbv iota.
  set (s' := mkShortcut (count s + 1) (buffer s ++ [(m, ts)]) ts).
  pose proof (opened_set_state w f tr last sv s s' o _ Ho)
    as (Hr & Hf & Ht & _ & Hs & _).
  destruct (stop_skip (fun r => r) (suffix_of w)
              (set_message_queue [] (set_state w s' (prepare ts r))) f tr)
    as (A1 & A2 & A3 & A4 & A5 & A6 & _ & A8); try assumption.
  rewrite A8. simpl saved_files. rewrite Hs. tauto.
Qed.

(** ** Events that interrupt a gesture *)

Lemma flush_counted_fields (w : Which) (r : MidiRecorder) (tr : MidiTrack) :
  current_track r = Some tr ->
  let r' := flush_counted w r in
  current_track r' =
    Some (tr ++ stamp (last_message_time r) (counted_buffer w r))
  /\ last_message_time r' =
     last_stamp (last_message_time r) (counted_buffer w r)
  /\ get_state w r' = counted_state w r
  /\ get_state (other_note w) r' = get_state (other_note w) r
  /\ recording r' = recording r
  /\ current_file r' = current_file r
  /\ saved_files r' = saved_files r
  /\ message_queue r' = message_queue r.
Proof.
  intros Ht r'. subst r'.
  unfold flush_counted, counted_buffer, counted_state.
  destruct (0 <? count (get_state w r)).
  - rewrite (flush_buffer_Some w r tr Ht).
    rewrite get_set_state, get_set_other.
    destruct w; simpl; repeat split.
  - simpl. rewrite app_nil_r. repeat split. assumption.
Qed.

Lemma flush_both_fields (r : MidiRecorder) (tr : MidiTrack) :
  current_track r = Some tr ->
  let r' := flush_counted High (flush_counted Low r) in
  current_track r' =
    Some (tr ++ stamp (last_message_time r)
                  (counted_buffer Low r ++ counted_buffer High r))
  /\ last_message_time r' =
     last_stamp (last_message_time r)
       (counted_buffer Low r ++ counted_buffer High r)
  /\ (forall w, get_state w r' = counted_state w r)
  /\ recording r' = recording r
  /\ current_file r' = current_file r
  /\ saved_files r' = saved_files r
  /\ message_queue r' = message_queue r.
Proof.
  intros Ht r'. subst r'.
  destruct (flush_counted_fields Low r tr Ht)
    as (L1 & L2 & L3 & L4 & L5 & L6 & L7 & L8).
  destruct (flush_counted_fields High (flush_counted Low r) _ L1)
    as (H1 & H2 & H3 & H4 & H5 & H6 & H7 & H8).
  simpl other_note in *.
  assert (E : counted_buffer High (flush_counted Low r) = counted_buffer High r).
  { unfold counted_buffer. now rewrite L4. }
  assert (E' : counted_state High (flush_counted Low r) = counted_state High r).
  { unfold counted_state. now rewrite L4. }
  rewrite E in *. rewrite E' in *. rewrite L2 in *.
  repeat split; try congruence.
  - rewrite H1, stamp_app, app_assoc. reflexivity.
  - rewrite H2, last_stamp_app. reflexivity.
  - intros [|]; [now rewrite H4 | assumption].
Qed.

Lemma unrelated_not_reserved (w : Which) (m : Message) :
  unrelated m = true -> on_reserved w m = false.
Proof.
  unfold unrelated. intro H. apply andb_true_iff in H.
  destruct H as [H1 H2]. apply negb_true_iff in H1, H2. now destruct w.
Qed.


(** ** Sequences of messages *)

Lemma process_all_app (evs1 evs2 : list (Message * Q)) (r : MidiRecorder) :
  process_all (evs1 ++ evs2) r = process_all evs2 (process_all evs1 r).
Proof. unfold process_all. apply fold_left_app. Qed.

Lemma process_all_cons (e : Message * Q) (evs : list (Message * Q)) (r : MidiRecorder) :
  process_all (e :: evs) r = process_all evs (process_midi_message (fst e) (snd e) r).
Proof. reflexivity. Qed.

Lemma releases_steps w f tr last sv o (offs : list (Message * Q)) :
  forall s r,
  pending w f tr last sv s o r ->
  Forall (fun e => is_release w (fst e)) offs ->
  pending w f tr last sv
    (mkShortcut (count s) (buffer s ++ offs) (last_time s)) o
    (process_all offs r).
Proof.
  induction offs as [|[m ts] offs IH]; intros s r Hp Hall.
  - rewrite app_nil_r. now destruct s.
  - inversion Hall as [|e l Hm Hl]; subst. simpl in Hm.
    rewrite process_all_cons. simpl fst. simpl snd.
    pose proof (opened_pending _ _ _ _ _ _ _ _
                  (release_step w f tr last sv s o r m ts Hp Hm)) as Hp'.
    specialize (IH _ _ Hp' Hl). simpl in IH.
    now rewrite <- app_assoc in IH.
Qed.

(** Two taps in time with releases between and after them: everything
    waits in the buffer, which counts 2. *)
Lemma two_taps_pending w f tr last sv s o r m1 t1 offs1 m2 t2 offs2 :
  pending w f tr last sv s o r ->
  count s = 0 ->
  is_tap w m1 -> is_tap w m2 ->
  Forall (fun e => is_release w (fst e)) offs1 ->
  Forall (fun e => is_release w (fst e)) offs2 ->
  (t2 - t1 <= SHORTCUT_TIMEOUT)%Q ->
  pending w f tr last sv
    (mkShortcut 2 (buffer s ++ (m1, t1) :: offs1 ++ (m2, t2) :: offs2) t2) o
    (process_all ((m1, t1) :: offs1 ++ (m2, t2) :: offs2) r).
Proof.
  intros Hp Hc H1 H2 Ho1 Ho2 Ht.
  rewrite process_all_cons, process_all_app, process_all_cons.
  simpl fst. simpl snd.
  assert (Hin1 : in_time t1 s) by (left; lia).
  pose proof (opened_pending _ _ _ _ _ _ _ _
    (tap_step w f tr last sv s o r m1 t1 Hp H1 Hin1 ltac:(lia))) as P1.
  pose proof (releases_steps w f tr last sv o offs1 _ _ P1 Ho1) as P2.
  simpl in P2.
  pose proof (opened_pending _ _ _ _ _ _ _ _
    (tap_step w f tr last sv _ o _ m2 t2 P2 H2 ltac:(right; exact Ht)
       ltac:(simpl; lia))) as P3.
  simpl in P3.
  pose proof (releases_steps w f tr last sv o offs2 _ _ P3 Ho2) as P4.
  simpl in P4. rewrite Hc in P4. simpl in P4.
  replace (buffer s ++ (m1, t1) :: offs1 ++ (m2, t2) :: offs2)
    with ((((buffer s ++ [(m1, t1)]) ++ offs1) ++ [(m2, t2)]) ++ offs2).
  - exact P4.
  - rewrite <- !app_assoc. reflexivity.
Qed.

(** C1 (amended).  Three taps on a reserved note, each within the
    shortcut timeout of the previous one and with any releases of that
    note between them, stop the session, reset both shortcut states and
    clear the queue.  When the track held an event besides the tempo
    entry, one file is saved: it has no suffix for the low note and the
    suffix -bookmark for the high note, and its track is the track as it
    was before the first tap, so neither the taps nor the releases are
    in it.  When the track held the tempo entry only, no file is saved. *)
Theorem three_taps_force_stop w r f tr m1 t1 offs1 m2 t2 offs2 m3 t3 :
  session_file r = Some f ->
  session_track r = Some tr ->
  count (get_state w r) = 0 ->
  is_tap w m1 -> is_tap w m2 -> is_tap w m3 ->
  Forall (fun e => is_release w (fst e)) offs1 ->
  Forall (fun e => is_release w (fst e)) offs2 ->
  (t2 - t1 <= SHORTCUT_TIMEOUT)%Q ->
  (t3 - t2 <= SHORTCUT_TIMEOUT)%Q ->
  let r' := process_all ((m1, t1) :: offs1 ++ (m2, t2) :: offs2 ++ [(m3, t3)]) r in
  recording r' = false
  /\ current_track r' = None
  /\ message_queue r' = []
  /\ low_note_state r' = empty_shortcut
  /\ high_note_state r' = empty_shortcut
  /\ saved_files r' =
     saved_files r ++
     (if (1 <? List.length tr)%nat
      then [mkSaved (suffix_of w) (ticks_per_beat f) tr] else [])
  /\ suffix_of Low = EmptyString
  /\ suffix_of High = "-bookmark"%string.
Proof.
  intros Hf Htr Hc H1 H2 H3 Ho1 Ho2 Ht12 Ht23 r'. subst r'.
  assert (Hp : pending w f tr (session_last r) (saved_files r)
                 (get_state w r) (get_state (other_note w) r) r)
    by (unfold pending; tauto).
  pose proof (two_taps_pending w f tr _ _ _ _ r m1 t1 offs1 m2 t2 offs2
                Hp Hc H1 H2 Ho1 Ho2 Ht12) as P.
  replace ((m1, t1) :: offs1 ++ (m2, t2) :: offs2 ++ [(m3, t3)])
    with (((m1, t1) :: offs1 ++ (m2, t2) :: offs2) ++ [(m3, t3)])
    by (simpl; rewrite <- app_assoc; reflexivity).
  rewrite process_all_app.
  destruct (trigger_step w f tr _ _ _ _ _ m3 t3 P H3
              ltac:(right; exact Ht23) ltac:(simpl; lia))
    as (A1 & A2 & A3 & A4 & A5 & A6 & A7).
  unfold process_all at 1. simpl fold_left. tauto.
Qed.

(** C10.  The third tap on one reserved note resets the shortcut state
    of both notes; what was waiting in the buffer of the other note is
    dropped with it: the file saved holds the track as it was before
    the tap, whatever the two buffers held. *)
Theorem trigger_discards_both_buffers w r f tr m ts :
  session_file r = Some f ->
  session_track r = Some tr ->
  is_tap w m ->
  2 <= count (get_state w r) ->
  (ts - last_time (get_state w r) <= SHORTCUT_TIMEOUT)%Q ->
  let r' := process_midi_message m ts r in
  low_note_state r' = empty_shortcut
  /\ high_note_state r' = empty_shortcut
  /\ recording r' = false
  /\ current_track r' = None
  /\ saved_files r' =
     saved_files r ++
     (if (1 <? List.length tr)%nat
      then [mkSaved (suffix_of w) (ticks_per_beat f) tr] else []).
Proof.
  intros Hf Htr Hm Hc Ht.
  assert (Hp : pending w f tr (session_last r) (saved_files r)
                 (get_state w r) (get_state (other_note w) r) r)
    by (unfold pending; tauto).
  destruct (trigger_step w f tr _ _ _ _ _ m ts Hp Hm
              ltac:(right; exact Ht) ltac:(lia))
    as (A1 & A2 & A3 & A4 & A5 & A6 & A7).
  simpl. tauto.
Qed.

(** ** Stopping with nothing queued *)

Lemma stamp_length (evs : list (Message * Q)) :
  forall last, List.length (stamp last evs) = List.length evs.
Proof.
  induction evs as [|[m ts] evs IH]; intro last; simpl; [reflexivity|].
  now rewrite IH.
Qed.

Lemma write_message_get_state (w : Which) (m : Message) (ts : Q) (r : MidiRecorder) :
  get_state w (write_message m ts r) = get_state w r.
Proof.
  unfold write_message. destruct (current_track r); [|reflexivity].
  now destruct w.
Qed.

Lemma write_all_get_state (w : Which) (evs : list (Message * Q)) :
  forall r, get_state w (write_all evs r) = get_state w r.
Proof.
  induction evs as [|[m ts] evs IH]; intro r; [reflexivity|].
  unfold write_all in *. simpl. rewrite IH. apply write_message_get_state.
Qed.

Lemma flush_counted_get_state (w : Which) (r : MidiRecorder) :
  get_state w (flush_counted w r) = counted_state w r
  /\ get_state (other_note w) (flush_counted w r) = get_state (other_note w) r.
Proof.
  unfold flush_counted, counted_state.
  destruct (0 <? count (get_state w r)); [|split; reflexivity].
  unfold flush_buffer. rewrite get_set_state, get_set_other.
  split; [reflexivity | apply write_all_get_state].
Qed.

Lemma flush_both_get_state (w : Which) (r : MidiRecorder) :
  get_state w (flush_counted High (flush_counted Low r)) = counted_state w r.
Proof.
  destruct (flush_counted_get_state Low r) as [L1 L2].
  destruct (flush_counted_get_state High (flush_counted Low r)) as [H1 H2].
  simpl other_note in *.
  destruct w.
  - now rewrite H2.
  - rewrite H1. unfold counted_state. now rewrite L2.
Qed.

Lemma process_message_queue_empty (r : MidiRecorder) :
  message_queue r = [] -> process_message_queue r = (0, r).
Proof. intro H. unfold process_message_queue. now rewrite H. Qed.

(** [stop_recording()] as the timeout check and the signal handler call
    it, on a running session with an empty queue: both buffers are
    written, then the file is saved. *)
Lemma stop_flush (sfx : string) (r : MidiRecorder) (f : MidiFile) (tr : MidiTrack) :
  recording r = true ->
  message_queue r = [] ->
  current_file r = Some f ->
  current_track r = Some tr ->
  let q := stop_recording sfx false false r in
  let tr' := tr ++ stamp (last_message_time r)
                     (buffer (low_note_state r) ++ buffer (high_note_state r)) in
  recording q = false
  /\ current_file q = None
  /\ current_track q = None
  /\ low_note_state q = empty_shortcut
  /\ high_note_state q = empty_shortcut
  /\ message_queue q = []
  /\ in_low_power q = in_low_power r
  /\ governor_log q = governor_log r
  /\ saved_files q =
     saved_files r ++
     (if (1 <? List.length tr')%nat
      then [mkSaved sfx (ticks_per_beat f) tr'] else []).
Proof.
  intros Hr Hq Hf Ht q tr'. subst q tr'.
  unfold stop_recording, stop_recording_body. rewrite Hr. simpl negb. cbv iota.
  rewrite (process_message_queue_empty (set_recording false r)) by exact Hq.
  simpl snd. unfold flush_shortcut_buffers.
  rewrite (flush_buffer_Some Low (set_recording false r) tr Ht).
  erewrite flush_buffer_Some by reflexivity.
  destruct r as [rec la cf ct sst fmt lmt lp mq lo hi sv gl rd].
  simpl in *. subst.
  rewrite stamp_app, app_assoc.
  destruct (1 <? _)%nat; simpl; repeat split. now rewrite app_nil_r.
Qed.


(** C3 (amended).  On a note message for a note that is not reserved,
    and on a message that is not a note, the detector reports
    not-handled and flushes into the track, in buffered order and the
    low note first, each reserved-note buffer whose tap count is
    positive; a buffer whose count is 0 (it can hold released notes
    only) is left as it is.  The caller then writes the message. *)
Theorem unrelated_event_flushes_counted m ts r :
  unrelated m = true ->
  handle_shortcuts m ts r = (false, flush_counted High (flush_counted Low r))
  /\ (forall w,
        get_state w (snd (handle_shortcuts m ts r)) =
        if 0 <? count (get_state w r) then empty_shortcut else get_state w r)
  /\ (forall tr,
        current_track r = Some tr ->
        current_track (snd (handle_shortcuts m ts r)) =
        Some (tr ++ stamp (last_message_time r)
                      ((if 0 <? count (low_note_state r)
                        then buffer (low_note_state r) else [])
                       ++ (if 0 <? count (high_note_state r)
                           then buffer (high_note_state r) else []))))
  /\ (ignored m = false ->
      process_midi_message m ts r =
      write_message m ts (flush_counted High (flush_counted Low (prepare ts r)))).
Proof.
  intro Hu. rewrite (handle_shortcuts_unrelated m ts r Hu). simpl snd.
  split; [reflexivity|]. split; [|split].
  - intro w. apply flush_both_get_state.
  - intros tr Ht.
    destruct (flush_both_fields r tr Ht) as (F1 & _). exact F1.
  - intro Hi. rewrite (process_midi_message_prepare m ts r Hi).
    now rewrite (handle_shortcuts_unrelated m ts _ Hu).
Qed.

(** ** Ignored kinds *)

Lemma process_queue_loop_ignored (fuel : nat) :
  forall n r,
  never_started r ->
  never_started (snd (process_queue_loop fuel n r)).
Proof.
  induction fuel as [|fuel IH]; intros n r H; [exact H|].
  simpl. destruct (message_queue r) as [|[m ts] rest] eqn:E; [exact H|].
  destruct H as (H1 & H2 & H3 & H4 & H5 & H6 & H7 & H8 & H9 & H10).
  rewrite E in H10. inversion H10 as [|e l Hm Hl]; subst. simpl in Hm.
  rewrite (process_midi_message_ignored m ts _ Hm).
  apply IH. unfold never_started. simpl. tauto.
Qed.

Lemma stop_recording_body_idle g sfx sq sb r :
  recording r = false -> stop_recording_body g sfx sq sb r = r.
Proof. intro H. unfold stop_recording_body. now rewrite H. Qed.

Lemma check_session_timeout_idle r :
  recording r = false -> check_session_timeout r = r.
Proof. intro H. unfold check_session_timeout. now rewrite H. Qed.

Lemma exec_never_started (s : Q * MidiRecorder) (a : Action) :
  match a with Callback m => ignored m = true | _ => True end ->
  never_started (snd s) ->
  never_started (snd (exec s a)).
Proof.
  destruct s as [lqc r]. simpl snd. intros Ha H.
  pose proof H as (H1 & H2 & H3 & H4 & H5 & H6 & H7 & H8 & H9 & H10).
  destruct a as [m| | | |]; simpl.
  - unfold never_started. simpl. repeat split; try assumption.
    apply Forall_app. split; [assumption|]. constructor; [exact Ha|constructor].
  - unfold never_started. simpl. tauto.
  - unfold run_iteration. simpl.
    set (r0 := set_reads (S (reads r)) r).
    assert (H0 : never_started r0) by (unfold never_started; simpl; tauto).
    pose proof (process_queue_loop_ignored (List.length (message_queue r)) 0 r0 H0)
      as Hq.
    unfold process_message_queue. simpl message_queue.
    destruct (Qgtb _ _); simpl snd; [|exact Hq].
    rewrite check_session_timeout_idle; [exact Hq | apply Hq].
  - now rewrite check_session_timeout_idle.
  - unfold signal_handler, stop_recording.
    now rewrite stop_recording_body_idle.
Qed.

Lemma run_never_started (acts : list Action) :
  forall s,
  only_ignored acts ->
  never_started (snd s) ->
  never_started (snd (fold_left exec acts s)).
Proof.
  induction acts as [|a acts IH]; intros s Hall H; [exact H|].
  inversion Hall as [|x l Ha Hl]; subst. simpl.
  apply IH; [exact Hl|]. now apply exec_never_started.
Qed.

(** C7.  A [clock] or [active_sensing] message leaves the recorder as
    it is: no session starts, the activity time stamp is not touched
    and nothing is written.  Hence a run whose callbacks deliver such
    messages only never records, never sets the activity time stamp
    and never saves a file. *)
Theorem ignored_kinds_change_nothing :
  (forall m ts r,
      type m = clock \/ type m = active_sensing ->
      process_midi_message m ts r = r)
  /\ (forall acts,
         only_ignored acts ->
         recording (snd (run acts)) = false
         /\ last_activity (snd (run acts)) = None
         /\ current_track (snd (run acts)) = None
         /\ saved_files (snd (run acts)) = []).
Proof.
  split.
  - intros m ts r H. apply process_midi_message_ignored.
    unfold ignored. destruct H as [-> | ->]; reflexivity.
  - intros acts Hall.
    assert (H0 : never_started (snd (0%Q, init)))
      by (unfold never_started; simpl; repeat split; constructor).
    pose proof (run_never_started acts _ Hall H0) as H.
    unfold run. unfold never_started in H. tauto.
Qed.

(** ** The timeout check *)

Lemma truthy_Some (a : Q) : ~ (a == 0)%Q -> truthy (Some a) = true.
Proof.
  intro H. unfold truthy. apply negb_true_iff.
  destruct (Qeq_bool a 0) eqn:E; [|reflexivity].
  apply Qeq_bool_iff in E. contradiction.
Qed.

Lemma check_session_timeout_waits r a :
  recording r = true ->
  last_activity r = Some a ->
  ~ (a == 0)%Q ->
  (time_time (reads r) - a <= SESSION_TIMEOUT)%Q ->
  check_session_timeout r = set_reads (S (reads r)) r.
Proof.
  intros Hr Hla Ha H. unfold check_session_timeout.
  rewrite Hr, Hla, (truthy_Some a Ha). simpl.
  apply Qgtb_false in H. now rewrite H.
Qed.

Lemma check_session_timeout_fires r a :
  recording r = true ->
  last_activity r = Some a ->
  ~ (a == 0)%Q ->
  (SESSION_TIMEOUT < time_time (reads r) - a)%Q ->
  check_session_timeout r =
  enter_low_power_mode
    (stop_recording EmptyString false false (set_reads (S (reads r)) r)).
Proof.
  intros Hr Hla Ha H. unfold check_session_timeout.
  rewrite Hr, Hla, (truthy_Some a Ha). simpl.
  apply Qgtb_true in H. now rewrite H.
Qed.

(** ** The loop pass on an idle session *)

Lemma set_message_queue_nil r :
  message_queue r = [] -> set_message_queue [] r = r.
Proof. destruct r. simpl. intros ->. reflexivity. Qed.

(** A queue of [clock] and [active_sensing] messages is drained and
    nothing else changes. *)
Lemma process_queue_loop_ignored_only (fuel : nat) :
  forall n r,
  Forall (fun e => ignored (fst e) = true) (message_queue r) ->
  (List.length (message_queue r) <= fuel)%nat ->
  snd (process_queue_loop fuel n r) = set_message_queue [] r.
Proof.
  induction fuel as [|fuel IH]; intros n r Hall Hlen.
  - destruct (message_queue r) eqn:E; [|simpl in Hlen; lia].
    simpl. now rewrite set_message_queue_nil.
  - simpl. destruct (message_queue r) as [|[m ts] rest] eqn:E.
    + simpl. now rewrite set_message_queue_nil.
    + inversion Hall as [|e l Hm Hl]; subst. simpl in Hm.
      rewrite (process_midi_message_ignored m ts _ Hm).
      rewrite (IH (n + 1) (set_message_queue rest r) Hl);
        [reflexivity | simpl in Hlen; simpl; lia].
Qed.

Lemma run_iteration_ignored_only (lqc : Q) (r : MidiRecorder) :
  Forall (fun e => ignored (fst e) = true) (message_queue r) ->
  run_iteration lqc r =
  if Qgtb (perf_counter (reads r) - lqc) 1
  then (perf_counter (reads r),
        check_session_timeout (set_message_queue [] (set_reads (S (reads r)) r)))
  else (lqc, set_message_queue [] (set_reads (S (reads r)) r)).
Proof.
  intro Hq. unfold run_iteration, read_clock, process_message_queue.
  rewrite process_queue_loop_ignored_only; [reflexivity | exact Hq | apply le_n].
Qed.

(** While the recorder is idle in low-power mode and nothing but
    [clock] and [active_sensing] messages arrive, nothing is recorded,
    saved or sent to the governor. *)
Lemma process_queue_loop_idle gl sv (fuel : nat) :
  forall n r,
  idle_low_power gl sv r ->
  idle_low_power gl sv (snd (process_queue_loop fuel n r)).
Proof.
  induction fuel as [|fuel IH]; intros n r H; [exact H|].
  simpl. destruct (message_queue r) as [|[m ts] rest] eqn:E; [exact H|].
  destruct H as (H1 & H2 & H3 & H4 & H5).
  rewrite E in H5. inversion H5 as [|e l Hm Hl]; subst. simpl in Hm.
  rewrite (process_midi_message_ignored m ts _ Hm).
  apply IH. unfold idle_low_power. simpl. tauto.
Qed.

Lemma exec_idle gl sv (s : Q * MidiRecorder) (a : Action) :
  match a with Callback m => ignored m = true | _ => True end ->
  idle_low_power gl sv (snd s) ->
  idle_low_power gl sv (snd (exec s a)).
Proof.
  destruct s as [lqc r]. simpl snd. intros Ha H.
  pose proof H as (H1 & H2 & H3 & H4 & H5).
  destruct a as [m| | | |]; simpl.
  - unfold idle_low_power. simpl. repeat split; try assumption.
    apply Forall_app. split; [assumption|]. constructor; [exact Ha|constructor].
  - unfold idle_low_power. simpl. tauto.
  - unfold run_iteration. simpl.
    set (r0 := set_reads (S (reads r)) r).
    assert (H0 : idle_low_power gl sv r0) by (unfold idle_low_power; simpl; tauto).
    pose proof (process_queue_loop_idle gl sv (List.length (message_queue r)) 0 r0 H0)
      as Hq.
    unfold process_message_queue. simpl message_queue.
    destruct (Qgtb _ _); simpl snd; [|exact Hq].
    rewrite check_session_timeout_idle; [exact Hq | apply Hq].
  - now rewrite check_session_timeout_idle.
  - unfold signal_handler, stop_recording.
    now rewrite stop_recording_body_idle.
Qed.

Lemma run_idle gl sv (acts : list Action) :
  forall s, only_ignored acts -> idle_low_power gl sv (snd s) ->
            idle_low_power gl sv (snd (fold_left exec acts s)).
Proof.
  induction acts as [|a acts IH]; intros s Ha H; [exact H|].
  inversion Ha as [|x l Hx Hl]; subst.
  simpl. apply IH; [exact Hl | now apply exec_idle].
Qed.

(** C8.  A pass of the loop of [run] over a running session with
    nothing queued but [clock] and [active_sensing] messages drains the
    queue and, when more than a second has passed since the last check,
    calls the timeout check.  If the last activity is then more than
    [SESSION_TIMEOUT] = 5 seconds old, the pass stops the session: the
    buffers are flushed, the file is saved and low-power mode is entered
    with one command to the governor.  Whatever passes, checks and
    signals follow while only [clock] and [active_sensing] messages
    arrive, the recorder stays stopped and in low-power mode and sends
    no further command.  Up to 5 seconds, and in a pass within a second
    of the last check, the session is left running. *)
Theorem idle_timeout_stops_once lqc r a f tr :
  recording r = true ->
  in_low_power r = false ->
  last_activity r = Some a ->
  ~ (a == 0)%Q ->
  current_file r = Some f ->
  current_track r = Some tr ->
  Forall (fun e => ignored (fst e) = true) (message_queue r) ->
  let current_time := perf_counter (reads r) in
  let now := time_time (S (reads r)) in
  let drained := set_message_queue [] (set_reads (S (reads r)) r) in
  ((current_time - lqc <= 1)%Q -> run_iteration lqc r = (lqc, drained))
  /\ ((1 < current_time - lqc)%Q ->
      (now - a <= SESSION_TIMEOUT)%Q ->
      run_iteration lqc r
      = (current_time, set_reads (S (S (reads r))) drained))
  /\ ((1 < current_time - lqc)%Q ->
      (SESSION_TIMEOUT < now - a)%Q ->
      let s1 := run_iteration lqc r in
      let r1 := snd s1 in
      let tr' := tr ++ stamp (last_message_time r)
                     (buffer (low_note_state r) ++ buffer (high_note_state r)) in
      fst s1 = current_time
      /\ recording r1 = false
      /\ saved_files r1 =
         saved_files r ++
         (if (1 <? List.length tr')%nat
          then [mkSaved EmptyString (ticks_per_beat f) tr'] else [])
      /\ in_low_power r1 = true
      /\ governor_log r1 = governor_log r ++ [powersave]
      /\ (forall acts,
            only_ignored acts ->
            let r2 := snd (fold_left exec acts s1) in
            recording r2 = false
            /\ in_low_power r2 = true
            /\ governor_log r2 = governor_log r1
            /\ saved_files r2 = saved_files r1)).
Proof.
  intros Hr Hlp Hla Ha Hf Ht Hq current_time now drained.
  pose proof (run_iteration_ignored_only lqc r Hq) as R.
  fold current_time drained in R.
  split; [|split].
  - intro H. apply Qgtb_false in H. now rewrite H in R.
  - intros H1 H2. apply Qgtb_true in H1. rewrite H1 in R. rewrite R.
    f_equal. now apply check_session_timeout_waits with (a := a).
  - intros H1 H2 s1 r1 tr'. subst s1 r1 tr'.
    apply Qgtb_true in H1. rewrite H1 in R. rewrite R. simpl fst. simpl snd.
    rewrite (check_session_timeout_fires drained a Hr Hla Ha H2).
    set (r0 := set_reads (S (reads drained)) drained).
    destruct (stop_flush EmptyString r0 f tr Hr eq_refl Hf Ht)
      as (S1 & S2 & S3 & S4 & S5 & S6 & S7 & S8 & S9).
    cbv zeta in S9. simpl in S7, S8, S9. rewrite Hlp in S7.
    set (q := stop_recording EmptyString false false r0) in *.
    assert (E : enter_low_power_mode q =
                set_governor_log (governor_log q ++ [powersave])
                  (set_in_low_power true q)).
    { unfold enter_low_power_mode. now rewrite S7. }
    rewrite E.
    set (r1 := set_governor_log (governor_log q ++ [powersave])
                 (set_in_low_power true q)).
    assert (G1 : governor_log r1 = governor_log r ++ [powersave])
      by (simpl; now rewrite S8).
    split; [reflexivity|]. split; [exact S1|]. split; [exact S9|].
    split; [reflexivity|]. split; [exact G1|].
    intros acts Hacts r2. subst r2.
    assert (I : idle_low_power (governor_log r1) (saved_files r1)
                  (snd (current_time, r1))).
    { unfold idle_low_power. simpl snd.
      split; [exact S1|]. split; [reflexivity|]. split; [reflexivity|].
      split; [reflexivity|].
      change (message_queue r1) with (message_queue q). rewrite S6. constructor. }
    pose proof (run_idle _ _ acts _ Hacts I) as (J1 & J2 & J3 & J4 & _).
    repeat split; assumption.
Qed.

(** ** The invariant of the tracks *)

Lemma committed_ok_ext (r r' : MidiRecorder) :
  current_track r' = current_track r ->
  last_message_time r' = last_message_time r ->
  saved_files r' = saved_files r ->
  committed_ok r -> committed_ok r'.
Proof.
  unfold committed_ok. intros -> -> ->. tauto.
Qed.

Lemma track_ok_snoc (tr : MidiTrack) (m : Message) (d : Z) :
  track_ok tr ->
  0 <= d ->
  (List.length tr = 1%nat -> d = 0) ->
  track_ok (tr ++ [midi (with_time d m)]).
Proof.
  intros (rest & -> & Hall & Hfirst) Hd H1.
  exists (rest ++ [midi (with_time d m)]). split; [reflexivity|]. split.
  - apply Forall_app. split; [exact Hall|]. constructor; [exact Hd|constructor].
  - destruct rest as [|e rest]; simpl; [now apply H1 | exact Hfirst].
Qed.

Lemma write_message_ok (m : Message) (ts : Q) (r : MidiRecorder) :
  committed_ok r -> committed_ok (write_message m ts r).
Proof.
  intros [Ht Hs]. unfold write_message.
  destruct (current_track r) as [tr|] eqn:E; [|split; [rewrite E|]; assumption].
  destruct (Ht tr eq_refl) as [Hok Hlen].
  split; [|exact Hs]. simpl. intros tr' [= <-]. split.
  - apply track_ok_snoc; [exact Hok | apply delta_ticks_nonneg|].
    intro H. now rewrite (Hlen H).
  - rewrite length_app. simpl. destruct Hok as (rest & -> & _). simpl. lia.
Qed.

Lemma write_all_ok (evs : list (Message * Q)) :
  forall r, committed_ok r -> committed_ok (write_all evs r).
Proof.
  induction evs as [|[m ts] evs IH]; intros r H; [exact H|].
  unfold write_all in *. simpl. apply IH. now apply write_message_ok.
Qed.

Lemma set_state_ok (w : Which) (s : ShortcutState) (r : MidiRecorder) :
  committed_ok r -> committed_ok (set_state w s r).
Proof. apply committed_ok_ext; now destruct w. Qed.

Lemma flush_buffer_ok (w : Which) (r : MidiRecorder) :
  committed_ok r -> committed_ok (flush_buffer w r).
Proof.
  intro H. unfold flush_buffer. apply set_state_ok. now apply write_all_ok.
Qed.

Lemma flush_counted_ok (w : Which) (r : MidiRecorder) :
  committed_ok r -> committed_ok (flush_counted w r).
Proof.
  intro H. unfold flush_counted.
  destruct (0 <? _); [now apply flush_buffer_ok | exact H].
Qed.

Lemma stop_recording_body_ok (g : MidiRecorder -> MidiRecorder) sfx sq sb r :
  (forall x, committed_ok x -> committed_ok (g x)) ->
  committed_ok r -> committed_ok (stop_recording_body g sfx sq sb r).
Proof.
  intros Hg H. unfold stop_recording_body.
  destruct (recording r); simpl; [|exact H].
  set (r1 := if sq then _ else _).
  assert (H1 : committed_ok r1).
  { subst r1. destruct sq; [|apply Hg]; revert H; now apply committed_ok_ext. }
  set (r2 := if negb sb then _ else _).
  assert (H2 : committed_ok r2).
  { subst r2. destruct sb; simpl.
    - revert H1. now apply committed_ok_ext.
    - unfold flush_shortcut_buffers. now apply flush_buffer_ok, flush_buffer_ok. }
  clearbody r2. clear r1 H1 H.
  split; [simpl; discriminate|]. simpl.
  destruct H2 as [Ht Hs].
  destruct (current_file r2); [|exact Hs].
  destruct (current_track r2) as [tr|]; [|exact Hs].
  destruct (1 <? List.length tr)%nat; [|exact Hs].
  simpl. apply Forall_app. split; [exact Hs|].
  constructor; [|constructor]. simpl. now apply Ht.
Qed.

Lemma shortcut_body_ok w m ts r :
  committed_ok r -> committed_ok (snd (shortcut_body w m ts r)).
Proof.
  intro H. unfold shortcut_body.
  match goal with
  | |- context [if ?c then flush_buffer w r else r] =>
      set (r1 := if c then flush_buffer w r else r)
  end.
  assert (H1 : committed_ok r1).
  { subst r1. destruct (_ && _); [now apply flush_buffer_ok | exact H]. }
  clearbody r1.
  destruct (MsgType_eqb (type m) note_on).
  - destruct (3 <=? _); simpl snd.
    + apply stop_recording_body_ok; [auto|].
      apply committed_ok_ext with (r := set_state w
        (mkShortcut (count (get_state w r1) + 1)
           (buffer (get_state w r1) ++ [(m, ts)]) ts) r1);
        try reflexivity.
      now apply set_state_ok.
    + now apply set_state_ok.
  - simpl snd. now apply set_state_ok.
Qed.

Lemma handle_shortcuts_ok m ts r :
  committed_ok r -> committed_ok (snd (handle_shortcuts m ts r)).
Proof.
  intro H. unfold handle_shortcuts.
  assert (F : committed_ok (flush_counted High (flush_counted Low r)))
    by now apply flush_counted_ok, flush_counted_ok.
  destruct (_ || _); [|exact F]. simpl.
  destruct (note m =? LOW_BLACK_NOTE); [now apply shortcut_body_ok|].
  destruct (note m =? HIGH_BLACK_NOTE); [now apply shortcut_body_ok | exact F].
Qed.

Lemma start_recording_ok r :
  committed_ok r -> committed_ok (start_recording r).
Proof.
  intros [Ht Hs]. unfold start_recording.
  destruct (recording r); [split; assumption|].
  split; [|exact Hs]. simpl. intros tr [= <-]. split; [|reflexivity].
  exists []. repeat split. constructor.
Qed.

Lemma prepare_ok ts r :
  committed_ok r -> committed_ok (prepare ts r).
Proof.
  intro H.
  destruct (prepare_facts ts r) as (_ & _ & _ & Ht & Hl & _ & _ & Hs & _).
  unfold committed_ok. rewrite Ht, Hl, Hs.
  unfold session_track, session_last.
  destruct (recording r); [exact H|].
  split; [|apply H]. intros tr [= <-]. split; [|reflexivity].
  exists []. repeat split. constructor.
Qed.

Lemma process_midi_message_ok m ts r :
  committed_ok r -> committed_ok (process_midi_message m ts r).
Proof.
  intro H. destruct (ignored m) eqn:Hi.
  - now rewrite process_midi_message_ignored.
  - rewrite (process_midi_message_prepare m ts r Hi).
    pose proof (prepare_ok ts r H) as Hp.
    pose proof (handle_shortcuts_ok m ts _ Hp) as Hh.
    destruct (fst _); simpl; [exact Hh | now apply write_message_ok].
Qed.

Lemma process_queue_loop_ok (fuel : nat) :
  forall n r,
  committed_ok r -> committed_ok (snd (process_queue_loop fuel n r)).
Proof.
  induction fuel as [|fuel IH]; intros n r H; [exact H|].
  simpl. destruct (message_queue r) as [|[m ts] rest]; [exact H|].
  apply IH, process_midi_message_ok. revert H. now apply committed_ok_ext.
Qed.

Lemma stop_recording_ok sfx sq sb r :
  committed_ok r -> committed_ok (stop_recording sfx sq sb r).
Proof.
  intro H. unfold stop_recording. apply stop_recording_body_ok; [|exact H].
  intros x Hx. unfold process_message_queue. now apply process_queue_loop_ok.
Qed.

Lemma check_session_timeout_ok r :
  committed_ok r -> committed_ok (check_session_timeout r).
Proof.
  intro H. unfold check_session_timeout.
  destruct (_ && _); [|exact H].
  destruct (last_activity r) as [a|]; [|exact H]. simpl.
  assert (H0 : committed_ok (set_reads (S (reads r)) r))
    by (revert H; now apply committed_ok_ext).
  destruct (Qgtb _ _); [|exact H0].
  pose proof (stop_recording_ok EmptyString false false _ H0) as Hs.
  unfold enter_low_power_mode.
  destruct (negb _); [|exact Hs].
  revert Hs. now apply committed_ok_ext.
Qed.

Lemma exec_ok (s : Q * MidiRecorder) (a : Action) :
  committed_ok (snd s) -> committed_ok (snd (exec s a)).
Proof.
  destruct s as [lqc r]. simpl snd. intro H.
  destruct a as [m| | | |]; simpl.
  - revert H. now apply committed_ok_ext.
  - revert H. now apply committed_ok_ext.
  - unfold run_iteration. simpl.
    assert (H0 : committed_ok (set_reads (S (reads r)) r))
      by (revert H; now apply committed_ok_ext).
    pose proof (process_queue_loop_ok
                  (List.length (message_queue r)) 0 _ H0) as Hq.
    unfold process_message_queue. simpl message_queue.
    destruct (Qgtb _ _); simpl snd; [|exact Hq].
    now apply check_session_timeout_ok.
  - now apply check_session_timeout_ok.
  - now apply stop_recording_ok.
Qed.

Lemma run_ok (acts : list Action) :
  forall s, committed_ok (snd s) -> committed_ok (snd (fold_left exec acts s)).
Proof.
  induction acts as [|a acts IH]; intros s H; [exact H|].
  simpl. apply IH. now apply exec_ok.
Qed.

(** C5.  However the process runs, every message in the track of the
    session and in the track of every saved file has a delta that is an
    integer and not negative, and the first message of a track has delta
    0: [start_recording] leaves no previous time stamp and a write
    without one stamps 0. *)
Theorem committed_deltas_invariant :
  (forall acts tr,
      current_track (snd (run acts)) = Some tr -> track_ok tr)
  /\ (forall acts sf,
         In sf (saved_files (snd (run acts))) -> track_ok (saved_track sf))
  /\ (forall r,
         recording r = false ->
         last_message_time (start_recording r) = None
         /\ current_track (start_recording r) = Some [set_tempo DEFAULT_TEMPO 0])
  /\ (forall r m ts tr,
         current_track r = Some tr ->
         last_message_time r = None ->
         current_track (write_message m ts r) = Some (tr ++ [midi (with_time 0 m)])).
Proof.
  assert (H0 : committed_ok (snd (0%Q, init))).
  { split; [discriminate | constructor]. }
  split; [|split; [|split]].
  - intros acts tr H. now apply (run_ok acts _ H0).
  - intros acts sf H.
    destruct (run_ok acts _ H0) as [_ Hs].
    rewrite Forall_forall in Hs. now apply Hs.
  - intros r Hr. unfold start_recording. rewrite Hr. split; reflexivity.
  - intros r m ts tr Ht Hl.
    rewrite (write_message_Some m ts r tr Ht), Hl. reflexivity.
Qed.

(** ** The queue loop ends *)

Lemma write_message_frame (m : Message) (ts : Q) (r : MidiRecorder) :
  message_queue (write_message m ts r) = message_queue r
  /\ current_file (write_message m ts r) = current_file r
  /\ (current_track (write_message m ts r) = None <-> current_track r = None).
Proof.
  unfold write_message. destruct (current_track r) eqn:E; simpl.
  - repeat split; discriminate.
  - rewrite E. tauto.
Qed.

Lemma write_all_frame (evs : list (Message * Q)) :
  forall r,
  message_queue (write_all evs r) = message_queue r
  /\ current_file (write_all evs r) = current_file r
  /\ (current_track (write_all evs r) = None <-> current_track r = None).
Proof.
  induction evs as [|[m ts] evs IH]; intro r; [tauto|].
  unfold write_all in *. simpl.
  destruct (IH (write_message m ts r)) as (A1 & A2 & A3).
  destruct (write_message_frame m ts r) as (B1 & B2 & B3).
  rewrite A1, A2, A3. tauto.
Qed.

Lemma flush_buffer_frame (w : Which) (r : MidiRecorder) :
  message_queue (flush_buffer w r) = message_queue r
  /\ current_file (flush_buffer w r) = current_file r
  /\ (current_track (flush_buffer w r) = None <-> current_track r = None).
Proof.
  unfold flush_buffer.
  destruct (write_all_frame (buffer (get_state w r)) r) as (A1 & A2 & A3).
  destruct w; simpl; tauto.
Qed.

Lemma flush_counted_frame (w : Which) (r : MidiRecorder) :
  message_queue (flush_counted w r) = message_queue r
  /\ current_file (flush_counted w r) = current_file r
  /\ (current_track (flush_counted w r) = None <-> current_track r = None).
Proof.
  unfold flush_counted. destruct (0 <? _); [apply flush_buffer_frame | tauto].
Qed.

Lemma stop_recording_body_skip_queue g sfx sb r :
  recording r = true ->
  message_queue (stop_recording_body g sfx true sb r) = [].
Proof.
  intro Hr. unfold stop_recording_body. rewrite Hr. simpl.
  set (r1 := set_message_queue [] (set_recording false r)).
  assert (H1 : message_queue r1 = []) by reflexivity. clearbody r1.
  assert (H2 : message_queue
                 (if negb sb then flush_shortcut_buffers r1
                  else set_high_note_state empty_shortcut
                         (set_low_note_state empty_shortcut r1)) = []).
  { destruct sb; simpl negb; cbv iota; [exact H1|].
    unfold flush_shortcut_buffers.
    destruct (flush_buffer_frame High (flush_buffer Low r1)) as (-> & _).
    destruct (flush_buffer_frame Low r1) as (-> & _). exact H1. }
  destruct (current_file _); [|exact H2].
  destruct (current_track _); [|exact H2].
  destruct (1 <? _)%nat; exact H2.
Qed.

Lemma shortcut_body_queue w m ts r :
  (List.length (message_queue (snd (shortcut_body w m ts r)))
   <= List.length (message_queue r))%nat.
Proof.
  unfold shortcut_body.
  match goal with
  | |- context [if ?c then flush_buffer w r else r] =>
      set (r1 := if c then flush_buffer w r else r)
  end.
  assert (H1 : message_queue r1 = message_queue r).
  { subst r1. destruct (_ && _); [apply flush_buffer_frame | reflexivity]. }
  clearbody r1. rewrite <- H1.
  destruct (MsgType_eqb (type m) note_on).
  - destruct (3 <=? _); simpl snd.
    + unfold stop_recording_body.
      destruct (recording _) eqn:Hr; simpl negb; cbv iota.
      * simpl. destruct (current_file _); [|apply Nat.le_0_l].
        destruct (current_track _); [|apply Nat.le_0_l].
        destruct (1 <? _)%nat; apply Nat.le_0_l.
      * apply Nat.le_0_l.
    + destruct w; apply Nat.le_refl.
  - destruct w; apply Nat.le_refl.
Qed.

Lemma handle_shortcuts_queue m ts r :
  (List.length (message_queue (snd (handle_shortcuts m ts r)))
   <= List.length (message_queue r))%nat.
Proof.
  unfold handle_shortcuts.
  assert (F : message_queue (flush_counted High (flush_counted Low r))
              = message_queue r).
  { destruct (flush_counted_frame High (flush_counted Low r)) as (-> & _).
    apply flush_counted_frame. }
  destruct (_ || _); simpl; [|rewrite F; apply Nat.le_refl].
  destruct (note m =? LOW_BLACK_NOTE); [apply shortcut_body_queue|].
  destruct (note m =? HIGH_BLACK_NOTE); [apply shortcut_body_queue|].
  simpl. rewrite F. apply Nat.le_refl.
Qed.

(** Processing a message puts nothing in the queue. *)
Lemma process_midi_message_queue m ts r :
  (List.length (message_queue (process_midi_message m ts r))
   <= List.length (message_queue r))%nat.
Proof.
  destruct (ignored m) eqn:Hi.
  - rewrite process_midi_message_ignored by exact Hi. apply Nat.le_refl.
  - rewrite (process_midi_message_prepare m ts r Hi).
    pose proof (handle_shortcuts_queue m ts (prepare ts r)) as H.
    destruct (prepare_facts ts r) as (_ & _ & _ & _ & _ & _ & _ & _ & Hq).
    rewrite Hq in H.
    destruct (fst _); simpl; [exact H|].
    destruct (write_message_frame m ts
                (snd (handle_shortcuts m ts (prepare ts r)))) as (-> & _).
    exact H.
Qed.

(** Any fuel that covers the queue gives the result of the loop. *)
Lemma process_queue_loop_fuel (fuel1 : nat) :
  forall fuel2 n r,
  (List.length (message_queue r) <= fuel1)%nat ->
  (List.length (message_queue r) <= fuel2)%nat ->
  process_queue_loop fuel1 n r = process_queue_loop fuel2 n r.
Proof.
  induction fuel1 as [|fuel1 IH]; intros fuel2 n r H1 H2.
  - destruct (message_queue r) eqn:E; [|simpl in H1; lia].
    destruct fuel2; simpl; [reflexivity | now rewrite E].
  - destruct fuel2 as [|fuel2].
    + destruct (message_queue r) eqn:E; [|simpl in H2; lia].
      simpl. now rewrite E.
    + simpl. destruct (message_queue r) as [|[m ts] rest] eqn:E; [reflexivity|].
      simpl in H1, H2.
      pose proof (process_midi_message_queue m ts (set_message_queue rest r)) as Hq.
      simpl in Hq. apply IH; lia.
Qed.

(** The loop leaves the queue empty. *)
Lemma process_queue_loop_drains (fuel : nat) :
  forall n r,
  (List.length (message_queue r) <= fuel)%nat ->
  message_queue (snd (process_queue_loop fuel n r)) = [].
Proof.
  induction fuel as [|fuel IH]; intros n r H.
  - destruct (message_queue r) eqn:E; [exact E | simpl in H; lia].
  - simpl. destruct (message_queue r) as [|[m ts] rest] eqn:E; [exact E|].
    simpl in H.
    pose proof (process_midi_message_queue m ts (set_message_queue rest r)) as Hq.
    simpl in Hq. apply IH. lia.
Qed.

Lemma process_message_queue_drains r :
  message_queue (snd (process_message_queue r)) = [].
Proof. unfold process_message_queue. now apply process_queue_loop_drains. Qed.

(** ** File and track go together *)

Lemma aligned_ext (r r' : MidiRecorder) :
  current_file r' = current_file r ->
  (current_track r' = None <-> current_track r = None) ->
  aligned r -> aligned r'.
Proof. unfold aligned. intros -> ->. tauto. Qed.

Lemma stop_recording_body_aligned g sfx sq sb r :
  aligned r -> aligned (stop_recording_body g sfx sq sb r).
Proof.
  intro H. unfold stop_recording_body.
  destruct (recording r); simpl; [|exact H].
  unfold aligned. simpl. tauto.
Qed.

Lemma shortcut_body_aligned w m ts r :
  aligned r -> aligned (snd (shortcut_body w m ts r)).
Proof.
  intro H. unfold shortcut_body.
  match goal with
  | |- context [if ?c then flush_buffer w r else r] =>
      set (r1 := if c then flush_buffer w r else r)
  end.
  assert (H1 : aligned r1).
  { subst r1. destruct (_ && _); [|exact H].
    destruct (flush_buffer_frame w r) as (_ & A & B).
    now apply (aligned_ext r). }
  clearbody r1.
  assert (S : forall s, aligned (set_state w s r1)).
  { intro s. apply (aligned_ext r1); [| |exact H1]; now destruct w. }
  destruct (MsgType_eqb (type m) note_on); [|apply S].
  destruct (3 <=? _); simpl snd; [|apply S].
  apply stop_recording_body_aligned.
  match goal with
  | |- aligned (set_message_queue [] ?x) => apply (aligned_ext x)
  end; try reflexivity. apply S.
Qed.

Lemma handle_shortcuts_aligned m ts r :
  aligned r -> aligned (snd (handle_shortcuts m ts r)).
Proof.
  intro H. unfold handle_shortcuts.
  assert (F : aligned (flush_counted High (flush_counted Low r))).
  { destruct (flush_counted_frame Low r) as (_ & A1 & A2).
    destruct (flush_counted_frame High (flush_counted Low r)) as (_ & B1 & B2).
    apply (aligned_ext r); [congruence | tauto | exact H]. }
  destruct (_ || _); simpl; [|exact F].
  destruct (note m =? LOW_BLACK_NOTE); [now apply shortcut_body_aligned|].
  destruct (note m =? HIGH_BLACK_NOTE); [now apply shortcut_body_aligned|].
  exact F.
Qed.

Lemma process_midi_message_aligned m ts r :
  aligned r -> aligned (process_midi_message m ts r).
Proof.
  intro H. destruct (ignored m) eqn:Hi.
  - now rewrite process_midi_message_ignored.
  - rewrite (process_midi_message_prepare m ts r Hi).
    assert (Hp : aligned (prepare ts r)).
    { destruct (prepare_facts ts r) as (_ & _ & Hf & Ht & _).
      unfold aligned. rewrite Hf, Ht. unfold session_file, session_track.
      destruct (recording r); [exact H | split; discriminate]. }
    pose proof (handle_shortcuts_aligned m ts _ Hp) as Hh.
    destruct (fst _); simpl; [exact Hh|].
    destruct (write_message_frame m ts
                (snd (handle_shortcuts m ts (prepare ts r)))) as (_ & A & B).
    now apply (aligned_ext (snd (handle_shortcuts m ts (prepare ts r)))).
Qed.

Lemma process_queue_loop_aligned (fuel : nat) :
  forall n r, aligned r -> aligned (snd (process_queue_loop fuel n r)).
Proof.
  induction fuel as [|fuel IH]; intros n r H; [exact H|].
  simpl. destruct (message_queue r) as [|[m ts] rest]; [exact H|].
  apply IH, process_midi_message_aligned. exact H.
Qed.

Lemma check_session_timeout_aligned r :
  aligned r -> aligned (check_session_timeout r).
Proof.
  intro H. unfold check_session_timeout.
  destruct (_ && _); [|exact H].
  destruct (last_activity r) as [a|]; [|exact H]. simpl.
  destruct (Qgtb _ _); [|exact H].
  assert (Hs : aligned (stop_recording EmptyString false false
                          (set_reads (S (reads r)) r)))
    by now apply stop_recording_body_aligned.
  unfold enter_low_power_mode. destruct (negb _); exact Hs.
Qed.

Lemma exec_aligned (s : Q * MidiRecorder) (a : Action) :
  aligned (snd s) -> aligned (snd (exec s a)).
Proof.
  destruct s as [lqc r]. simpl snd. intro H.
  destruct a as [m| | | |]; simpl; try exact H.
  - unfold run_iteration. simpl.
    pose proof (process_queue_loop_aligned
                  (List.length (message_queue r)) 0
                  (set_reads (S (reads r)) r) H) as Hq.
    unfold process_message_queue. simpl message_queue.
    destruct (Qgtb _ _); simpl snd; [|exact Hq].
    now apply check_session_timeout_aligned.
  - now apply check_session_timeout_aligned.
  - now apply stop_recording_body_aligned.
Qed.

(** In every state of the process [current_file] is set exactly when
    [current_track] is: [len(self.current_track)] in [stop_recording]
    is never applied to [None]. *)
Lemma file_track_aligned (acts : list Action) :
  current_file (snd (run acts)) = None <-> current_track (snd (run acts)) = None.
Proof.
  unfold run.
  assert (H0 : aligned (snd (0%Q, init))) by (unfold aligned; simpl; tauto).
  revert H0. generalize (0%Q, init).
  induction acts as [|a acts IH]; intros s H; [exact H|].
  simpl. apply IH. now apply exec_aligned.
Qed.

(** ** A session is never in low-power mode *)

Lemma awake_ext (r r' : MidiRecorder) :
  (current_track r' = None <-> current_track r = None) ->
  in_low_power r' = in_low_power r ->
  awake r -> awake r'.
Proof. unfold awake. intros -> ->. tauto. Qed.

Lemma write_message_low_power (m : Message) (ts : Q) (r : MidiRecorder) :
  in_low_power (write_message m ts r) = in_low_power r.
Proof. unfold write_message. now destruct (current_track r). Qed.

Lemma write_all_low_power (evs : list (Message * Q)) :
  forall r, in_low_power (write_all evs r) = in_low_power r.
Proof.
  induction evs as [|[m ts] evs IH]; intro r; [reflexivity|].
  unfold write_all in *. simpl. rewrite IH. apply write_message_low_power.
Qed.

Lemma flush_buffer_awake (w : Which) (r : MidiRecorder) :
  awake r -> awake (flush_buffer w r).
Proof.
  apply awake_ext; [apply flush_buffer_frame|].
  unfold flush_buffer.
  rewrite <- (write_all_low_power (buffer (get_state w r)) r). now destruct w.
Qed.

Lemma flush_counted_awake (w : Which) (r : MidiRecorder) :
  awake r -> awake (flush_counted w r).
Proof.
  intro H. unfold flush_counted.
  destruct (0 <? _); [now apply flush_buffer_awake | exact H].
Qed.

Lemma stop_recording_body_track g sfx sq sb r :
  recording r = true ->
  current_track (stop_recording_body g sfx sq sb r) = None.
Proof. intro H. unfold stop_recording_body. now rewrite H. Qed.

Lemma stop_recording_body_awake g sfx sq sb r :
  awake r -> awake (stop_recording_body g sfx sq sb r).
Proof.
  intro H. destruct (recording r) eqn:Hr.
  - intro Hn. now rewrite stop_recording_body_track in Hn.
  - now rewrite stop_recording_body_idle.
Qed.

Lemma shortcut_body_awake w m ts r :
  awake r -> awake (snd (shortcut_body w m ts r)).
Proof.
  intro H. unfold shortcut_body.
  match goal with
  | |- context [if ?c then flush_buffer w r else r] =>
      set (r1 := if c then flush_buffer w r else r)
  end.
  assert (H1 : awake r1).
  { subst r1. destruct (_ && _); [now apply flush_buffer_awake | exact H]. }
  clearbody r1.
  assert (S : forall s, awake (set_state w s r1)).
  { intro s. apply (awake_ext r1); [| |exact H1]; now destruct w. }
  destruct (MsgType_eqb (type m) note_on); [|apply S].
  destruct (3 <=? _); simpl snd; [|apply S].
  apply stop_recording_body_awake.
  match goal with
  | |- awake (set_message_queue [] ?x) => apply (awake_ext x)
  end; try reflexivity. apply S.
Qed.

Lemma handle_shortcuts_awake m ts r :
  awake r -> awake (snd (handle_shortcuts m ts r)).
Proof.
  intro H. unfold handle_shortcuts.
  assert (F : awake (flush_counted High (flush_counted Low r)))
    by now apply flush_counted_awake, flush_counted_awake.
  destruct (_ || _); simpl; [|exact F].
  destruct (note m =? LOW_BLACK_NOTE); [now apply shortcut_body_awake|].
  destruct (note m =? HIGH_BLACK_NOTE); [now apply shortcut_body_awake|].
  exact F.
Qed.

Lemma process_midi_message_awake m ts r :
  awake r -> awake (process_midi_message m ts r).
Proof.
  intro H. destruct (ignored m) eqn:Hi.
  - now rewrite process_midi_message_ignored.
  - rewrite (process_midi_message_prepare m ts r Hi).
    assert (Hp : awake (prepare ts r)).
    { intros _. apply prepare_facts. }
    pose proof (handle_shortcuts_awake m ts _ Hp) as Hh.
    destruct (fst _); simpl; [exact Hh|].
    revert Hh. apply awake_ext;
      [apply write_message_frame | apply write_message_low_power].
Qed.

Lemma process_queue_loop_awake (fuel : nat) :
  forall n r, awake r -> awake (snd (process_queue_loop fuel n r)).
Proof.
  induction fuel as [|fuel IH]; intros n r H; [exact H|].
  simpl. destruct (message_queue r) as [|[m ts] rest]; [exact H|].
  apply IH, process_midi_message_awake. exact H.
Qed.

Lemma stop_recording_awake sfx sq sb r :
  awake r -> awake (stop_recording sfx sq sb r).
Proof. apply stop_recording_body_awake. Qed.

Lemma check_session_timeout_awake r :
  awake r -> awake (check_session_timeout r).
Proof.
  intro H. unfold check_session_timeout.
  destruct (recording r) eqn:Hr; [|exact H].
  destruct (truthy _); [|exact H]. simpl andb. cbv iota.
  destruct (last_activity r) as [a|]; [|exact H]. simpl.
  destruct (Qgtb _ _); [|exact H].
  intro Hn. exfalso. apply Hn.
  unfold enter_low_power_mode.
  assert (Ht : current_track
                 (stop_recording EmptyString false false
                    (set_reads (S (reads r)) r)) = None)
    by now apply stop_recording_body_track.
  destruct (negb _); simpl; exact Ht.
Qed.

Lemma exec_awake (s : Q * MidiRecorder) (a : Action) :
  awake (snd s) -> awake (snd (exec s a)).
Proof.
  destruct s as [lqc r]. simpl snd. intro H.
  destruct a as [m| | | |]; simpl; try exact H.
  - unfold run_iteration. simpl.
    pose proof (process_queue_loop_awake
                  (List.length (message_queue r)) 0
                  (set_reads (S (reads r)) r) H) as Hq.
    unfold process_message_queue. simpl message_queue.
    destruct (Qgtb _ _); simpl snd; [|exact Hq].
    now apply check_session_timeout_awake.
  - now apply check_session_timeout_awake.
  - now apply stop_recording_awake.
Qed.

Lemma run_awake (acts : list Action) :
  forall s, awake (snd s) -> awake (snd (fold_left exec acts s)).
Proof.
  induction acts as [|a acts IH]; intros s H; [exact H|].
  simpl. apply IH. now apply exec_awake.
Qed.

(** In every state of the process a recorder that holds a track has
    [in_low_power] false. *)
Lemma session_not_low_power (acts : list Action) (tr : MidiTrack) :
  current_track (snd (run acts)) = Some tr ->
  in_low_power (snd (run acts)) = false.
Proof.
  intro Ht.
  assert (H : awake (snd (run acts))).
  { apply run_awake. intros _. reflexivity. }
  apply H. rewrite Ht. discriminate.
Qed.

(** ** Accuracy of the deltas *)

Lemma scale_value : (inject_Z TICKS_PER_BEAT * beats_per_second == 960)%Q.
Proof. vm_compute. reflexivity. Qed.

Lemma seconds_of_ticks_value (d : Z) : (seconds_of_ticks d == inject_Z d / 960)%Q.
Proof. unfold seconds_of_ticks. now rewrite scale_value. Qed.

Lemma increasing_tail (a : Q) (ts : list Q) :
  increasing (a :: ts) -> increasing ts.
Proof. destruct ts; simpl; tauto. Qed.

Lemma total_ticks_cons (e : TrackEntry) (es : list TrackEntry) :
  total_ticks (e :: es) = entry_time e + total_ticks es.
Proof. reflexivity. Qed.

Lemma last_nonempty {A : Type} (l : list A) :
  forall b d d', last (b :: l) d = last (b :: l) d'.
Proof.
  induction l as [|c l IH]; intros b d d'; [reflexivity|].
  change (last (b :: c :: l) d) with (last (c :: l) d).
  change (last (b :: c :: l) d') with (last (c :: l) d').
  apply IH.
Qed.

(** The sum of the deltas overshoots the exact ticks by the relative
    rounding error at most, and falls short by less than one tick for
    each interval besides. *)
Lemma total_ticks_bounds (evs : list (Message * Q)) :
  forall prev,
  increasing (prev :: map snd evs) ->
  Forall is_double (prev :: map snd evs) ->
  let total := inject_Z (total_ticks (stamp (Some prev) evs)) in
  let span := ((last (map snd evs) prev - prev) * 960)%Q in
  (total <= span * (1 + rounding_slack))%Q
  /\ (span * (1 - rounding_slack)
      <= total + inject_Z (Z.of_nat (List.length evs)))%Q
  /\ (evs <> [] ->
      span * (1 - rounding_slack)
      < total + inject_Z (Z.of_nat (List.length evs)))%Q.
Proof.
  assert (Hs : (rounding_slack == 1 # 2251799813685248)%Q) by reflexivity.
  induction evs as [|[m t] evs IH]; intros prev Hinc Hdbl.
  - simpl. change (inject_Z 0) with 0%Q. rewrite Hs.
    split; [lra|]. split; [lra|]. intro H. now elim H.
  - assert (Hpt : (prev < t)%Q) by (simpl in Hinc; tauto).
    inversion Hdbl as [|x l Dp Dl]; subst.
    simpl map in Dl. pose proof Dl as Dl'.
    inversion Dl' as [|x l Dt _]; subst.
    destruct (delta_ticks_bounds prev t Dp Dt (Qlt_le_weak _ _ Hpt)) as [D1 D2].
    destruct (IH t (increasing_tail _ _ Hinc) Dl) as (I1 & I2 & _).
    cbv zeta in *.
    assert (L : last (map snd ((m, t) :: evs)) prev = last (map snd evs) t).
    { simpl map. destruct (map snd evs) as [|b l]; [reflexivity|].
      change (last (t :: b :: l) prev) with (last (b :: l) prev).
      apply last_nonempty. }
    rewrite L. change (stamp (Some prev) ((m, t) :: evs))
      with (midi (with_time (delta_ticks (Some prev) t) m) :: stamp (Some t) evs).
    rewrite total_ticks_cons. simpl entry_time.
    rewrite inject_Z_plus.
    change (List.length ((m, t) :: evs)) with (S (List.length evs)).
    rewrite Nat2Z.inj_succ. unfold Z.succ. rewrite inject_Z_plus.
    change (inject_Z 1) with 1%Q.
    rewrite Hs in *.
    revert D1 D2 I1 I2.
    generalize (inject_Z (delta_ticks (Some prev) t)) as d.
    generalize (inject_Z (total_ticks (stamp (Some t) evs))) as rest.
    generalize (inject_Z (Z.of_nat (List.length evs))) as n.
    generalize (last (map snd evs) t) as tn.
    intros tn n rest d D1 D2 I1 I2.
    split; [lra|]. split; [lra|]. intros _. lra.
Qed.

Lemma stamp_nonneg (evs : list (Message * Q)) :
  forall last, Forall (fun e => 0 <= entry_time e) (stamp last evs).
Proof.
  induction evs as [|[m ts] evs IH]; intro last; simpl; constructor.
  - apply delta_ticks_nonneg.
  - apply IH.
Qed.

(** C6 (amended).  For binary64 time stamps [t0 < t1 < ... < tn]
    written one after the other into a fresh track, the deltas are
    integers that are not negative.  Their sum, converted back to
    seconds, exceeds the elapsed time [tn - t0] by at most the rounding
    error of the float operations, the fraction [2^-51] of the elapsed
    time, and falls short of it by less than one tick's worth of time
    for each of the [n] intervals besides that fraction. *)
Theorem tick_sum_error_bound r tr m0 t0 evs :
  current_track r = Some tr ->
  last_message_time r = None ->
  increasing (t0 :: map snd evs) ->
  Forall is_double (t0 :: map snd evs) ->
  let es := stamp None ((m0, t0) :: evs) in
  let elapsed := (last (map snd evs) t0 - t0)%Q in
  let n := Z.of_nat (List.length evs) in
  current_track (write_all ((m0, t0) :: evs) r) = Some (tr ++ es)
  /\ Forall (fun e => 0 <= entry_time e) es
  /\ (seconds_of_ticks (total_ticks es) <= elapsed * (1 + rounding_slack))%Q
  /\ (elapsed * (1 - rounding_slack) <=
      seconds_of_ticks (total_ticks es) + inject_Z n * seconds_of_ticks 1)%Q
  /\ (evs <> [] ->
      (elapsed * (1 - rounding_slack) <
       seconds_of_ticks (total_ticks es) + inject_Z n * seconds_of_ticks 1)%Q).
Proof.
  intros Ht Hl Hinc Hdbl es elapsed n.
  split.
  { rewrite (write_all_Some _ r tr Ht). simpl current_track. now rewrite Hl. }
  split; [apply stamp_nonneg|].
  destruct (total_ticks_bounds evs t0 Hinc Hdbl) as (B1 & B2 & B3).
  cbv zeta in B1, B2, B3.
  assert (E : total_ticks es = total_ticks (stamp (Some t0) evs)).
  { subst es. simpl stamp. rewrite total_ticks_cons. simpl entry_time.
    rewrite delta_ticks_None. apply Z.add_0_l. }
  rewrite E, !seconds_of_ticks_value. subst elapsed n.
  change (inject_Z 1) with 1%Q.
  assert (Hs : (rounding_slack == 1 # 2251799813685248)%Q) by reflexivity.
  rewrite Hs in *.
  revert B1 B2 B3.
  generalize (inject_Z (total_ticks (stamp (Some t0) evs))) as total.
  generalize (inject_Z (Z.of_nat (List.length evs))) as n.
  generalize (last (map snd evs) t0) as tn.
  intros tn n total B1 B2 B3.
  split; [|split].
  - apply Qle_shift_div_r; [reflexivity | lra].
  - assert (H : (total / 960 + n * (1 / 960) == (total + n) / 960)%Q) by field.
    rewrite H. apply Qle_shift_div_l; [reflexivity | lra].
  - intro Hne. specialize (B3 Hne).
    assert (H : (total / 960 + n * (1 / 960) == (total + n) / 960)%Q) by field.
    rewrite H. apply Qlt_shift_div_l; [reflexivity | lra].
Qed.

(** ** Velocity *)

Lemma stop_skip_states g sfx r :
  recording r = true ->
  let q := stop_recording_body g sfx true true r in
  recording q = false
  /\ low_note_state q = empty_shortcut
  /\ high_note_state q = empty_shortcut.
Proof.
  intro Hr. unfold stop_recording_body. rewrite Hr. simpl.
  destruct (current_file r); [|repeat split].
  destruct (current_track r); [|repeat split].
  destruct (1 <? _)%nat; repeat split.
Qed.

Lemma shortcut_body_velocity w m v ts r :
  fst (shortcut_body w (with_velocity v m) ts r) = fst (shortcut_body w m ts r)
  /\ velocity_blind (snd (shortcut_body w (with_velocity v m) ts r))
     = velocity_blind (snd (shortcut_body w m ts r)).
Proof.
  unfold shortcut_body. simpl type.
  match goal with
  | |- context [if ?c then flush_buffer w r else r] =>
      set (r1 := if c then flush_buffer w r else r)
  end.
  clearbody r1.
  assert (B : forall c t,
    velocity_blind (set_state w
      (mkShortcut c (buffer (get_state w r1) ++ [(with_velocity v m, ts)]) t) r1)
    = velocity_blind (set_state w
      (mkShortcut c (buffer (get_state w r1) ++ [(m, ts)]) t) r1)).
  { intros c t. destruct w; unfold velocity_blind, forget_velocity; simpl;
      rewrite !map_app; reflexivity. }
  destruct (MsgType_eqb (type m) note_on); [|split; [reflexivity | apply B]].
  simpl count.
  destruct (3 <=? _); [|split; [reflexivity | apply B]].
  split; [reflexivity|]. simpl snd. simpl buffer.
  unfold stop_recording_body.
  assert (R : forall s, recording (set_message_queue [] (set_state w s r1))
                        = recording r1) by (intro s; now destruct w).
  rewrite !R. destruct (recording r1); simpl negb; cbv iota.
  - destruct w; destruct r1; simpl; reflexivity.
  - destruct w; destruct r1; unfold velocity_blind, forget_velocity; simpl;
      rewrite !map_app; reflexivity.
Qed.

(** C9.  The detector never reads the velocity: two messages that
    differ in velocity only get the same answer and leave the same
    recorder, up to the velocity of the message put in the buffer.  A
    [note_on] with velocity 0 on a reserved note is a tap: it is
    handled, the count goes up by one (from 0 when a stale buffer was
    flushed first), the time of the last tap becomes its time stamp,
    and as the third tap it stops a running session. *)
Theorem velocity_never_consulted :
  (forall m v ts r,
      fst (handle_shortcuts (with_velocity v m) ts r)
      = fst (handle_shortcuts m ts r)
      /\ velocity_blind (snd (handle_shortcuts (with_velocity v m) ts r))
         = velocity_blind (snd (handle_shortcuts m ts r)))
  /\ (forall w m ts r,
         is_tap w m ->
         velocity m = 0 ->
         let s := get_state w r in
         let c := if (0 <? count s)
                     && Qgtb (ts - last_time s) SHORTCUT_TIMEOUT
                  then 0 else count s in
         let r' := snd (handle_shortcuts m ts r) in
         fst (handle_shortcuts m ts r) = true
         /\ (c + 1 < 3 ->
             count (get_state w r') = c + 1 /\ last_time (get_state w r') = ts)
         /\ (3 <= c + 1 ->
             recording r = true ->
             recording r' = false /\ get_state w r' = empty_shortcut)).
Proof.
  split.
  - intros m v ts r.
    assert (Hres : forall w, on_reserved w (with_velocity v m) = on_reserved w m)
      by reflexivity.
    destruct (on_reserved Low m) eqn:HL.
    + rewrite (handle_shortcuts_reserved Low m ts r HL).
      rewrite (handle_shortcuts_reserved Low (with_velocity v m) ts r)
        by now rewrite Hres.
      apply shortcut_body_velocity.
    + destruct (on_reserved High m) eqn:HH.
      * rewrite (handle_shortcuts_reserved High m ts r HH).
        rewrite (handle_shortcuts_reserved High (with_velocity v m) ts r)
          by now rewrite Hres.
        apply shortcut_body_velocity.
      * assert (Hu : unrelated m = true)
          by (unfold unrelated; now rewrite HL, HH).
        assert (Hu' : unrelated (with_velocity v m) = true) by exact Hu.
        rewrite (handle_shortcuts_unrelated m ts r Hu).
        rewrite (handle_shortcuts_unrelated _ ts r Hu'). split; reflexivity.
  - intros w m ts r Hm _ s c r'. subst r'.
    rewrite (handle_shortcuts_reserved w m ts r (tap_on_reserved w m Hm)).
    destruct ((0 <? count s) && Qgtb (ts - last_time s) SHORTCUT_TIMEOUT)
      eqn:Hstale; subst c.
    + apply andb_true_iff in Hstale. destruct Hstale as [Hc Ht].
      apply Z.ltb_lt in Hc. apply Qgtb_true in Ht.
      rewrite (shortcut_body_stale w m ts r (proj1 Hm) Hc Ht).
      simpl fst. simpl snd. rewrite get_set_state. simpl.
      split; [reflexivity|]. split; [tauto | lia].
    + assert (Hin : in_time ts s).
      { apply andb_false_iff in Hstale. destruct Hstale as [Hc | Ht].
        - left. now apply Z.ltb_ge.
        - right. now apply Qgtb_false. }
      rewrite (shortcut_body_on w m ts r (proj1 Hm) Hin). cbv zeta.
      fold s. destruct (3 <=? count s + 1) eqn:H3; simpl fst; simpl snd.
      * split; [reflexivity|]. apply Z.leb_le in H3.
        split; [lia|]. intros _ Hr.
        destruct (stop_skip_states (fun r => r) (suffix_of w)
                    (set_message_queue []
                       (set_state w
                          (mkShortcut (count s + 1) (buffer s ++ [(m, ts)]) ts)
                          r)))
          as (S1 & S2 & S3); [now destruct w|].
        split; [exact S1 | now destruct w].
      * split; [reflexivity|]. apply Z.leb_gt in H3.
        rewrite get_set_state. simpl. split; [tauto | lia].
Qed.
(** ** The queue loop, message by message *)

Lemma process_queue_loop_count (fuel : nat) :
  forall n r,
  n <= fst (process_queue_loop fuel n r)
  <= n + Z.of_nat (List.length (message_queue r)).
Proof.
  induction fuel as [|fuel IH]; intros n r; simpl; [lia|].
  destruct (message_queue r) as [|[m ts] rest] eqn:E; simpl; [lia|].
  pose proof (process_midi_message_queue m ts (set_message_queue rest r)) as Hq.
  simpl in Hq.
  specialize (IH (n + 1) (process_midi_message m ts (set_message_queue rest r))).
  lia.
Qed.

(** X1.  The [while] loop of [process_message_queue] ends: any fuel
    that covers the queue gives the result of the method, the queue is
    empty afterwards, and the count returned is at most the number of
    entries the queue held. *)
Theorem process_message_queue_terminates (fuel : nat) (r : MidiRecorder) :
  (List.length (message_queue r) <= fuel)%nat ->
  process_queue_loop fuel 0 r = process_message_queue r
  /\ message_queue (snd (process_message_queue r)) = []
  /\ 0 <= fst (process_message_queue r)
     <= Z.of_nat (List.length (message_queue r)).
Proof.
  intro H. split; [|split].
  - unfold process_message_queue. apply process_queue_loop_fuel; [exact H | lia].
  - apply process_message_queue_drains.
  - unfold process_message_queue.
    pose proof (process_queue_loop_count
                  (List.length (message_queue r)) 0 r). lia.
Qed.

Lemma write_message_set_queue q m ts r :
  write_message m ts (set_message_queue q r)
  = set_message_queue q (write_message m ts r).
Proof.
  unfold write_message. simpl. now destruct (current_track r).
Qed.

Lemma write_all_set_queue q (evs : list (Message * Q)) :
  forall r,
  write_all evs (set_message_queue q r) = set_message_queue q (write_all evs r).
Proof.
  induction evs as [|[m ts] evs IH]; intro r; [reflexivity|].
  unfold write_all in *. simpl. rewrite write_message_set_queue. apply IH.
Qed.

Lemma flush_buffer_set_queue q w r :
  flush_buffer w (set_message_queue q r)
  = set_message_queue q (flush_buffer w r).
Proof.
  unfold flush_buffer.
  replace (get_state w (set_message_queue q r)) with (get_state w r)
    by now destruct w.
  rewrite write_all_set_queue. now destruct w.
Qed.

Lemma flush_counted_set_queue q w r :
  flush_counted w (set_message_queue q r)
  = set_message_queue q (flush_counted w r).
Proof.
  unfold flush_counted.
  replace (get_state w (set_message_queue q r)) with (get_state w r)
    by now destruct w.
  destruct (0 <? _); [apply flush_buffer_set_queue | reflexivity].
Qed.

Lemma prepare_set_queue q ts r :
  prepare ts (set_message_queue q r) = set_message_queue q (prepare ts r).
Proof.
  unfold prepare, start_recording, exit_low_power_mode.
  destruct r as [rec la cf ct sst fmt lmt lp mq lo hi sv gl rd].
  destruct rec, lp; reflexivity.
Qed.

Lemma not_a_tap_cases m :
  is_tap_msg m = false ->
  ignored m = true
  \/ (ignored m = false /\ unrelated m = true)
  \/ (ignored m = false /\ exists w, is_release w m).
Proof.
  unfold is_tap_msg, ignored, unrelated, on_reserved, is_note, is_release.
  destruct m as [ty n v t]. simpl.
  destruct ty; simpl; auto.
  - destruct (n =? LOW_BLACK_NOTE) eqn:EL; simpl; [discriminate|].
    destruct (n =? HIGH_BLACK_NOTE) eqn:EH; simpl; [discriminate|]. auto.
  - intros _. right.
    destruct (n =? LOW_BLACK_NOTE) eqn:EL; simpl.
    + right. split; [reflexivity|]. exists Low. split; [reflexivity|].
      now apply Z.eqb_eq.
    + destruct (n =? HIGH_BLACK_NOTE) eqn:EH; simpl.
      * right. split; [reflexivity|]. exists High. split; [reflexivity|].
        now apply Z.eqb_eq.
      * left. auto.
Qed.

(** A message that is not a tap is processed the same whatever waits in
    the queue, and leaves the queue alone. *)
Lemma process_midi_message_set_queue q m ts r :
  is_tap_msg m = false ->
  process_midi_message m ts (set_message_queue q r)
  = set_message_queue q (process_midi_message m ts r).
Proof.
  intro H. destruct (not_a_tap_cases m H) as [Hi | [[Hi Hu] | [Hi [w Hw]]]].
  - now rewrite !process_midi_message_ignored.
  - rewrite !(process_midi_message_prepare m ts _ Hi), prepare_set_queue.
    rewrite !(handle_shortcuts_unrelated m ts _ Hu). simpl.
    rewrite !flush_counted_set_queue. apply write_message_set_queue.
  - rewrite !(process_midi_message_prepare m ts _ Hi), prepare_set_queue.
    rewrite !(handle_shortcuts_reserved w m ts _ (release_on_reserved w m Hw)).
    rewrite !(shortcut_body_off w m ts _ (proj1 Hw)). simpl.
    now destruct w.
Qed.

Lemma process_all_set_queue q (evs : list (Message * Q)) :
  forall r,
  Forall (fun e => is_tap_msg (fst e) = false) evs ->
  process_all evs (set_message_queue q r)
  = set_message_queue q (process_all evs r).
Proof.
  induction evs as [|[m ts] evs IH]; intros r Hall; [reflexivity|].
  inversion Hall as [|e l Hm Hl]; subst. simpl in Hm.
  rewrite !process_all_cons. simpl fst. simpl snd.
  rewrite (process_midi_message_set_queue q m ts r Hm). now apply IH.
Qed.

Lemma process_queue_loop_fifo (evs : list (Message * Q)) :
  forall n r,
  Forall (fun e => is_tap_msg (fst e) = false) evs ->
  message_queue r = evs ->
  process_queue_loop (List.length evs) n r
  = (n + Z.of_nat (List.length evs),
     set_message_queue [] (process_all evs r)).
Proof.
  induction evs as [|[m ts] evs IH]; intros n r Hall Hq.
  - simpl. rewrite Z.add_0_r. f_equal.
    destruct r; simpl in *. now subst.
  - inversion Hall as [|e l Hm Hl]; subst. simpl in Hm.
    simpl process_queue_loop. rewrite Hq.
    rewrite (process_midi_message_set_queue evs m ts r Hm).
    rewrite (IH (n + 1) (set_message_queue evs (process_midi_message m ts r))
               Hl eq_refl).
    rewrite (process_all_set_queue evs evs _ Hl).
    rewrite process_all_cons. simpl fst. simpl snd.
    f_equal. simpl List.length. lia.
Qed.

(** X2.  A queue that holds no [note_on] on a reserved note is processed
    in the order of arrival, every entry once: the method returns the
    length of the queue and the recorder [process_midi_message] leaves
    when it is given the entries one after the other, with the queue
    emptied. *)
Theorem process_message_queue_fifo (r : MidiRecorder) :
  Forall (fun e => is_tap_msg (fst e) = false) (message_queue r) ->
  process_message_queue r
  = (Z.of_nat (List.length (message_queue r)),
     set_message_queue [] (process_all (message_queue r) r)).
Proof.
  intro H. unfold process_message_queue.
  now rewrite (process_queue_loop_fifo (message_queue r) 0 r H eq_refl).
Qed.

(** X3.  When the entry at the head of the queue is the third tap of a
    gesture, the entries behind it are never processed: the method
    returns 1, the queue is empty, the session is stopped, and the file
    saved (if the track held an event) is the track as it was. *)
Theorem third_tap_drops_rest_of_queue w r f tr m ts rest :
  message_queue r = (m, ts) :: rest ->
  session_file r = Some f ->
  session_track r = Some tr ->
  is_tap w m ->
  2 <= count (get_state w r) ->
  (ts - last_time (get_state w r) <= SHORTCUT_TIMEOUT)%Q ->
  fst (process_message_queue r) = 1
  /\ message_queue (snd (process_message_queue r)) = []
  /\ recording (snd (process_message_queue r)) = false
  /\ saved_files (snd (process_message_queue r)) =
     saved_files r ++
     (if (1 <? List.length tr)%nat
      then [mkSaved (suffix_of w) (ticks_per_beat f) tr] else []).
Proof.
  intros Hq Hf Htr Hm Hc Ht.
  unfold process_message_queue. rewrite Hq. simpl process_queue_loop. rewrite Hq.
  set (r0 := set_message_queue rest r).
  assert (Hp : pending w f tr (session_last r0) (saved_files r0)
                 (get_state w r0) (get_state (other_note w) r0) r0).
  { unfold pending. repeat split; try assumption. }
  assert (Hc0 : 3 <= count (get_state w r0) + 1).
  { replace (get_state w r0) with (get_state w r) by now destruct w. lia. }
  assert (Hin : in_time ts (get_state w r0)).
  { right. replace (get_state w r0) with (get_state w r) by now destruct w.
    exact Ht. }
  destruct (trigger_step w f tr _ _ _ _ r0 m ts Hp Hm Hin Hc0)
    as (A1 & A2 & A3 & A4 & A5 & A6 & A7).
  set (r1 := process_midi_message m ts r0) in *.
  assert (E : process_queue_loop (List.length rest) 1 r1 = (1, r1)).
  { destruct (List.length rest); simpl; [reflexivity | now rewrite A2]. }
  rewrite E. simpl. repeat split; assumption.
Qed.

(** ** Delivery *)

Lemma deliver_spec (msgs : list Message) :
  forall r,
  deliver msgs r
  = set_reads (reads r + List.length msgs)
      (set_message_queue (message_queue r ++ stamped_from (reads r) msgs) r).
Proof.
  induction msgs as [|m msgs IH]; intro r.
  - destruct r; simpl. now rewrite app_nil_r, Nat.add_0_r.
  - unfold deliver in *. simpl fold_left. rewrite IH.
    unfold midi_callback. simpl. rewrite <- app_assoc. simpl.
    now rewrite Nat.add_succ_r.
Qed.

(** X4.  The callback puts each message at the tail of the queue with
    the reading of [perf_counter] at its delivery and touches nothing
    else.  Messages that are not taps, delivered to a recorder with an
    empty queue, are then processed by the loop in the order of delivery
    with those time stamps. *)
Theorem delivered_in_order (msgs : list Message) (r : MidiRecorder) :
  deliver msgs r
  = set_reads (reads r + List.length msgs)
      (set_message_queue (message_queue r ++ stamped_from (reads r) msgs) r)
  /\ (message_queue r = [] ->
      Forall (fun m => is_tap_msg m = false) msgs ->
      process_message_queue (deliver msgs r)
      = (Z.of_nat (List.length msgs),
         process_all (stamped_from (reads r) msgs)
           (set_reads (reads r + List.length msgs) r))).
Proof.
  split; [apply deliver_spec|]. intros Hq Hall.
  assert (Hs : forall k, Forall (fun e => is_tap_msg (fst e) = false)
                           (stamped_from k msgs)).
  { induction Hall as [|m l Hm Hl IH]; intro k; simpl; constructor; auto. }
  assert (Hlen : forall k, List.length (stamped_from k msgs) = List.length msgs).
  { clear. induction msgs as [|m l IH]; intro k; simpl; auto. }
  set (st := stamped_from (reads r) msgs).
  set (R := set_reads (reads r + List.length msgs) r).
  assert (ED : deliver msgs r = set_message_queue st R).
  { rewrite deliver_spec, Hq. reflexivity. }
  assert (ER : R = set_message_queue [] R).
  { subst R. destruct r; simpl in *. now subst. }
  rewrite ED, process_message_queue_fifo by apply Hs.
  simpl message_queue. subst st. rewrite Hlen. f_equal.
  rewrite process_all_set_queue by apply Hs.
  rewrite ER at 2. rewrite process_all_set_queue by apply Hs. reflexivity.
Qed.

(** ** Stopping with a message queued *)

(** [stop_recording()] from the point where the queue has been
    processed, when the recorder holds a file then. *)
Lemma stop_recording_body_after g sfx r x f tr :
  recording r = true ->
  g (set_recording false r) = x ->
  current_file x = Some f ->
  current_track x = Some tr ->
  let q := stop_recording_body g sfx false false r in
  let tr' := tr ++ stamp (last_message_time x)
                     (buffer (low_note_state x) ++ buffer (high_note_state x)) in
  recording q = recording x
  /\ current_file q = None
  /\ current_track q = None
  /\ low_note_state q = empty_shortcut
  /\ high_note_state q = empty_shortcut
  /\ message_queue q = message_queue x
  /\ in_low_power q = in_low_power x
  /\ governor_log q = governor_log x
  /\ saved_files q =
     saved_files x ++
     (if (1 <? List.length tr')%nat
      then [mkSaved sfx (ticks_per_beat f) tr'] else []).
Proof.
  intros Hr Hg Hf Ht q tr'. subst q tr'.
  unfold stop_recording_body. rewrite Hr. simpl negb. cbv iota.
  rewrite Hg. unfold flush_shortcut_buffers.
  rewrite (flush_buffer_Some Low x tr Ht).
  erewrite flush_buffer_Some by reflexivity.
  destruct x as [rec la cf ct sst fmt lmt lp mq lo hi sv gl rd].
  simpl in *. subst.
  rewrite stamp_app, app_assoc.
  destruct (1 <? _)%nat; simpl; repeat split. now rewrite app_nil_r.
Qed.

Lemma process_message_queue_single (r : MidiRecorder) (m : Message) (ts : Q) :
  message_queue r = [(m, ts)] ->
  process_message_queue r
  = (1, process_midi_message m ts (set_message_queue [] r)).
Proof.
  intro H. unfold process_message_queue. rewrite H. simpl. now rewrite H.
Qed.

(** An unrelated message that finds no session running starts one: the
    counted buffers go to the new track before it. *)
Lemma unrelated_starts_session (r : MidiRecorder) (m : Message) (ts : Q) :
  recording r = false ->
  unrelated m = true ->
  ignored m = false ->
  let x := process_midi_message m ts r in
  recording x = true
  /\ current_file x = Some (mkMidiFile TICKS_PER_BEAT)
  /\ current_track x =
     Some (set_tempo DEFAULT_TEMPO 0
           :: stamp None
                ((counted_buffer Low r ++ counted_buffer High r) ++ [(m, ts)]))
  /\ last_message_time x = Some ts
  /\ (forall w, get_state w x = counted_state w r)
  /\ saved_files x = saved_files r
  /\ message_queue x = message_queue r.
Proof.
  intros Hr Hu Hi x. subst x.
  rewrite (process_midi_message_prepare m ts r Hi).
  rewrite (handle_shortcuts_unrelated m ts _ Hu). simpl fst. simpl snd.
  simpl negb. cbv iota.
  destruct (prepare_facts ts r) as (P1 & P2 & P3 & P4 & P5 & P6 & P7 & P8 & P9).
  unfold session_file, session_track, session_last in P3, P4, P5.
  rewrite Hr in P3, P4, P5.
  destruct (flush_both_fields (prepare ts r) _ P4)
    as (F1 & F2 & F3 & F4 & F5 & F6 & F7).
  assert (CB : forall w, counted_buffer w (prepare ts r) = counted_buffer w r).
  { intro w. unfold counted_buffer. now rewrite prepare_get_state. }
  assert (CS : forall w, counted_state w (prepare ts r) = counted_state w r).
  { intro w. unfold counted_state. now rewrite prepare_get_state. }
  rewrite !CB, P5 in F1, F2.
  generalize dependent (flush_counted High (flush_counted Low (prepare ts r))).
  intros q F1 F2 F3 F4 F5 F6 F7.
  rewrite (write_message_Some m ts q _ F1).
  split; [simpl; congruence|]. split; [simpl; congruence|].
  split.
  { simpl current_track. rewrite F2.
    rewrite (stamp_app (counted_buffer Low r ++ counted_buffer High r)
               [(m, ts)]).
    reflexivity. }
  split; [reflexivity|]. split.
  { intro w. rewrite <- CS, <- F3. destruct w; reflexivity. }
  split; simpl; congruence.
Qed.

(** X5.  [stop_recording()] clears [recording] before it processes the
    queue.  If an unrelated message is queued when a running session is
    stopped, that message starts a new track inside the stop: the file
    saved holds the tempo entry, the counted buffers, the queued message
    and the rest of the buffers, and nothing of the track recorded so
    far; afterwards [recording] is true and there is no track. *)
Theorem stop_with_queued_message_restarts sfx r m ts :
  recording r = true ->
  message_queue r = [(m, ts)] ->
  unrelated m = true ->
  ignored m = false ->
  let r' := stop_recording sfx false false r in
  recording r' = true
  /\ current_track r' = None
  /\ current_file r' = None
  /\ message_queue r' = []
  /\ saved_files r' =
     saved_files r ++
     [mkSaved sfx TICKS_PER_BEAT
        (set_tempo DEFAULT_TEMPO 0
         :: stamp None
              ((counted_buffer Low r ++ counted_buffer High r) ++ [(m, ts)]
               ++ buffer (counted_state Low r)
               ++ buffer (counted_state High r)))].
Proof.
  intros Hr Hq Hu Hi r'. subst r'.
  pose proof (process_message_queue_single (set_recording false r) m ts Hq) as Hx.
  destruct (unrelated_starts_session
              (set_message_queue [] (set_recording false r)) m ts
              eq_refl Hu Hi)
    as (X1 & X2 & X3 & X4 & X5 & X6 & X7).
  cbv zeta in X1, X2, X3, X4, X5, X6, X7.
  change (counted_buffer Low (set_message_queue [] (set_recording false r)))
    with (counted_buffer Low r) in X3.
  change (counted_buffer High (set_message_queue [] (set_recording false r)))
    with (counted_buffer High r) in X3.
  assert (X5' : forall w,
             get_state w (process_midi_message m ts
                            (set_message_queue [] (set_recording false r)))
             = counted_state w r) by exact X5.
  clear X5. rename X5' into X5.
  change (saved_files (set_message_queue [] (set_recording false r)))
    with (saved_files r) in X6.
  change (message_queue (set_message_queue [] (set_recording false r)))
    with (@nil (Message * Q)) in X7.
  assert (Hg : (fun r => snd (process_message_queue r)) (set_recording false r)
               = process_midi_message m ts
                   (set_message_queue [] (set_recording false r)))
    by (cbv beta; now rewrite Hx).
  revert Hg X1 X2 X3 X4 X5 X6 X7.
  generalize (process_midi_message m ts
                (set_message_queue [] (set_recording false r))).
  intros x Hg X1 X2 X3 X4 X5 X6 X7.
  destruct (stop_recording_body_after (fun r => snd (process_message_queue r))
              sfx r x _ _ Hr Hg X2 X3)
    as (S1 & S2 & S3 & _ & _ & S6 & _ & _ & S9).
  cbv zeta in S9. fold (stop_recording sfx false false r) in *.
  pose proof (X5 Low) as XBL. pose proof (X5 High) as XBH.
  unfold get_state in XBL, XBH.
  rewrite X4, XBL, XBH, X6 in S9.
  split; [congruence|]. split; [exact S3|]. split; [exact S2|].
  split; [congruence|].
  rewrite S9.
  match goal with
  | |- context [(1 <? ?n)%nat] =>
      assert (L : (1 <? n)%nat = true)
  end.
  { apply Nat.ltb_lt. simpl List.length. rewrite !length_app, !stamp_length.
    rewrite !length_app. simpl. lia. }
  rewrite L. f_equal. f_equal. f_equal.
  rewrite (app_assoc (counted_buffer Low r ++ counted_buffer High r) [(m, ts)]).
  rewrite (stamp_app ((counted_buffer Low r ++ counted_buffer High r) ++ [(m, ts)])).
  rewrite last_stamp_app. reflexivity.
Qed.

(** ** Messages that find no track *)

Lemma flush_counted_None (w : Which) (r : MidiRecorder) :
  current_track r = None ->
  current_track (flush_counted w r) = None
  /\ get_state w (flush_counted w r) = counted_state w r
  /\ get_state (other_note w) (flush_counted w r) = get_state (other_note w) r
  /\ saved_files (flush_counted w r) = saved_files r
  /\ recording (flush_counted w r) = recording r
  /\ last_message_time (flush_counted w r) = last_message_time r.
Proof.
  intro H. unfold flush_counted, counted_state.
  destruct (0 <? count (get_state w r)); [|tauto].
  rewrite (flush_buffer_None w r H), get_set_state, get_set_other.
  destruct w; simpl; tauto.
Qed.

(** X6.  While [recording] is true and there is no track (the state a
    stop with a queued message leaves, see X5), an unrelated message is
    accepted and lost: it is written to no track and to no file, and the
    taps counted in the buffers are dropped with it. *)
Theorem message_without_track_is_lost r m ts :
  recording r = true ->
  current_track r = None ->
  unrelated m = true ->
  ignored m = false ->
  let r' := process_midi_message m ts r in
  recording r' = true
  /\ current_track r' = None
  /\ saved_files r' = saved_files r
  /\ last_message_time r' = last_message_time r
  /\ (forall w, get_state w r' = counted_state w r).
Proof.
  intros Hr Ht Hu Hi r'. subst r'.
  rewrite (process_midi_message_prepare m ts r Hi).
  rewrite (handle_shortcuts_unrelated m ts _ Hu). simpl fst. simpl snd.
  simpl negb. cbv iota.
  destruct (prepare_facts ts r) as (P1 & _ & _ & P4 & P5 & P6 & P7 & P8 & _).
  unfold session_track, session_last in P4, P5. rewrite Hr in P4, P5.
  rewrite Ht in P4.
  assert (CS : forall w, counted_state w (prepare ts r) = counted_state w r).
  { intro w. unfold counted_state. now rewrite prepare_get_state. }
  destruct (flush_counted_None Low (prepare ts r) P4)
    as (L1 & L2 & L3 & L4 & L5 & L6).
  destruct (flush_counted_None High (flush_counted Low (prepare ts r)) L1)
    as (H1 & H2 & H3 & H4 & H5 & H6).
  simpl other_note in *.
  rewrite write_message_None by exact H1.
  split; [congruence|]. split; [exact H1|]. split; [congruence|].
  split; [congruence|].
  intros [|].
  - rewrite H3, L2. apply CS.
  - rewrite H2. unfold counted_state. rewrite L3.
    now rewrite prepare_get_state.
Qed.

(** ** The governor *)

Lemma write_message_power m ts r :
  power_state (write_message m ts r) = power_state r.
Proof. unfold write_message. now destruct (current_track r). Qed.

Lemma write_all_power (evs : list (Message * Q)) :
  forall r, power_state (write_all evs r) = power_state r.
Proof.
  induction evs as [|[m ts] evs IH]; intro r; [reflexivity|].
  unfold write_all in *. simpl. rewrite IH. apply write_message_power.
Qed.

Lemma flush_buffer_power w r :
  power_state (flush_buffer w r) = power_state r.
Proof.
  unfold flush_buffer.
  rewrite <- (write_all_power (buffer (get_state w r)) r). now destruct w.
Qed.

Lemma flush_counted_power w r :
  power_state (flush_counted w r) = power_state r.
Proof.
  unfold flush_counted. destruct (0 <? _); [apply flush_buffer_power | reflexivity].
Qed.

Lemma stop_recording_body_power g sfx sq sb r :
  (forall x, power_state (g x) = power_state x) ->
  power_state (stop_recording_body g sfx sq sb r) = power_state r.
Proof.
  intro Hg. unfold stop_recording_body.
  destruct (recording r); simpl negb; cbv iota; [|reflexivity].
  assert (E1 : power_state (if sq then set_message_queue [] (set_recording false r)
                            else g (set_recording false r)) = power_state r).
  { destruct sq; [reflexivity | now rewrite Hg]. }
  generalize dependent (if sq then set_message_queue [] (set_recording false r)
                        else g (set_recording false r)).
  intros r1 E1.
  assert (E2 : power_state (if negb sb then flush_shortcut_buffers r1
                            else set_high_note_state empty_shortcut
                                   (set_low_note_state empty_shortcut r1))
               = power_state r).
  { destruct sb; simpl negb; cbv iota; [exact E1|].
    unfold flush_shortcut_buffers. now rewrite !flush_buffer_power. }
  generalize dependent (if negb sb then flush_shortcut_buffers r1
                        else set_high_note_state empty_shortcut
                               (set_low_note_state empty_shortcut r1)).
  intros r2 E2.
  destruct (current_file r2); [|exact E2].
  destruct (current_track r2); [|exact E2].
  destruct (1 <? _)%nat; exact E2.
Qed.

Lemma shortcut_body_power w m ts r :
  power_state (snd (shortcut_body w m ts r)) = power_state r.
Proof.
  unfold shortcut_body.
  match goal with
  | |- context [if ?c then flush_buffer w r else r] =>
      assert (H1 : power_state (if c then flush_buffer w r else r) = power_state r)
        by (destruct c; [apply flush_buffer_power | reflexivity]);
      generalize dependent (if c then flush_buffer w r else r)
  end.
  intros r1 H1. rewrite <- H1.
  destruct (MsgType_eqb (type m) note_on).
  - destruct (3 <=? _); simpl snd.
    + rewrite stop_recording_body_power by reflexivity. now destruct w.
    + now destruct w.
  - simpl snd. now destruct w.
Qed.

Lemma handle_shortcuts_power m ts r :
  power_state (snd (handle_shortcuts m ts r)) = power_state r.
Proof.
  unfold handle_shortcuts.
  assert (F : power_state (flush_counted High (flush_counted Low r))
              = power_state r) by now rewrite !flush_counted_power.
  destruct (_ || _); simpl; [|exact F].
  destruct (note m =? LOW_BLACK_NOTE); [apply shortcut_body_power|].
  destruct (note m =? HIGH_BLACK_NOTE); [apply shortcut_body_power | exact F].
Qed.

Lemma prepare_power ts r :
  power_state (prepare ts r)
  = if recording r && in_low_power r
    then (false, governor_log r ++ [ondemand])
    else (false, governor_log r).
Proof.
  unfold prepare, start_recording, exit_low_power_mode, power_state.
  destruct r as [rec la cf ct sst fmt lmt lp mq lo hi sv gl rd].
  destruct rec, lp; reflexivity.
Qed.

(** X7.  A message that starts a session, also one that finds the
    recorder in low-power mode, clears the low-power flag and sends no
    command to the governor: [start_recording] resets [in_low_power]
    before [process_midi_message] tests it, so [exit_low_power_mode] is
    not called and the governor is left on powersave.  The ondemand
    command is sent only when a message finds [recording] and
    [in_low_power] both true. *)
Theorem session_start_sends_no_governor_command r m ts :
  ignored m = false ->
  let r' := process_midi_message m ts r in
  in_low_power r' = false
  /\ (recording r = false -> governor_log r' = governor_log r)
  /\ governor_log r' =
     if recording r && in_low_power r
     then governor_log r ++ [ondemand] else governor_log r.
Proof.
  intros Hi r'. subst r'.
  assert (E : power_state (process_midi_message m ts r)
              = power_state (prepare ts r)).
  { rewrite (process_midi_message_prepare m ts r Hi).
    destruct (fst _); simpl negb; cbv iota.
    - apply handle_shortcuts_power.
    - rewrite write_message_power. apply handle_shortcuts_power. }
  rewrite prepare_power in E. unfold power_state in E.
  destruct (recording r && in_low_power r) eqn:B; injection E as E1 E2.
  - split; [exact E1|]. split; [|exact E2].
    intro Hr. rewrite Hr in B. discriminate.
  - split; [exact E1|]. split; [|exact E2]. intros _. exact E2.
Qed.

(** ** Shutdown *)

(** X8.  A signal that finds a session running and nothing queued saves
    the session with everything that still waits in the two shortcut
    buffers written as ordinary events, the low note's buffer first:
    fewer than three taps are never dropped by a shutdown.  No command
    goes to the governor. *)
Theorem signal_saves_pending_buffers r f tr :
  recording r = true ->
  message_queue r = [] ->
  current_file r = Some f ->
  current_track r = Some tr ->
  let r' := signal_handler r in
  let tr' := tr ++ stamp (last_message_time r)
                     (buffer (low_note_state r) ++ buffer (high_note_state r)) in
  recording r' = false
  /\ current_track r' = None
  /\ low_note_state r' = empty_shortcut
  /\ high_note_state r' = empty_shortcut
  /\ governor_log r' = governor_log r
  /\ saved_files r' =
     saved_files r ++
     (if (1 <? List.length tr')%nat
      then [mkSaved EmptyString (ticks_per_beat f) tr'] else [])
  /\ (tr <> [] ->
      buffer (low_note_state r) ++ buffer (high_note_state r) <> [] ->
      saved_files r' = saved_files r ++ [mkSaved EmptyString (ticks_per_beat f) tr']).
Proof.
  intros Hr Hq Hf Ht r' tr'. subst r'. unfold signal_handler.
  destruct (stop_flush EmptyString r f tr Hr Hq Hf Ht)
    as (S1 & S2 & S3 & S4 & S5 & S6 & S7 & S8 & S9).
  cbv zeta in S9. fold tr' in S9.
  repeat (split; [assumption|]).
  intros Htr Hne. rewrite S9.
  assert (L : (1 <? List.length tr')%nat = true).
  { apply Nat.ltb_lt. subst tr'. rewrite length_app, stamp_length.
    destruct tr; [now elim Htr|].
    destruct (buffer (low_note_state r) ++ buffer (high_note_state r));
      [now elim Hne|]. simpl. lia. }
  now rewrite L.
Qed.

(** ** A tap after the timeout *)

(** X9.  A tap on a reserved note that comes more than the shortcut
    timeout after the previous tap never completes the gesture, whatever
    the count was: what waited in the buffer of that note is written to
    the track as ordinary events, and the tap starts a new buffer with
    count 1.  The other reserved note's state and the saved files are
    not touched. *)
Theorem stale_tap_flushes_and_restarts w r f tr m ts :
  session_file r = Some f ->
  session_track r = Some tr ->
  is_tap w m ->
  0 < count (get_state w r) ->
  (SHORTCUT_TIMEOUT < ts - last_time (get_state w r))%Q ->
  let r' := process_midi_message m ts r in
  recording r' = true
  /\ current_track r' =
     Some (tr ++ stamp (session_last r) (buffer (get_state w r)))
  /\ last_message_time r' =
     last_stamp (session_last r) (buffer (get_state w r))
  /\ get_state w r' = mkShortcut 1 [(m, ts)] ts
  /\ get_state (other_note w) r' = get_state (other_note w) r
  /\ saved_files r' = saved_files r.
Proof.
  intros Hf Htr Hm Hc Ht r'. subst r'.
  assert (Hp : pending w f tr (session_last r) (saved_files r)
                 (get_state w r) (get_state (other_note w) r) r)
    by (unfold pending; tauto).
  destruct (pending_prepare w f tr _ _ _ _ r ts Hp) as [Ho _].
  destruct Ho as (P1 & P2 & P3 & P4 & P5 & P6 & P7).
  rewrite (process_midi_message_prepare m ts r (tap_not_ignored w m Hm)).
  rewrite (handle_shortcuts_reserved w m ts _ (tap_on_reserved w m Hm)).
  rewrite (shortcut_body_stale w m ts _ (proj1 Hm))
    by (rewrite P6; assumption).
  simpl fst. simpl snd. simpl negb. cbv iota.
  rewrite (flush_buffer_Some w _ tr P3), P4, P6.
  generalize dependent (prepare ts r). intros p P1 P2 P3 P4 P5 P6 P7.
  rewrite get_set_state, get_set_other.
  destruct w; simpl; repeat split; assumption.
Qed.

(** ** The buffers and their counts *)

Lemma buffers_ok_ext (r r' : MidiRecorder) :
  (forall w, get_state w r' = get_state w r) ->
  buffers_ok r -> buffers_ok r'.
Proof. intros E H w. rewrite E. apply H. Qed.

Lemma buffer_ok_empty (w : Which) : buffer_ok w empty_shortcut.
Proof. repeat split; simpl; [constructor | lia]. Qed.

Lemma write_all_buffers_ok evs r :
  buffers_ok r -> buffers_ok (write_all evs r).
Proof. apply buffers_ok_ext. intro w. apply write_all_get_state. Qed.

Lemma set_state_buffers_ok w s r :
  buffer_ok w s -> buffers_ok r -> buffers_ok (set_state w s r).
Proof.
  intros Hs H w'. destruct w, w'; simpl; try exact Hs; apply (H Low) || apply (H High).
Qed.

Lemma flush_buffer_buffers_ok w r :
  buffers_ok r -> buffers_ok (flush_buffer w r).
Proof.
  intro H. unfold flush_buffer.
  apply set_state_buffers_ok; [apply buffer_ok_empty|].
  now apply write_all_buffers_ok.
Qed.

Lemma flush_counted_buffers_ok w r :
  buffers_ok r -> buffers_ok (flush_counted w r).
Proof.
  intro H. unfold flush_counted.
  destruct (0 <? _); [now apply flush_buffer_buffers_ok | exact H].
Qed.

Lemma stop_recording_body_buffers_ok g sfx sq sb r :
  (forall x, buffers_ok x -> buffers_ok (g x)) ->
  buffers_ok r -> buffers_ok (stop_recording_body g sfx sq sb r).
Proof.
  intros Hg H. unfold stop_recording_body.
  destruct (recording r); simpl negb; cbv iota; [|exact H].
  assert (H1 : buffers_ok (if sq then set_message_queue [] (set_recording false r)
                           else g (set_recording false r))).
  { destruct sq; [|apply Hg]; revert H; apply buffers_ok_ext; now intros [|]. }
  generalize dependent (if sq then set_message_queue [] (set_recording false r)
                        else g (set_recording false r)).
  intros r1 H1.
  assert (H2 : buffers_ok (if negb sb then flush_shortcut_buffers r1
                           else set_high_note_state empty_shortcut
                                  (set_low_note_state empty_shortcut r1))).
  { destruct sb; simpl negb; cbv iota.
    - intros [|]; apply buffer_ok_empty.
    - unfold flush_shortcut_buffers.
      now apply flush_buffer_buffers_ok, flush_buffer_buffers_ok. }
  generalize dependent (if negb sb then flush_shortcut_buffers r1
                        else set_high_note_state empty_shortcut
                               (set_low_note_state empty_shortcut r1)).
  intros r2 H2. revert H2. apply buffers_ok_ext. intro w.
  destruct (current_file r2); [|now destruct w].
  destruct (current_track r2); [|now destruct w].
  destruct (1 <? _)%nat; now destruct w.
Qed.

Lemma stop_skip_buffers_ok g sfx r :
  recording r = true ->
  buffers_ok (stop_recording_body g sfx true true r).
Proof.
  intro Hr. destruct (stop_skip_states g sfx r Hr) as (_ & L & H).
  intros [|]; simpl; [rewrite L | rewrite H]; apply buffer_ok_empty.
Qed.

Lemma flush_buffer_recording w r :
  recording (flush_buffer w r) = recording r.
Proof.
  unfold flush_buffer.
  assert (E : forall evs x, recording (write_all evs x) = recording x).
  { induction evs as [|[m ts] evs IH]; intro x; [reflexivity|].
    unfold write_all in *. simpl. rewrite IH. unfold write_message.
    now destruct (current_track x). }
  rewrite <- (E (buffer (get_state w r)) r). now destruct w.
Qed.

Lemma shortcut_body_buffers_ok w m ts r :
  recording r = true ->
  on_reserved w m = true ->
  buffers_ok r -> buffers_ok (snd (shortcut_body w m ts r)).
Proof.
  intros Hr Hm H. unfold shortcut_body.
  match goal with
  | |- context [if ?c then flush_buffer w r else r] =>
      assert (H1 : buffers_ok (if c then flush_buffer w r else r))
        by (destruct c; [now apply flush_buffer_buffers_ok | exact H]);
      assert (R1 : recording (if c then flush_buffer w r else r) = true)
        by (destruct c; [now rewrite flush_buffer_recording | exact Hr]);
      generalize dependent (if c then flush_buffer w r else r)
  end.
  intros r1 H1 R1.
  destruct (H1 w) as (B1 & B2 & B3).
  destruct (MsgType_eqb (type m) note_on) eqn:Ty.
  - simpl count. simpl buffer.
    destruct (3 <=? count (get_state w r1) + 1) eqn:C3; simpl snd.
    + apply stop_skip_buffers_ok. now destruct w.
    + apply set_state_buffers_ok; [|exact H1].
      apply Z.leb_gt in C3. repeat split; simpl.
      * apply Forall_app. split; [exact B1|]. constructor; [exact Hm|constructor].
      * rewrite filter_app, length_app. simpl. rewrite Ty. simpl. lia.
      * lia.
  - simpl snd. apply set_state_buffers_ok; [|exact H1].
    repeat split; simpl.
    + apply Forall_app. split; [exact B1|]. constructor; [exact Hm|constructor].
    + rewrite filter_app, length_app. simpl. rewrite Ty. simpl. lia.
    + exact B3.
Qed.

Lemma handle_shortcuts_buffers_ok m ts r :
  recording r = true ->
  buffers_ok r -> buffers_ok (snd (handle_shortcuts m ts r)).
Proof.
  intros Hr H. unfold handle_shortcuts.
  assert (F : buffers_ok (flush_counted High (flush_counted Low r)))
    by now apply flush_counted_buffers_ok, flush_counted_buffers_ok.
  destruct (MsgType_eqb (type m) note_on || MsgType_eqb (type m) note_off) eqn:N;
    simpl; [|exact F].
  destruct (note m =? LOW_BLACK_NOTE) eqn:EL.
  { apply shortcut_body_buffers_ok; try assumption.
    unfold on_reserved, is_note. now rewrite N. }
  destruct (note m =? HIGH_BLACK_NOTE) eqn:EH; [|exact F].
  apply shortcut_body_buffers_ok; try assumption.
  unfold on_reserved, is_note. now rewrite N.
Qed.

Lemma process_midi_message_buffers_ok m ts r :
  buffers_ok r -> buffers_ok (process_midi_message m ts r).
Proof.
  intro H. destruct (ignored m) eqn:Hi.
  - now rewrite process_midi_message_ignored.
  - rewrite (process_midi_message_prepare m ts r Hi).
    assert (Hp : buffers_ok (prepare ts r)).
    { revert H. apply buffers_ok_ext. intro w. apply prepare_get_state. }
    assert (Rp : recording (prepare ts r) = true) by apply prepare_facts.
    pose proof (handle_shortcuts_buffers_ok m ts _ Rp Hp) as Hh.
    destruct (fst _); simpl negb; cbv iota; [exact Hh|].
    revert Hh. apply buffers_ok_ext. intro w. apply write_message_get_state.
Qed.

Lemma process_queue_loop_buffers_ok (fuel : nat) :
  forall n r, buffers_ok r -> buffers_ok (snd (process_queue_loop fuel n r)).
Proof.
  induction fuel as [|fuel IH]; intros n r H; [exact H|].
  simpl. destruct (message_queue r) as [|[m ts] rest]; [exact H|].
  apply IH, process_midi_message_buffers_ok.
  revert H. apply buffers_ok_ext. now intros [|].
Qed.

Lemma stop_recording_buffers_ok sfx sq sb r :
  buffers_ok r -> buffers_ok (stop_recording sfx sq sb r).
Proof.
  apply stop_recording_body_buffers_ok. intros x Hx.
  now apply process_queue_loop_buffers_ok.
Qed.

Lemma check_session_timeout_buffers_ok r :
  buffers_ok r -> buffers_ok (check_session_timeout r).
Proof.
  intro H. unfold check_session_timeout.
  destruct (_ && _); [|exact H].
  destruct (last_activity r) as [a|]; [|exact H]. simpl.
  assert (H0 : buffers_ok (set_reads (S (reads r)) r))
    by (revert H; apply buffers_ok_ext; now intros [|]).
  destruct (Qgtb _ _); [|exact H0].
  pose proof (stop_recording_buffers_ok EmptyString false false _ H0) as Hs.
  unfold enter_low_power_mode.
  destruct (negb _); [|exact Hs].
  revert Hs. apply buffers_ok_ext. now intros [|].
Qed.

Lemma exec_buffers_ok (s : Q * MidiRecorder) (a : Action) :
  buffers_ok (snd s) -> buffers_ok (snd (exec s a)).
Proof.
  destruct s as [lqc r]. simpl snd. intro H.
  destruct a as [m| | | |]; simpl.
  - revert H. apply buffers_ok_ext. now intros [|].
  - revert H. apply buffers_ok_ext. now intros [|].
  - unfold run_iteration. simpl.
    assert (H0 : buffers_ok (set_reads (S (reads r)) r))
      by (revert H; apply buffers_ok_ext; now intros [|]).
    pose proof (process_queue_loop_buffers_ok
                  (List.length (message_queue r)) 0 _ H0) as Hq.
    unfold process_message_queue. simpl message_queue.
    destruct (Qgtb _ _); simpl snd; [|exact Hq].
    now apply check_session_timeout_buffers_ok.
  - now apply check_session_timeout_buffers_ok.
  - now apply stop_recording_buffers_ok.
Qed.

Lemma run_buffers_ok (acts : list Action) :
  forall s, buffers_ok (snd s) -> buffers_ok (snd (fold_left exec acts s)).
Proof.
  induction acts as [|a acts IH]; intros s H; [exact H|].
  simpl. apply IH. now apply exec_buffers_ok.
Qed.

(** X10.  However the process runs, each shortcut buffer holds note
    messages of its own reserved note only, its count is the number of
    [note_on] among them, and that number is 0, 1 or 2: a buffer with
    count 0 holds released notes only, and a third tap never stays in a
    buffer. *)
Theorem shortcut_buffers_in_step (acts : list Action) (w : Which) :
  let s := get_state w (snd (run acts)) in
  Forall (fun e => is_note (fst e) = true /\ note (fst e) = note_of w) (buffer s)
  /\ count s =
     Z.of_nat (List.length
                 (filter (fun e => MsgType_eqb (type (fst e)) note_on) (buffer s)))
  /\ 0 <= count s <= 2
  /\ (count s = 0 ->
      Forall (fun e => type (fst e) = note_off) (buffer s)).
Proof.
  intro s.
  assert (H : buffers_ok (snd (run acts))).
  { apply run_buffers_ok. intros [|]; apply buffer_ok_empty. }
  destruct (H w) as (B1 & B2 & B3). fold s in B1, B2, B3.
  assert (B1' : Forall (fun e => is_note (fst e) = true
                                 /\ note (fst e) = note_of w) (buffer s)).
  { eapply Forall_impl; [|exact B1]. intros e He.
    unfold on_reserved in He. apply andb_true_iff in He.
    destruct He as [He1 He2]. split; [exact He1 | now apply Z.eqb_eq]. }
  split; [exact B1'|]. split; [exact B2|]. split; [lia|].
  intro Hc. rewrite Hc in B2.
  revert B1' B2. generalize (buffer s). intro l.
  induction l as [|e l IH]; intros Hall Hlen; constructor.
  - inversion Hall as [|x y [Hn _] Hl]; subst.
    simpl in Hlen. unfold is_note in Hn.
    destruct (type (fst e)); simpl in *; try discriminate; try reflexivity; lia.
  - inversion Hall; subst. apply IH; [assumption|].
    simpl in Hlen. destruct (MsgType_eqb (type (fst e)) note_on);
      simpl in Hlen; [lia | exact Hlen].
Qed.

(** ** Methods that read no clock do not look at clock readings *)

Lemma write_message_clock_free m ts r :
  write_message m ts (clock_free r) = clock_free (write_message m ts r).
Proof.
  unfold write_message. simpl. now destruct (current_track r).
Qed.

Lemma write_all_clock_free (evs : list (Message * Q)) :
  forall r, write_all evs (clock_free r) = clock_free (write_all evs r).
Proof.
  induction evs as [|[m ts] evs IH]; intro r; [reflexivity|].
  unfold write_all in *. simpl. rewrite write_message_clock_free. apply IH.
Qed.

Lemma flush_buffer_clock_free w r :
  flush_buffer w (clock_free r) = clock_free (flush_buffer w r).
Proof.
  unfold flush_buffer.
  replace (get_state w (clock_free r)) with (get_state w r) by now destruct w.
  rewrite write_all_clock_free. now destruct w.
Qed.

Lemma flush_counted_clock_free w r :
  flush_counted w (clock_free r) = clock_free (flush_counted w r).
Proof.
  unfold flush_counted.
  replace (get_state w (clock_free r)) with (get_state w r) by now destruct w.
  destruct (0 <? _); [apply flush_buffer_clock_free | reflexivity].
Qed.

Lemma stop_skip_clock_free sfx r :
  stop_recording_body (fun r => r) sfx true true (clock_free r)
  = clock_free (stop_recording_body (fun r => r) sfx true true r).
Proof.
  unfold stop_recording_body. simpl.
  destruct (recording r); simpl; [|reflexivity].
  destruct (current_file r); [|reflexivity].
  destruct (current_track r); [|reflexivity].
  destruct (1 <? _)%nat; reflexivity.
Qed.

Lemma shortcut_body_clock_free w m ts r :
  fst (shortcut_body w m ts (clock_free r)) = fst (shortcut_body w m ts r)
  /\ snd (shortcut_body w m ts (clock_free r))
     = clock_free (snd (shortcut_body w m ts r)).
Proof.
  unfold shortcut_body.
  replace (get_state w (clock_free r)) with (get_state w r) by now destruct w.
  match goal with
  | |- context [if ?c then flush_buffer w r else r] =>
      assert (E : (if c then flush_buffer w (clock_free r) else clock_free r)
                  = clock_free (if c then flush_buffer w r else r))
        by (destruct c; [apply flush_buffer_clock_free | reflexivity]);
      rewrite E; clear E;
      generalize (if c then flush_buffer w r else r)
  end.
  intro r1.
  replace (get_state w (clock_free r1)) with (get_state w r1) by now destruct w.
  destruct (MsgType_eqb (type m) note_on).
  - destruct (3 <=? _); simpl fst; simpl snd; split; try reflexivity.
    + rewrite <- stop_skip_clock_free. now destruct w.
    + now destruct w.
  - simpl. split; [reflexivity | now destruct w].
Qed.

Lemma handle_shortcuts_clock_free m ts r :
  fst (handle_shortcuts m ts (clock_free r)) = fst (handle_shortcuts m ts r)
  /\ snd (handle_shortcuts m ts (clock_free r))
     = clock_free (snd (handle_shortcuts m ts r)).
Proof.
  unfold handle_shortcuts.
  assert (F : flush_counted High (flush_counted Low (clock_free r))
              = clock_free (flush_counted High (flush_counted Low r)))
    by now rewrite !flush_counted_clock_free.
  destruct (_ || _); simpl; [|now rewrite F].
  destruct (note m =? LOW_BLACK_NOTE); [apply shortcut_body_clock_free|].
  destruct (note m =? HIGH_BLACK_NOTE); [apply shortcut_body_clock_free|].
  simpl. now rewrite F.
Qed.

Lemma clock_free_idem r : clock_free (clock_free r) = clock_free r.
Proof. reflexivity. Qed.

(** ** Choosing and watching the port *)

Lemma find_first {A : Type} (f : A -> bool) (l : list A) (x : A) :
  find f l = Some x ->
  f x = true
  /\ exists before after,
       l = before ++ x :: after /\ Forall (fun y => f y = false) before.
Proof.
  induction l as [|a l IH]; simpl; [discriminate|].
  destruct (f a) eqn:E.
  - intros [= <-]. split; [exact E|]. exists [], l. split; [reflexivity|constructor].
  - intro H. destruct (IH H) as (Hx & before & after & -> & Hb).
    split; [exact Hx|]. exists (a :: before), after.
    split; [reflexivity | now constructor].
Qed.

Lemma find_none_all {A : Type} (f : A -> bool) (l : list A) :
  find f l = None -> Forall (fun y => f y = false) l.
Proof.
  induction l as [|a l IH]; simpl; [constructor|].
  destruct (f a) eqn:E; [discriminate|]. intro H. constructor; auto.
Qed.

Lemma find_all_false {A : Type} (f : A -> bool) (l : list A) :
  Forall (fun y => f y = false) l -> find f l = None.
Proof.
  induction 1 as [|a l Ha Hl IH]; simpl; [reflexivity|]. now rewrite Ha.
Qed.

Lemma has_pia_truthy (p : string) : has_pia p = true -> truthy_name (Some p) = true.
Proof. destruct p; [discriminate | reflexivity]. Qed.

Lemma not_listed_In (p : string) (ports : list string) :
  not_listed (Some p) ports = false <-> In p ports.
Proof.
  unfold not_listed. rewrite negb_false_iff, existsb_exists. split.
  - intros (x & Hx & E). apply String.eqb_eq in E. now subst.
  - intro H. exists p. split; [exact H | apply String.eqb_refl].
Qed.

(** X12.  [find_midi_port] returns no port when the list of names cannot
    be read or is empty.  A port it returns is one of the listed names
    and was opened without an error; it is the first name that contains
    the letters pia in any case, or, when no name does, the first name
    of the list.  When every listed name can be opened and the list is
    not empty, it returns a port. *)
Theorem find_midi_port_policy (open_input : string -> bool) :
  find_midi_port None open_input = None
  /\ find_midi_port (Some []) open_input = None
  /\ (forall ports p,
         find_midi_port (Some ports) open_input = Some p ->
         In p ports
         /\ open_input p = true
         /\ ((has_pia p = true
              /\ exists before after,
                   ports = before ++ p :: after
                   /\ Forall (fun q => has_pia q = false) before)
             \/ (Forall (fun q => has_pia q = false) ports
                 /\ exists rest, ports = p :: rest)))
  /\ (forall ports,
         ports <> [] ->
         Forall (fun q => open_input q = true) ports ->
         exists p, find_midi_port (Some ports) open_input = Some p).
Proof.
  split; [reflexivity|]. split; [reflexivity|]. split.
  - intros ports p. unfold find_midi_port.
    destruct ports as [|first rest]; [discriminate|].
    destruct (find has_pia (first :: rest)) as [q|] eqn:F.
    + destruct (find_first _ _ _ F) as (Hq & before & after & E & Hb).
      rewrite (has_pia_truthy q Hq). simpl negb. cbv iota.
      destruct (open_input q) eqn:O; [|discriminate].
      intros [= <-]. split; [|split; [exact O|]].
      * rewrite E. apply in_or_app. right. now left.
      * left. split; [exact Hq|]. now exists before, after.
    + simpl truthy_name. simpl negb. cbv iota.
      destruct (open_input first) eqn:O; [|discriminate].
      intros [= <-]. split; [now left|]. split; [exact O|].
      right. split; [now apply find_none_all | now exists rest].
  - intros ports Hne Hall. unfold find_midi_port.
    destruct ports as [|first rest]; [now elim Hne|].
    set (chosen := if negb (truthy_name (find has_pia (first :: rest)))
                   then first
                   else match find has_pia (first :: rest) with
                        | Some p => p | None => first end).
    assert (Hin : In chosen (first :: rest)).
    { subst chosen. destruct (find has_pia (first :: rest)) as [q|] eqn:F.
      - destruct (negb _); [now left|].
        destruct (find_first _ _ _ F) as (_ & before & after & E & _).
        rewrite E. apply in_or_app. right. now left.
      - now left. }
    rewrite Forall_forall in Hall. rewrite (Hall _ Hin). now exists chosen.
Qed.

Lemma port_monitor_pass_ok names open_input st :
  monitor_ok st -> monitor_ok (snd (port_monitor_pass names open_input st)).
Proof.
  intros [H1 H2]. unfold port_monitor_pass.
  destruct names as [ports|]; [|split; assumption].
  destruct (_ || _); [|split; assumption].
  set (st1 := match midi_port st with
              | Some h => mkMonitor None (current_port_name st)
                            (closed_ports st ++ [h]) (opened_ports st)
              | None => st
              end).
  assert (M1 : midi_port st1 = None)
    by (subst st1; destruct (midi_port st) eqn:E; [reflexivity | exact E]).
  assert (O1 : opened_ports st1 = opened_ports st)
    by (subst st1; now destruct (midi_port st)).
  clearbody st1.
  destruct (find has_pia ports) as [p|] eqn:F.
  - destruct (find_first _ _ _ F) as (Hp & _).
    rewrite (has_pia_truthy p Hp).
    destruct (open_input p); simpl snd.
    + split; simpl.
      * intros q [= <-]. now split.
      * rewrite O1. apply Forall_app. split; [exact H2|]. now constructor.
    + split; [intros q Hq; rewrite M1 in Hq; discriminate | now rewrite O1].
  - simpl truthy_name. cbv iota. simpl snd. split; simpl.
    + intros q Hq. rewrite M1 in Hq. discriminate.
    + now rewrite O1.
Qed.

(** X13.  The monitor thread connects to ports that have the letters
    pia in their name (in any case) and to no others: in every state it
    reaches, an open port is the one [current_port_name] names and has
    those letters, and so has every port it ever opened.  It has no
    fallback: a pass that finds names listed but none with those letters
    opens nothing and, when no port was open, leaves [midi_port] and
    [current_port_name] at [None]. *)
Theorem monitor_connects_to_pia_ports_only :
  (forall world,
      let st := monitor_run world monitor_init in
      (forall p, midi_port st = Some p ->
                 current_port_name st = Some p /\ has_pia p = true)
      /\ Forall (fun p => has_pia p = true) (opened_ports st))
  /\ (forall ports open_input st,
         Forall (fun q => has_pia q = false) ports ->
         let st' := snd (port_monitor_pass (Some ports) open_input st) in
         opened_ports st' = opened_ports st
         /\ (midi_port st = None ->
             fst (port_monitor_pass (Some ports) open_input st) = 1%Q
             /\ midi_port st' = None
             /\ current_port_name st' = None)).
Proof.
  split.
  - intros world st. subst st. unfold monitor_run.
    assert (H0 : monitor_ok monitor_init)
      by (split; [discriminate | constructor]).
    revert H0. generalize monitor_init.
    induction world as [|[names op] world IH]; intros st H; [exact H|].
    simpl. apply IH. now apply port_monitor_pass_ok.
  - intros ports open_input st Hall st'. subst st'.
    unfold port_monitor_pass. rewrite (find_all_false _ _ Hall).
    split.
    + destruct (_ || _); [|reflexivity]. simpl.
      now destruct (midi_port st).
    + intro Hm. rewrite Hm. simpl. tauto.
Qed.

(** X14.  A pass of the monitor that finds the open port still listed
    changes nothing and sleeps one second.  A pass that finds it gone
    closes it and opens the first listed port with pia in its name; if
    that port cannot be opened, the pass ends with no port open, keeps
    the old name in [current_port_name] and sleeps two seconds, and a
    pass in which the list of names cannot be read changes nothing and
    sleeps two seconds. *)
Theorem monitor_keeps_or_replaces_port ports open_input st p :
  midi_port st = Some p ->
  current_port_name st = Some p ->
  (In p ports -> port_monitor_pass (Some ports) open_input st = (1%Q, st))
  /\ (forall p',
         ~ In p ports ->
         find has_pia ports = Some p' ->
         port_monitor_pass (Some ports) open_input st
         = if open_input p'
           then (1%Q, mkMonitor (Some p') (Some p')
                        (closed_ports st ++ [p]) (opened_ports st ++ [p']))
           else (2%Q, mkMonitor None (Some p)
                        (closed_ports st ++ [p]) (opened_ports st)))
  /\ port_monitor_pass None open_input st = (2%Q, st).
Proof.
  intros Hm Hc. split; [|split; [|reflexivity]].
  - intro Hin. unfold port_monitor_pass. rewrite Hm, Hc.
    apply not_listed_In in Hin. now rewrite Hin.
  - intros p' Hnot Hf. unfold port_monitor_pass. rewrite Hm, Hc.
    assert (E : not_listed (Some p) ports = true).
    { destruct (not_listed (Some p) ports) eqn:E; [reflexivity|].
      apply not_listed_In in E. contradiction. }
    rewrite E. simpl orb. cbv iota. rewrite Hf.
    destruct (find_first _ _ _ Hf) as (Hp & _).
    rewrite (has_pia_truthy p' Hp). simpl.
    now destruct (open_input p').
Qed.

(** ** File names *)

Lemma digit_code (d : Z) :
  0 <= d <= 9 -> nat_of_ascii (digit d) = (48 + Z.to_nat d)%nat.
Proof.
  intro H. unfold digit. apply nat_ascii_embedding. lia.
Qed.

Lemma digit_inj (a b : Z) :
  0 <= a <= 9 -> 0 <= b <= 9 -> digit a = digit b -> a = b.
Proof.
  intros Ha Hb H. apply (f_equal nat_of_ascii) in H.
  rewrite !digit_code in H by assumption. lia.
Qed.

Lemma digit_not_dot (d : Z) :
  0 <= d <= 9 -> Ascii.eqb (digit d) "." = false.
Proof.
  intro H. apply Ascii.eqb_neq. intro E.
  apply (f_equal nat_of_ascii) in E. rewrite digit_code in E by exact H.
  change (nat_of_ascii ".") with 46%nat in E. lia.
Qed.

Ltac div_lia := Z.to_euclidean_division_equations; lia.

Lemma pad2_inj (a b : Z) :
  0 <= a < 100 -> 0 <= b < 100 -> pad2 a = pad2 b -> a = b.
Proof.
  intros Ha Hb H. unfold pad2 in H. injection H as H1 H2.
  apply digit_inj in H1; [|div_lia|div_lia].
  apply digit_inj in H2; [|div_lia|div_lia].
  div_lia.
Qed.

Lemma pad4_inj (a b : Z) :
  0 <= a < 10000 -> 0 <= b < 10000 -> pad4 a = pad4 b -> a = b.
Proof.
  intros Ha Hb H. unfold pad4 in H. injection H as H1 H2 H3 H4.
  apply digit_inj in H1; [|div_lia|div_lia].
  apply digit_inj in H2; [|div_lia|div_lia].
  apply digit_inj in H3; [|div_lia|div_lia].
  apply digit_inj in H4; [|div_lia|div_lia].
  div_lia.
Qed.

Lemma pad2_append_inj (a b : Z) (x y : string) :
  (pad2 a ++ x = pad2 b ++ y)%string -> pad2 a = pad2 b /\ x = y.
Proof.
  unfold pad2. simpl. intro H. injection H as H1 H2 H3.
  split; congruence.
Qed.

Lemma pad2_no_dot (n : Z) (s : string) :
  0 <= n < 100 -> no_dot (pad2 n ++ s) = no_dot s.
Proof.
  intro H. unfold pad2. cbn [append no_dot].
  rewrite (digit_not_dot (n / 10)) by div_lia.
  rewrite (digit_not_dot (n mod 10)) by div_lia. reflexivity.
Qed.

Lemma pad2_no_dot_end (n : Z) : 0 <= n < 100 -> no_dot (pad2 n) = true.
Proof.
  intro H. unfold pad2. cbn [no_dot].
  rewrite (digit_not_dot (n / 10)) by div_lia.
  rewrite (digit_not_dot (n mod 10)) by div_lia. reflexivity.
Qed.

Lemma rfind_dot_extension (s : string) :
  no_dot s = true ->
  rfind_dot (s ++ ".mid") = Some (String.length s).
Proof.
  induction s as [|c s IH]; simpl; [reflexivity|].
  intro H. apply andb_true_iff in H. destruct H as [_ H].
  now rewrite (IH H).
Qed.

Lemma length_append (s t : string) :
  String.length (s ++ t) = (String.length s + String.length t)%nat.
Proof. induction s as [|c s IH]; simpl; [reflexivity | now rewrite IH]. Qed.

Lemma substring_head (s t : string) :
  substring 0 (String.length s) (s ++ t) = s.
Proof.
  induction s as [|c s IH]; simpl.
  - now destruct t.
  - now rewrite IH.
Qed.

Lemma substring_all (t : string) : substring 0 (String.length t) t = t.
Proof. induction t as [|c t IH]; simpl; [reflexivity | now rewrite IH]. Qed.

Lemma substring_tail (s t : string) :
  substring (String.length s) (String.length t) (s ++ t) = t.
Proof.
  induction s as [|c s IH]; simpl; [apply substring_all | exact IH].
Qed.

(** A name made of a dot-free, non-empty stem and the extension. *)
Lemma stem_and_suffix (s : string) :
  no_dot s = true ->
  s <> EmptyString ->
  name_stem_of (s ++ ".mid") = s /\ name_suffix_of (s ++ ".mid") = ".mid"%string.
Proof.
  intros Hd Hne. unfold name_stem_of, name_suffix_of.
  rewrite (rfind_dot_extension s Hd), length_append.
  assert (L : (0 < String.length s)%nat).
  { destruct s; [now elim Hne | simpl; lia]. }
  assert (C : ((0 <? String.length s)
               && (String.length s <? String.length s + String.length ".mid" - 1))%nat
              = true).
  { apply andb_true_iff. split; apply Nat.ltb_lt; simpl; lia. }
  rewrite C. split; [apply substring_head|].
  replace (String.length s + String.length ".mid" - String.length s)%nat
    with (String.length ".mid") by lia.
  apply substring_tail.
Qed.

Lemma string_app_inv_head (s x y : string) :
  (s ++ x = s ++ y)%string -> x = y.
Proof.
  induction s as [|c s IH]; simpl; [auto|]. intro H. injection H as H. auto.
Qed.

Lemma save_path_parts (now : DateTime) (sfx : string) :
  valid_time now ->
  save_path now sfx = session_dir now ++ [session_file_name now sfx].
Proof.
  intros (_ & _ & _ & Hh & Hm & Hs).
  unfold save_path, create_session_path. fold (session_dir now).
  destruct sfx as [|c sfx]; [reflexivity|].
  unfold with_name. rewrite removelast_last, last_last.
  set (stem := ("session_" ++ pad2 (hour now) ++ pad2 (minute now)
                ++ pad2 (second now))%string).
  assert (E : ("session_" ++ pad2 (hour now) ++ pad2 (minute now)
               ++ pad2 (second now) ++ ".mid")%string = (stem ++ ".mid")%string).
  { subst stem. reflexivity. }
  rewrite E.
  assert (Hd : no_dot stem = true).
  { subst stem.
    change (no_dot (pad2 (hour now) ++ pad2 (minute now) ++ pad2 (second now))
            = true).
    rewrite (pad2_no_dot (hour now)) by lia.
    rewrite (pad2_no_dot (minute now)) by lia.
    apply pad2_no_dot_end. lia. }
  assert (Hne : stem <> EmptyString) by (subst stem; discriminate).
  destruct (stem_and_suffix stem Hd Hne) as [-> ->].
  subst stem. reflexivity.
Qed.

(** X15.  For a date and time with a four-digit year, the file of a
    session is saved in the directory
    [BASE_DIR/YYYY/MM-Monthname/DD] under the name
    [session_HHMMSS<suffix>.mid]: the suffix goes between the time and
    the extension, the directory is the same with and without suffix,
    and without suffix the path is the one [create_session_path]
    returns. *)
Theorem saved_file_is_named_by_time_and_suffix (now : DateTime) (sfx : string) :
  valid_time now ->
  save_path now sfx = session_dir now ++ [session_file_name now sfx]
  /\ removelast (save_path now sfx) = removelast (create_session_path now)
  /\ last (save_path now sfx) EmptyString
     = ("session_" ++ pad2 (hour now) ++ pad2 (minute now) ++ pad2 (second now)
        ++ sfx ++ ".mid")%string
  /\ save_path now EmptyString = create_session_path now.
Proof.
  intro H. rewrite (save_path_parts now sfx H).
  split; [reflexivity|]. split; [|split].
  - rewrite removelast_last. unfold create_session_path.
    fold (session_dir now). now rewrite removelast_last.
  - now rewrite last_last.
  - reflexivity.
Qed.

(** X16.  Two stops are saved under the same path only if they fall in
    the same second of the same day and are of the same kind (forced
    stop and timeout, which have no suffix, or bookmark): files of
    different seconds never collide, and the path carries nothing finer
    than the second. *)
Theorem saved_paths_collide_only_within_a_second now1 now2 w1 w2 :
  valid_time now1 ->
  valid_time now2 ->
  save_path now1 (suffix_of w1) = save_path now2 (suffix_of w2) ->
  now1 = now2 /\ w1 = w2.
Proof.
  intros V1 V2 H.
  rewrite (save_path_parts now1 _ V1), (save_path_parts now2 _ V2) in H.
  destruct V1 as (Y1 & M1 & D1 & H1 & I1 & S1).
  destruct V2 as (Y2 & M2 & D2 & H2 & I2 & S2).
  unfold session_dir in H. rewrite <- !app_assoc in H.
  apply app_inv_head in H. cbn [app] in H.
  pose proof (f_equal (fun l => nth 0 l EmptyString) H) as Hy.
  pose proof (f_equal (fun l => nth 1 l EmptyString) H) as Hmo.
  pose proof (f_equal (fun l => nth 2 l EmptyString) H) as Hd.
  pose proof (f_equal (fun l => nth 3 l EmptyString) H) as Hn.
  cbn [nth] in Hy, Hmo, Hd, Hn. clear H.
  apply pad4_inj in Hy; [|lia|lia].
  apply pad2_append_inj in Hmo. destruct Hmo as [Hmo _].
  apply pad2_inj in Hmo; [|lia|lia].
  apply pad2_inj in Hd; [|lia|lia].
  unfold session_file_name in Hn.
  apply string_app_inv_head in Hn.
  apply pad2_append_inj in Hn. destruct Hn as [Hh Hn].
  apply pad2_append_inj in Hn. destruct Hn as [Hi Hn].
  apply pad2_append_inj in Hn. destruct Hn as [Hs Hn].
  apply pad2_inj in Hh; [|lia|lia].
  apply pad2_inj in Hi; [|lia|lia].
  apply pad2_inj in Hs; [|lia|lia].
  split.
  - destruct now1, now2; simpl in *. congruence.
  - destruct w1, w2; try reflexivity; discriminate Hn.
Qed.

(** ** Released reserved notes and stamps out of order *)

(** X17.  A [note_off] on a reserved note is never written when it
    arrives: it is put at the end of the buffer of its note, whether
    taps wait there or not.  For any number of such messages in a row
    the track, the previous time stamp, the count, the time of the last
    tap, the other note's state and the saved files stay as they are,
    so no number of them completes or breaks a gesture. *)
Theorem releases_wait_in_the_buffer w r f tr (offs : list (Message * Q)) :
  session_file r = Some f ->
  session_track r = Some tr ->
  Forall (fun e => is_release w (fst e)) offs ->
  let r' := process_all offs r in
  session_file r' = Some f
  /\ session_track r' = Some tr
  /\ session_last r' = session_last r
  /\ saved_files r' = saved_files r
  /\ get_state w r' =
     mkShortcut (count (get_state w r)) (buffer (get_state w r) ++ offs)
       (last_time (get_state w r))
  /\ get_state (other_note w) r' = get_state (other_note w) r.
Proof.
  intros Hf Htr Hall r'. subst r'.
  assert (Hp : pending w f tr (session_last r) (saved_files r)
                 (get_state w r) (get_state (other_note w) r) r)
    by (unfold pending; tauto).
  exact (releases_steps w f tr _ _ _ offs _ r Hp Hall).
Qed.

(** X18.  [write_message] measures every delta from the time stamp
    written last, also when that one is older than the one before it.
    An event whose time stamp lies before the previous write (a buffered
    release flushed late) gets delta 0 and moves the reference back, so
    the event after it gets the ticks of the whole interval since the
    older stamp: at least as many as its distance from the previous
    write and, for binary64 time stamps, more than the exact ticks of
    that longer interval less the rounding error [2^-51] and one tick.
    The track then places it later than it was played. *)
Theorem stamp_out_of_order_stretches_track r tr t0 m1 t1 m2 t2 :
  current_track r = Some tr ->
  last_message_time r = Some t0 ->
  (t1 < t0)%Q ->
  (t0 <= t2)%Q ->
  let r' := write_all [(m1, t1); (m2, t2)] r in
  current_track r' =
    Some (tr ++ [midi (with_time 0 m1);
                 midi (with_time (delta_ticks (Some t1) t2) m2)])
  /\ last_message_time r' = Some t2
  /\ delta_ticks (Some t0) t2 <= delta_ticks (Some t1) t2
  /\ (is_double t1 -> is_double t2 ->
      (((t2 - t0) * 960 + (t0 - t1) * 960) * (1 - rounding_slack) - 1
       < inject_Z (delta_ticks (Some t1) t2))%Q).
Proof.
  intros Htr Hl H10 H02 r'. subst r'.
  assert (H12 : (t1 <= t2)%Q)
    by (apply Qlt_le_weak; exact (Qlt_le_trans _ _ _ H10 H02)).
  unfold write_all. cbn [fold_left fst snd].
  rewrite (write_message_Some m1 t1 r tr Htr). rewrite Hl.
  rewrite (delta_ticks_earlier t0 t1 (Qlt_le_weak _ _ H10)).
  erewrite write_message_Some by reflexivity.
  split; [|split; [reflexivity|split]].
  - cbn [last_message_time set_last_message_time set_current_track current_track].
    now rewrite <- app_assoc.
  - apply delta_ticks_mono. now apply Qlt_le_weak.
  - intros D1 D2. destruct (delta_ticks_bounds t1 t2 D1 D2 H12) as [_ U].
    assert (Hs : (rounding_slack == 1 # 2251799813685248)%Q) by reflexivity.
    rewrite Hs in *.
    generalize dependent (inject_Z (delta_ticks (Some t1) t2)). intros d U.
    lra.
Qed.

(** ** Substrings *)

(** [String.prefix] is the test for an initial segment. *)
Lemma prefix_app (p s : string) :
  String.prefix p s = true <-> exists b, s = (p ++ b)%string.
Proof.
  revert s. induction p as [|c p IH]; intro s.
  - split; [intros _; now exists s | intros _; now destruct s].
  - destruct s as [|d s]; simpl.
    + split; [discriminate | intros [b Hb]; discriminate Hb].
    + destruct (Ascii.ascii_dec c d) as [->|Hn].
      * rewrite IH. split; intros [b Hb]; exists b; congruence.
      * split; [discriminate|]. intros [b Hb]. congruence.
Qed.

(** [pat in s] holds exactly when [pat] occurs in [s]. *)
Lemma contains_spec (pat s : string) :
  contains pat s = true <-> exists a b, s = (a ++ pat ++ b)%string.
Proof.
  induction s as [|c s IH].
  - cbn [contains]. rewrite orb_false_r. rewrite prefix_app. split.
    + intros [b Hb]. now exists EmptyString, b.
    + intros ([|x a] & b & H); [now exists b | discriminate H].
  - cbn [contains]. rewrite orb_true_iff, prefix_app, IH. split.
    + intros [[b Hb] | (a & b & H)].
      * now exists EmptyString, b.
      * exists (String c a), b. simpl. now rewrite H.
    + intros ([|x a] & b & H).
      * left. now exists b.
      * right. simpl in H. exists a, b. congruence.
Qed.

(** The test of the port name: the letters occur in the lowered name. *)
Lemma has_pia_spec (port : string) :
  has_pia port = true
  <-> exists a b, lower port = (a ++ "pia" ++ b)%string.
Proof. apply contains_spec. Qed.

(** ** The governor over a run *)

Lemma quiet_ext (r r' : MidiRecorder) :
  power_state r' = power_state r -> quiet r -> quiet r'.
Proof.
  unfold power_state, quiet, powersave_only. intros E [H1 H2].
  injection E as E1 E2. rewrite E1, E2. now split.
Qed.

Lemma quiet_governed (r : MidiRecorder) : quiet r -> governed r.
Proof. intros [H1 H2]. split; [intros _; exact H1 | exact H2]. Qed.

Lemma process_midi_message_power m ts r :
  power_state (process_midi_message m ts r)
  = if ignored m then power_state r
    else if recording r && in_low_power r
         then (false, governor_log r ++ [ondemand])
         else (false, governor_log r).
Proof.
  destruct (ignored m) eqn:Hi.
  - now rewrite process_midi_message_ignored.
  - rewrite (process_midi_message_prepare m ts r Hi).
    rewrite <- prepare_power with (ts := ts).
    rewrite <- (handle_shortcuts_power m ts (prepare ts r)).
    destruct (negb _); [apply write_message_power | reflexivity].
Qed.

Lemma process_midi_message_quiet m ts r :
  quiet r -> quiet (process_midi_message m ts r).
Proof.
  intros [H1 H2]. pose proof (process_midi_message_power m ts r) as E.
  rewrite H1, andb_false_r in E.
  apply (quiet_ext r); [|now split].
  rewrite E. unfold power_state. rewrite H1. now destruct (ignored m).
Qed.

Lemma process_midi_message_governed m ts r :
  governed r -> governed (process_midi_message m ts r).
Proof.
  intros [H1 H2]. pose proof (process_midi_message_power m ts r) as E.
  unfold power_state in E. destruct (ignored m) eqn:Hi.
  - rewrite (process_midi_message_ignored m ts r Hi). now split.
  - assert (Hc : recording r && in_low_power r = false).
    { destruct (recording r); [now rewrite H1 | reflexivity]. }
    rewrite Hc in E. injection E as E1 E2.
    split; [intros _; exact E1 | unfold powersave_only; now rewrite E2].
Qed.

Lemma process_queue_loop_quiet (fuel : nat) :
  forall n r, quiet r -> quiet (snd (process_queue_loop fuel n r)).
Proof.
  induction fuel as [|fuel IH]; intros n r H; [exact H|].
  simpl. destruct (message_queue r) as [|[m ts] rest]; [exact H|].
  apply IH, process_midi_message_quiet. exact H.
Qed.

Lemma process_queue_loop_governed (fuel : nat) :
  forall n r, governed r -> governed (snd (process_queue_loop fuel n r)).
Proof.
  induction fuel as [|fuel IH]; intros n r H; [exact H|].
  simpl. destruct (message_queue r) as [|[m ts] rest]; [exact H|].
  apply IH, process_midi_message_governed. exact H.
Qed.

(** What [stop_recording] does after the queue changes neither the flag
    nor the commands sent. *)
Lemma stop_recording_body_power_via g sfx sq sb r :
  recording r = true ->
  power_state (stop_recording_body g sfx sq sb r)
  = power_state (if sq then set_message_queue [] (set_recording false r)
                 else g (set_recording false r)).
Proof.
  intro Hr. unfold stop_recording_body. rewrite Hr. simpl negb. cbv iota.
  generalize (if sq then set_message_queue [] (set_recording false r)
              else g (set_recording false r)).
  intro r1.
  assert (E2 : power_state (if negb sb then flush_shortcut_buffers r1
                            else set_high_note_state empty_shortcut
                                   (set_low_note_state empty_shortcut r1))
               = power_state r1).
  { destruct sb; simpl negb; cbv iota; [reflexivity|].
    unfold flush_shortcut_buffers. now rewrite !flush_buffer_power. }
  generalize dependent (if negb sb then flush_shortcut_buffers r1
                        else set_high_note_state empty_shortcut
                               (set_low_note_state empty_shortcut r1)).
  intros r2 E2.
  destruct (current_file r2); [|exact E2].
  destruct (current_track r2); [|exact E2].
  destruct (1 <? _)%nat; exact E2.
Qed.

(** What it does after the queue leaves [recording] as the queue left
    it. *)
Lemma stop_recording_body_recording_via g sfx sq sb r :
  recording r = true ->
  recording (stop_recording_body g sfx sq sb r)
  = recording (if sq then set_message_queue [] (set_recording false r)
               else g (set_recording false r)).
Proof.
  intro Hr. unfold stop_recording_body. rewrite Hr. simpl negb. cbv iota.
  generalize (if sq then set_message_queue [] (set_recording false r)
              else g (set_recording false r)).
  intro r1.
  assert (E2 : recording (if negb sb then flush_shortcut_buffers r1
                          else set_high_note_state empty_shortcut
                                 (set_low_note_state empty_shortcut r1))
               = recording r1).
  { destruct sb; simpl negb; cbv iota; [reflexivity|].
    unfold flush_shortcut_buffers. now rewrite !flush_buffer_recording. }
  generalize dependent (if negb sb then flush_shortcut_buffers r1
                        else set_high_note_state empty_shortcut
                               (set_low_note_state empty_shortcut r1)).
  intros r2 E2.
  destruct (current_file r2); [|exact E2].
  destruct (current_track r2); [|exact E2].
  destruct (1 <? _)%nat; exact E2.
Qed.

Lemma stop_recording_quiet sfx sq sb r :
  recording r = true -> quiet r -> quiet (stop_recording sfx sq sb r).
Proof.
  intros Hr H. unfold stop_recording.
  apply (quiet_ext _ _ (stop_recording_body_power_via _ sfx sq sb r Hr)).
  destruct sq.
  - exact H.
  - unfold process_message_queue. apply process_queue_loop_quiet. exact H.
Qed.

Lemma stop_recording_governed sfx sq sb r :
  governed r -> governed (stop_recording sfx sq sb r).
Proof.
  intro H. destruct (recording r) eqn:Hr.
  - apply quiet_governed, stop_recording_quiet; [exact Hr|].
    split; [now apply (proj1 H) | exact (proj2 H)].
  - unfold stop_recording. now rewrite stop_recording_body_idle.
Qed.

(** The timeout check of a pass meets the queue drained: the stop
    leaves [recording] false, and the recorder enters low-power mode
    stopped. *)
Lemma check_session_timeout_governed r :
  message_queue r = [] -> governed r -> governed (check_session_timeout r).
Proof.
  intros Hq H. unfold check_session_timeout.
  destruct (recording r) eqn:Hr; [|exact H].
  destruct (truthy _); [|exact H]. simpl andb. cbv iota.
  destruct (last_activity r) as [a|]; [|exact H]. simpl.
  destruct (Qgtb _ _); [|exact H].
  assert (Hs : quiet (stop_recording EmptyString false false
                        (set_reads (S (reads r)) r))).
  { apply stop_recording_quiet; [exact Hr|].
    split; [now apply (proj1 H) | exact (proj2 H)]. }
  assert (Hn : recording (stop_recording EmptyString false false
                            (set_reads (S (reads r)) r)) = false).
  { unfold stop_recording.
    rewrite stop_recording_body_recording_via by exact Hr.
    rewrite process_message_queue_empty by exact Hq. reflexivity. }
  generalize dependent (stop_recording EmptyString false false
                          (set_reads (S (reads r)) r)).
  intros x [Hx1 Hx2] Hn. unfold enter_low_power_mode. rewrite Hx1. simpl.
  split; [intro C; simpl in C; congruence|].
  unfold powersave_only in *. simpl.
  apply Forall_app. split; [exact Hx2 | now constructor].
Qed.

Lemma exec_governed (s : Q * MidiRecorder) (a : Action) :
  a <> TimeoutCheck -> governed (snd s) -> governed (snd (exec s a)).
Proof.
  destruct s as [lqc r]. simpl snd. intros Ha H.
  destruct a as [m| | | |]; simpl; try exact H.
  - unfold run_iteration. simpl.
    pose proof (process_queue_loop_governed
                  (List.length (message_queue r)) 0
                  (set_reads (S (reads r)) r) H) as Hg.
    pose proof (process_message_queue_drains (set_reads (S (reads r)) r)) as Hd.
    unfold process_message_queue in *. simpl message_queue in *.
    destruct (Qgtb _ _); simpl snd; [|exact Hg].
    now apply check_session_timeout_governed.
  - now elim Ha.
  - now apply stop_recording_governed.
Qed.

Lemma run_governed (acts : list Action) :
  forall s, checks_in_pass acts -> governed (snd s) ->
            governed (snd (fold_left exec acts s)).
Proof.
  induction acts as [|a acts IH]; intros s Ha H; [exact H|].
  inversion Ha as [|x l Hx Hl]; subst.
  simpl. apply IH; [exact Hl | now apply exec_governed].
Qed.

(** X19.  In a run in which every timeout check meets the queue its
    pass has just drained, the governor is never set back to ondemand:
    every command the process sends is powersave, however many sessions
    start and time out, and [in_low_power] is false whenever [recording]
    is true.  Once the first idle timeout has set the CPU to powersave,
    playing again clears the flag and leaves the governor where it
    is. *)
Theorem governor_never_restored (acts : list Action) :
  checks_in_pass acts ->
  let r := snd (run acts) in
  powersave_only r
  /\ ~ In ondemand (governor_log r)
  /\ (recording r = true -> in_low_power r = false).
Proof.
  intros Ha r. subst r.
  assert (H : governed (snd (run acts))).
  { unfold run. apply run_governed; [exact Ha|].
    split; [reflexivity | constructor]. }
  destruct H as [H1 H2]. split; [exact H2 | split; [|exact H1]].
  intro Hin. unfold powersave_only in H2. rewrite Forall_forall in H2.
  specialize (H2 _ Hin). discriminate H2.
Qed.

End Clocks.

(** ** The theorems at sample inputs *)

(** A session in which one note has been played. *)
Definition sample_session : MidiRecorder :=
  process_midi_message sample_clock sample_clock (sample_on 60) 10 init.

(** The floats 8.0 and 9.080208333333333: the delta is next to the
    floor of the exact product. *)
Lemma tick_conversion_witness :
  delta_ticks (Some (1 # 2)) (1 # 4) = 0
  /\ Qfloor (exact_ticks 8 (5111702858305809 # 562949953421312)) - 1
     <= delta_ticks (Some 8%Q) (5111702858305809 # 562949953421312)
     <= Qfloor (exact_ticks 8 (5111702858305809 # 562949953421312)) + 1.
Proof.
  split.
  - apply (proj1 (proj2 (proj2 tick_conversion))). unfold Qle. simpl. lia.
  - apply (proj1 (proj2 (proj2 (proj2 tick_conversion)))).
    + vm_compute. reflexivity.
    + vm_compute. reflexivity.
    + unfold Qle. simpl. lia.
    + vm_compute. reflexivity.
Defined.

(** C2 as stated fails for the floats 8.0 and 9.080208333333333: the
    exact product is [1037 - 2^-43] with floor 1036, the product in
    binary64 is 1037.0, and [write_message] stamps 1037. *)
Lemma tick_conversion_rounds_up :
  let prev := 8%Q in
  let cur := (5111702858305809 # 562949953421312)%Q in
  is_double prev
  /\ is_double cur
  /\ delta_ticks (Some prev) cur = 1037
  /\ Z.max 0 (Qfloor ((cur - prev) * inject_Z TICKS_PER_BEAT
                      * (inject_Z 1000000 / inject_Z DEFAULT_TEMPO))%Q) = 1036.
Proof.
  intros prev cur. repeat split; vm_compute; reflexivity.
Qed.

(** Three taps on the high note in a session that holds one note: the
    file has the suffix and holds that note only. *)
Lemma three_taps_force_stop_witness :
  saved_files
    (process_all sample_clock sample_clock
       [(sample_on 106, 11%Q); (sample_off 106, 56 # 5); (sample_on 106, 23 # 2);
        (sample_on 106, 12%Q)] sample_session)
  = [mkSaved "-bookmark" 480 [set_tempo 500000 0; midi (sample_on 60)]].
Proof.
  refine (proj1 (proj2 (proj2 (proj2 (proj2 (proj2
    (three_taps_force_stop sample_clock sample_clock High sample_session
       (mkMidiFile 480) [set_tempo 500000 0; midi (sample_on 60)]
       (sample_on 106) 11 [(sample_off 106, 56 # 5)]
       (sample_on 106) (23 # 2) []
       (sample_on 106) 12 _ _ _ _ _ _ _ _ _ _))))))).
  - reflexivity.
  - reflexivity.
  - reflexivity.
  - split; reflexivity.
  - split; reflexivity.
  - split; reflexivity.
  - constructor; [split; reflexivity | constructor].
  - constructor.
  - unfold Qle; simpl; lia.
  - unfold Qle; simpl; lia.
Defined.

(** C1 as stated fails when the session holds nothing but the taps:
    the third tap stops the session and no file is saved. *)
Lemma three_taps_alone_save_nothing :
  let r' :=
    process_all sample_clock sample_clock
      [(sample_on 22, 1%Q); (sample_on 22, 3 # 2); (sample_on 22, 2%Q)] init in
  ((3 # 2) - 1 <= SHORTCUT_TIMEOUT)%Q
  /\ (2 - (3 # 2) <= SHORTCUT_TIMEOUT)%Q
  /\ recording r' = false
  /\ saved_files r' = [].
Proof.
  split; [unfold Qle; simpl; lia|].
  split; [unfold Qle; simpl; lia|].
  split; reflexivity.
Qed.

Lemma trigger_discards_both_buffers_witness :
  let r :=
    process_all sample_clock sample_clock
      [(sample_on 106, 101 # 10); (sample_on 106, 102 # 10);
       (sample_on 22, 103 # 10); (sample_on 22, 104 # 10)] sample_session in
  let r' := process_midi_message sample_clock sample_clock (sample_on 22) (105 # 10) r in
  List.length (buffer (high_note_state r)) = 2%nat
  /\ high_note_state r' = empty_shortcut
  /\ saved_files r' =
     [mkSaved EmptyString 480 [set_tempo 500000 0; midi (sample_on 60)]].
Proof.
  intros r r'. split; [vm_compute; reflexivity|].
  assert (Hf : session_file r = Some (mkMidiFile 480))
    by (vm_compute; reflexivity).
  assert (Ht : session_track r = Some [set_tempo 500000 0; midi (sample_on 60)])
    by (vm_compute; reflexivity).
  assert (Hc : 2 <= count (get_state Low r))
    by (apply Z.leb_le; vm_compute; reflexivity).
  assert (Hq : ((105 # 10) - last_time (get_state Low r) <= SHORTCUT_TIMEOUT)%Q)
    by (apply Qle_bool_iff; vm_compute; reflexivity).
  pose proof (trigger_discards_both_buffers sample_clock sample_clock Low r
                (mkMidiFile 480) [set_tempo 500000 0; midi (sample_on 60)]
                (sample_on 22) (105 # 10)
                Hf Ht (conj eq_refl eq_refl) Hc Hq)
    as (_ & H2 & _ & _ & H5).
  split; [exact H2 | exact H5].
Defined.


Lemma unrelated_event_flushes_counted_witness :
  let r :=
    process_midi_message sample_clock sample_clock (sample_on 22) 11 sample_session in
  current_track (snd (handle_shortcuts (sample_on 60) 12 r))
  = Some [set_tempo 500000 0; midi (sample_on 60);
          midi (with_time 960 (sample_on 22))].
Proof.
  intro r.
  exact (proj1 (proj2 (proj2
    (unrelated_event_flushes_counted sample_clock sample_clock
       (sample_on 60) 12 r eq_refl)))
    [set_tempo 500000 0; midi (sample_on 60)] eq_refl).
Defined.

(** C3 as stated fails on a buffer that holds a released note only: its
    count is 0, and the unrelated note leaves it in the buffer and out
    of the track. *)
Lemma release_only_buffer_not_flushed :
  let r :=
    process_midi_message sample_clock sample_clock (sample_off 22) 1 init in
  let r' := snd (handle_shortcuts (sample_on 60) 2 r) in
  unrelated (sample_on 60) = true
  /\ buffer (low_note_state r) = [(sample_off 22, 1%Q)]
  /\ buffer (low_note_state r') = [(sample_off 22, 1%Q)]
  /\ current_track r' = Some [set_tempo 500000 0]
  /\ handle_shortcuts (sample_on 60) 2 r
     <> (false, flush_buffer High (flush_buffer Low r)).
Proof.
  intros r r'. repeat split.
  intro H. apply (f_equal (fun p => List.length (buffer (low_note_state (snd p))))) in H.
  vm_compute in H. discriminate H.
Qed.

(** A note arrives, the loop processes it and, ten seconds having
    passed between two reads of the clock, stops the session. *)
Lemma committed_deltas_invariant_witness :
  track_ok [set_tempo 500000 0; midi (sample_on 60)].
Proof.
  refine (proj1 (proj2 (committed_deltas_invariant sample_clock sample_clock))
            [Callback (sample_on 60); StartLoop; Iteration]
            (mkSaved EmptyString 480 [set_tempo 500000 0; midi (sample_on 60)])
            _).
  vm_compute. left. reflexivity.
Defined.

Lemma tick_sum_error_bound_witness :
  (seconds_of_ticks
     (total_ticks (stamp None [(sample_on 60, 0%Q); (sample_on 62, 1 # 1024)]))
   <= ((1 # 1024) - 0) * (1 + rounding_slack))%Q.
Proof.
  refine (proj1 (proj2 (proj2
    (tick_sum_error_bound (start_recording sample_clock sample_clock init)
       [set_tempo 500000 0]
       (sample_on 60) 0 [(sample_on 62, 1 # 1024)]
       eq_refl eq_refl (conj eq_refl I) _)))).
  repeat constructor; vm_compute; reflexivity.
Defined.

(** C6 as stated fails already for two intervals: the three floats 0,
    1/1024 and 2/1024, 0.9375 tick apart, get the deltas 0, 0, 0, and
    the elapsed 1.875 ticks are more than one tick away from their
    sum. *)
Lemma tick_sum_drift :
  let evs := [(sample_on 60, 0%Q); (sample_on 62, 1 # 1024);
              (sample_on 64, 2 # 1024)] in
  let r := write_all evs (start_recording sample_clock sample_clock init) in
  increasing (map snd evs)
  /\ Forall is_double (map snd evs)
  /\ exists tr,
       current_track r = Some tr
       /\ map entry_time tr = [0; 0; 0; 0]
       /\ ~ (Qabs (seconds_of_ticks (total_ticks tr) - ((2 # 1024) - 0))
             <= seconds_of_ticks 1)%Q.
Proof.
  intros evs r. split; [simpl; repeat split|].
  split; [repeat constructor; vm_compute; reflexivity|].
  eexists. split; [vm_compute; reflexivity|]. split; [reflexivity|].
  vm_compute. intro H. apply H. reflexivity.
Qed.

Lemma ignored_kinds_change_nothing_witness :
  saved_files
    (snd (run sample_clock sample_clock
            [Callback (mkMessage clock 0 0 0); StartLoop; Iteration;
             Callback (mkMessage active_sensing 0 0 0); Iteration; Signal]))
  = [].
Proof.
  refine (proj2 (proj2 (proj2
    (proj2 (ignored_kinds_change_nothing sample_clock sample_clock) _ _)))).
  repeat constructor.
Defined.

(** A pass over the sample session with an [active_sensing] message
    queued, twenty seconds after the note: the session is stopped and
    saved, and the governor is set to powersave. *)
Lemma idle_timeout_stops_once_witness :
  let r := set_message_queue [(mkMessage active_sensing 0 0 0, 12%Q)]
             sample_session in
  let r1 := snd (run_iteration sample_clock sample_clock 0 r) in
  recording r1 = false
  /\ saved_files r1
     = [mkSaved EmptyString 480 [set_tempo 500000 0; midi (sample_on 60)]]
  /\ governor_log r1 = [powersave].
Proof.
  intros r r1.
  assert (H1 : (1 < sample_clock (reads r) - 0)%Q)
    by (apply Qgtb_true; vm_compute; reflexivity).
  assert (H2 : (SESSION_TIMEOUT
                < sample_clock (S (reads r)) - inject_Z 1700000020)%Q)
    by (apply Qgtb_true; vm_compute; reflexivity).
  assert (H3 : Forall (fun e => ignored (fst e) = true) (message_queue r))
    by (repeat constructor).
  pose proof (proj2 (proj2
    (idle_timeout_stops_once sample_clock sample_clock 0 r
       (inject_Z 1700000020) (mkMidiFile 480)
       [set_tempo 500000 0; midi (sample_on 60)]
       eq_refl eq_refl eq_refl ltac:(unfold Qeq; simpl; lia)
       eq_refl eq_refl H3)) H1 H2)
    as (_ & A1 & A2 & _ & A4 & _).
  split; [exact A1|]. split; [exact A2 | exact A4].
Defined.

Lemma velocity_never_consulted_witness :
  let m := mkMessage note_on 22 0 0 in
  count (low_note_state (snd (handle_shortcuts m 11 sample_session))) = 1
  /\ last_time (low_note_state (snd (handle_shortcuts m 11 sample_session))) = 11%Q.
Proof.
  intro m.
  exact (proj1 (proj2
    (proj2 velocity_never_consulted Low m 11%Q sample_session
       (conj eq_refl eq_refl) eq_refl)) ltac:(simpl; lia)).
Defined.

(** ** Processing does not depend on the clocks *)

Lemma prepare_two_clocks tt1 pc1 tt2 pc2 ts r1 r2 :
  clock_free r1 = clock_free r2 ->
  clock_free (prepare tt1 pc1 ts r1) = clock_free (prepare tt2 pc2 ts r2).
Proof.
  unfold prepare, start_recording, exit_low_power_mode, clock_free.
  destruct r1 as [rec la cf ct sst fmt lmt lp mq lo hi sv gl rd].
  destruct r2 as [rec' la' cf' ct' sst' fmt' lmt' lp' mq' lo' hi' sv' gl' rd'].
  simpl. intro H. injection H as -> -> -> -> -> -> -> -> -> -> ->.
  destruct rec', lp'; reflexivity.
Qed.

Lemma process_midi_message_two_clocks tt1 pc1 tt2 pc2 m ts r1 r2 :
  clock_free r1 = clock_free r2 ->
  clock_free (process_midi_message tt1 pc1 m ts r1)
  = clock_free (process_midi_message tt2 pc2 m ts r2).
Proof.
  intro H. destruct (ignored m) eqn:Hi.
  - now rewrite !process_midi_message_ignored.
  - rewrite !(process_midi_message_prepare _ _ m ts _ Hi).
    pose proof (prepare_two_clocks tt1 pc1 tt2 pc2 ts r1 r2 H) as Hp.
    destruct (handle_shortcuts_clock_free m ts (prepare tt1 pc1 ts r1)) as [A1 A2].
    destruct (handle_shortcuts_clock_free m ts (prepare tt2 pc2 ts r2)) as [B1 B2].
    rewrite Hp in A1, A2.
    rewrite <- A1, B1.
    destruct (fst (handle_shortcuts m ts (prepare tt2 pc2 ts r2)));
      simpl negb; cbv iota.
    + rewrite <- A2, <- B2. reflexivity.
    + rewrite <- !write_message_clock_free, <- A2, <- B2. reflexivity.
Qed.

Lemma process_queue_loop_two_clocks tt1 pc1 tt2 pc2 (fuel : nat) :
  forall n r1 r2,
  clock_free r1 = clock_free r2 ->
  fst (process_queue_loop tt1 pc1 fuel n r1)
  = fst (process_queue_loop tt2 pc2 fuel n r2)
  /\ clock_free (snd (process_queue_loop tt1 pc1 fuel n r1))
     = clock_free (snd (process_queue_loop tt2 pc2 fuel n r2)).
Proof.
  induction fuel as [|fuel IH]; intros n r1 r2 H; [split; [reflexivity|exact H]|].
  assert (Hq : message_queue r1 = message_queue r2).
  { apply (f_equal message_queue) in H. exact H. }
  simpl. rewrite Hq. destruct (message_queue r2) as [|[m ts] rest];
    [split; [reflexivity|exact H]|].
  apply IH. apply process_midi_message_two_clocks.
  apply (f_equal (set_message_queue rest)) in H. exact H.
Qed.

(** X11.  What [process_message_queue] makes of a queue does not depend
    on the clocks read while it runs, nor on the clock readings the
    recorder keeps: two recorders that differ in [last_activity],
    [session_start_time] and the read counter only, run under any two
    pairs of clocks, process the same number of messages and end up
    equal in every other attribute (tracks with their deltas, saved
    files, buffers, flags).  The timing of the recording comes from the
    time stamps the callback took, not from the time of processing. *)
Theorem processing_ignores_the_clocks tt1 pc1 tt2 pc2 r1 r2 :
  clock_free r1 = clock_free r2 ->
  fst (process_message_queue tt1 pc1 r1) = fst (process_message_queue tt2 pc2 r2)
  /\ clock_free (snd (process_message_queue tt1 pc1 r1))
     = clock_free (snd (process_message_queue tt2 pc2 r2)).
Proof.
  intro H. unfold process_message_queue.
  assert (Hq : message_queue r1 = message_queue r2).
  { apply (f_equal message_queue) in H. exact H. }
  rewrite Hq. now apply process_queue_loop_two_clocks.
Qed.

(** ** The further properties at sample inputs *)

(** The sample session after one tap on the high note. *)
Definition sample_tapped : MidiRecorder :=
  process_all sample_clock sample_clock [(sample_on 106, 11%Q)] sample_session.

(** The sample session with an unrelated note waiting in the queue. *)
Definition sample_queued : MidiRecorder :=
  set_message_queue [(sample_on 62, 20%Q)] sample_session.

Definition sample_now : DateTime := mkDateTime 2026 11 3 9 5 7.

Lemma process_message_queue_terminates_witness :
  process_queue_loop sample_clock sample_clock 3 0 sample_queued
  = process_message_queue sample_clock sample_clock sample_queued.
Proof.
  refine (proj1 (process_message_queue_terminates sample_clock sample_clock
                   3 sample_queued _)).
  simpl. lia.
Defined.

Lemma process_message_queue_fifo_witness :
  fst (process_message_queue sample_clock sample_clock
         (set_message_queue [(sample_on 60, 1%Q); (sample_off 60, 2%Q)] init))
  = 2.
Proof.
  refine (f_equal fst
    (process_message_queue_fifo sample_clock sample_clock
       (set_message_queue [(sample_on 60, 1%Q); (sample_off 60, 2%Q)] init) _)).
  repeat constructor.
Defined.

(** The third tap at the head of the queue: the note behind it is
    dropped with the queue. *)
Lemma third_tap_drops_rest_of_queue_witness :
  saved_files
    (snd (process_message_queue sample_clock sample_clock
            (set_message_queue [(sample_on 106, 12%Q); (sample_on 64, 13%Q)]
               (process_all sample_clock sample_clock
                  [(sample_on 106, 23 # 2)] sample_tapped))))
  = [mkSaved "-bookmark" 480 [set_tempo 500000 0; midi (sample_on 60)]].
Proof.
  refine (proj2 (proj2 (proj2
    (third_tap_drops_rest_of_queue sample_clock sample_clock High
       (set_message_queue [(sample_on 106, 12%Q); (sample_on 64, 13%Q)]
          (process_all sample_clock sample_clock
             [(sample_on 106, 23 # 2)] sample_tapped))
       (mkMidiFile 480) [set_tempo 500000 0; midi (sample_on 60)]
       (sample_on 106) 12 [(sample_on 64, 13%Q)] _ _ _ _ _ _)))).
  - reflexivity.
  - reflexivity.
  - reflexivity.
  - split; reflexivity.
  - apply Z.leb_le. vm_compute. reflexivity.
  - apply Qle_bool_iff. vm_compute. reflexivity.
Defined.

Lemma delivered_in_order_witness :
  fst (process_message_queue sample_clock sample_clock
         (deliver sample_clock [sample_on 60; sample_off 60] init))
  = 2.
Proof.
  refine (f_equal fst
    (proj2 (delivered_in_order sample_clock sample_clock
              [sample_on 60; sample_off 60] init) _ _)).
  - reflexivity.
  - repeat constructor.
Defined.

(** A stop with a note in the queue: the file holds that note alone,
    and the recorder is left recording without a track. *)
Lemma stop_with_queued_message_restarts_witness :
  recording (stop_recording sample_clock sample_clock EmptyString false false
               sample_queued) = true
  /\ saved_files (stop_recording sample_clock sample_clock EmptyString false false
                    sample_queued)
     = [mkSaved EmptyString 480 [set_tempo 500000 0; midi (sample_on 62)]].
Proof.
  pose proof (stop_with_queued_message_restarts sample_clock sample_clock
                EmptyString sample_queued (sample_on 62) 20
                eq_refl eq_refl eq_refl eq_refl) as (A & _ & _ & _ & B).
  split; [exact A | exact B].
Defined.

Lemma message_without_track_is_lost_witness :
  current_track
    (process_midi_message sample_clock sample_clock (sample_on 64) 30
       (stop_recording sample_clock sample_clock EmptyString false false
          sample_queued))
  = None.
Proof.
  refine (proj1 (proj2
    (message_without_track_is_lost sample_clock sample_clock
       (stop_recording sample_clock sample_clock EmptyString false false
          sample_queued)
       (sample_on 64) 30 _ _ _ _))); reflexivity.
Defined.

(** The first note after the idle recorder went to low power: the flag
    is cleared and the governor stays on powersave. *)
Lemma session_start_sends_no_governor_command_witness :
  in_low_power
    (process_midi_message sample_clock sample_clock (sample_on 60) 1
       (enter_low_power_mode init)) = false
  /\ governor_log
       (process_midi_message sample_clock sample_clock (sample_on 60) 1
          (enter_low_power_mode init)) = [powersave].
Proof.
  pose proof (session_start_sends_no_governor_command sample_clock sample_clock
                (enter_low_power_mode init) (sample_on 60) 1 eq_refl)
    as (A & B & _).
  split; [exact A | exact (B eq_refl)].
Defined.

Lemma signal_saves_pending_buffers_witness :
  saved_files (signal_handler sample_clock sample_clock sample_tapped)
  = [mkSaved EmptyString 480
       [set_tempo 500000 0; midi (sample_on 60);
        midi (mkMessage note_on 106 64 960)]].
Proof.
  refine (proj1 (proj2 (proj2 (proj2 (proj2 (proj2
    (signal_saves_pending_buffers sample_clock sample_clock sample_tapped
       (mkMidiFile 480) [set_tempo 500000 0; midi (sample_on 60)]
       _ _ _ _))))))); reflexivity.
Defined.

Lemma stale_tap_flushes_and_restarts_witness :
  current_track
    (process_midi_message sample_clock sample_clock (sample_on 106) 13
       sample_tapped)
  = Some [set_tempo 500000 0; midi (sample_on 60);
          midi (mkMessage note_on 106 64 960)].
Proof.
  refine (proj1 (proj2
    (stale_tap_flushes_and_restarts sample_clock sample_clock High sample_tapped
       (mkMidiFile 480) [set_tempo 500000 0; midi (sample_on 60)]
       (sample_on 106) 13 _ _ _ _ _))).
  - reflexivity.
  - reflexivity.
  - split; reflexivity.
  - apply Z.ltb_lt. vm_compute. reflexivity.
  - vm_compute. reflexivity.
Defined.

Lemma shortcut_buffers_in_step_witness :
  0 <= count (get_state High
                (snd (run sample_clock sample_clock
                        [Callback (sample_on 106); StartLoop; Iteration])))
    <= 2.
Proof.
  exact (proj1 (proj2 (proj2
    (shortcut_buffers_in_step sample_clock sample_clock
       [Callback (sample_on 106); StartLoop; Iteration] High)))).
Defined.

Lemma processing_ignores_the_clocks_witness :
  fst (process_message_queue sample_clock sample_clock sample_queued)
  = fst (process_message_queue (fun _ => 0%Q) (fun _ => 0%Q)
           (set_last_activity (Some 5%Q) sample_queued)).
Proof.
  refine (proj1
    (processing_ignores_the_clocks sample_clock sample_clock
       (fun _ => 0%Q) (fun _ => 0%Q)
       sample_queued (set_last_activity (Some 5%Q) sample_queued) _)).
  reflexivity.
Defined.

Lemma find_midi_port_policy_witness :
  In "Digital Piano"%string ["USB Midi"; "Digital Piano"]%string
  /\ exists p,
       find_midi_port (Some ["USB Midi"; "Digital Piano"]%string) (fun _ => true)
       = Some p.
Proof.
  pose proof (find_midi_port_policy (fun _ => true)) as (_ & _ & A & B).
  split.
  - exact (proj1 (A ["USB Midi"; "Digital Piano"]%string
                    "Digital Piano"%string eq_refl)).
  - apply B; [discriminate | repeat constructor].
Defined.

Lemma monitor_connects_to_pia_ports_only_witness :
  midi_port
    (snd (port_monitor_pass (Some ["USB Midi"; "Synth"]%string) (fun _ => true)
            monitor_init))
  = None.
Proof.
  refine (proj1 (proj2 (proj2
    (proj2 monitor_connects_to_pia_ports_only
       ["USB Midi"; "Synth"]%string (fun _ => true) monitor_init _) _))).
  - repeat constructor.
  - reflexivity.
Defined.

Lemma monitor_keeps_or_replaces_port_witness :
  port_monitor_pass (Some ["Piano A"; "USB Midi"]%string) (fun _ => true)
    (mkMonitor (Some "Piano A"%string) (Some "Piano A"%string) []
       ["Piano A"%string])
  = (1%Q, mkMonitor (Some "Piano A"%string) (Some "Piano A"%string) []
            ["Piano A"%string]).
Proof.
  refine (proj1
    (monitor_keeps_or_replaces_port ["Piano A"; "USB Midi"]%string (fun _ => true)
       (mkMonitor (Some "Piano A"%string) (Some "Piano A"%string) []
          ["Piano A"%string])
       "Piano A"%string eq_refl eq_refl) _).
  left. reflexivity.
Defined.


Lemma saved_file_is_named_by_time_and_suffix_witness :
  last (save_path sample_now "-bookmark") EmptyString
  = "session_090507-bookmark.mid"%string.
Proof.
  refine (proj1 (proj2 (proj2
    (saved_file_is_named_by_time_and_suffix sample_now "-bookmark" _)))).
  unfold valid_time, sample_now. simpl. lia.
Defined.

Lemma saved_paths_collide_only_within_a_second_witness :
  sample_now = sample_now /\ High = High.
Proof.
  refine (saved_paths_collide_only_within_a_second sample_now sample_now
            High High _ _ _).
  - unfold valid_time, sample_now. simpl. lia.
  - unfold valid_time, sample_now. simpl. lia.
  - reflexivity.
Defined.

Lemma releases_wait_in_the_buffer_witness :
  get_state High
    (process_all sample_clock sample_clock
       [(sample_off 106, 11%Q); (sample_off 106, 12%Q)] sample_session)
  = mkShortcut 0 [(sample_off 106, 11%Q); (sample_off 106, 12%Q)] 0.
Proof.
  refine (proj1 (proj2 (proj2 (proj2 (proj2
    (releases_wait_in_the_buffer sample_clock sample_clock High sample_session
       (mkMidiFile 480) [set_tempo 500000 0; midi (sample_on 60)]
       [(sample_off 106, 11%Q); (sample_off 106, 12%Q)] _ _ _)))))).
  - reflexivity.
  - reflexivity.
  - repeat constructor.
Defined.

(** A release stamped one second before the last write, then a note one
    second after it: the note gets the ticks of two seconds. *)
Lemma stamp_out_of_order_stretches_track_witness :
  current_track
    (write_all [(sample_off 22, 9%Q); (sample_on 62, 11%Q)] sample_session)
  = Some [set_tempo 500000 0; midi (sample_on 60); midi (sample_off 22);
          midi (mkMessage note_on 62 64 1920)].
Proof.
  refine (proj1
    (stamp_out_of_order_stretches_track sample_session
       [set_tempo 500000 0; midi (sample_on 60)] 10
       (sample_off 22) 9 (sample_on 62) 11 _ _ _ _)).
  - reflexivity.
  - reflexivity.
  - unfold Qlt. simpl. lia.
  - unfold Qle. simpl. lia.
Defined.

(** Two sessions that time out: the commands sent are the powersave
    of each timeout, with no ondemand between them. *)
Lemma governor_never_restored_witness :
  powersave_only
    (snd (run sample_clock sample_clock
            [Callback (sample_on 60); StartLoop; Iteration; Iteration;
             Callback (sample_on 62); Iteration]))
  /\ governor_log
       (snd (run sample_clock sample_clock
               [Callback (sample_on 60); StartLoop; Iteration; Iteration;
                Callback (sample_on 62); Iteration]))
     = [powersave; powersave].
Proof.
  split; [|vm_compute; reflexivity].
  refine (proj1
    (governor_never_restored sample_clock sample_clock
       [Callback (sample_on 60); StartLoop; Iteration; Iteration;
        Callback (sample_on 62); Iteration] _)).
  repeat constructor; discriminate.
Defined.
